(** * The linting core: severity resolution, token cursors, tree traversal,
      rule dispatch, verification and the autofix loop.

    A shallow embedding of [lib/linter/linter.js], [lib/linter/rules.js],
    [lib/shared/traverser.js], [lib/source-code/token-store/*.js],
    [lib/cli-engine/cli-engine.js] and the [ESLint] class, followed by the
    properties the design document states about them and by further
    properties of the code. *)

From Stdlib Require Import ZArith Bool Ascii String List Lia Sorted.
From stdpp Require Import base option list strings pretty gmap.
Import ListNotations.
Local Open Scope string_scope.
Local Open Scope Z_scope.
Local Open Scope list_scope.
Set Warnings "-register-all".

(* ===================================================================== *)
(** * Part I. The embedding                                              *)
(* ===================================================================== *)

(** ** JavaScript values

    Rule configurations, rule metadata and option bags are plain
    JavaScript values.  Numbers are modelled by the integers: the code only
    compares them with [===] against [0], [1] and [2], so a non-integral
    double, [NaN] or an infinity behaves like any integer outside that
    range, and [-0] like [0].  Strings are sequences of bytes; objects are
    their own enumerable properties in [Object.keys] order; functions and
    built-in objects are opaque and only known by name. *)
Module JS.

Inductive Value : Type :=
| VUndefined
| VNull
| VBool (b : bool)
| VNumber (z : Z)
| VString (s : string)
| VArray (elems : list Value)
| VObject (props : list (string * Value))
| VFunction (name : string).

(** [ToBoolean]: what [if (v)], [!v], [v || w] and [v && w] test. *)
Definition truthy (v : Value) : bool :=
  match v with
  | VUndefined | VNull => false
  | VBool b => b
  | VNumber z => negb (z =? 0)
  | VString s => negb (String.eqb s "")
  | VArray _ | VObject _ | VFunction _ => true
  end.

(** [v || w] *)
Definition or (v w : Value) : Value := if truthy v then v else w.

(** [v === VNumber n] *)
Definition is_number (n : Z) (v : Value) : bool :=
  match v with
  | VNumber z => z =? n
  | _ => false
  end.

(** [v === true] *)
Definition is_true (v : Value) : bool :=
  match v with
  | VBool b => b
  | _ => false
  end.

(** [typeof v !== "undefined"] *)
Definition is_defined (v : Value) : bool :=
  match v with
  | VUndefined => false
  | _ => true
  end.

(** [arr[i]] on an array: out of range reads give [undefined]. *)
Definition index (elems : list Value) (i : nat) : Value :=
  nth i elems VUndefined.

(** Own-property lookup in an object; the first binding of a key wins,
    an object having at most one. *)
Fixpoint own (props : list (string * Value)) (k : string) : option Value :=
  match props with
  | [] => None
  | (k', v) :: rest => if String.eqb k k' then Some v else own rest k
  end.

(** The properties every object literal [{}] inherits from
    [Object.prototype]. *)
Definition Object_prototype : list (string * Value) :=
  [ ("constructor", VFunction "Object");
    ("__defineGetter__", VFunction "__defineGetter__");
    ("__defineSetter__", VFunction "__defineSetter__");
    ("hasOwnProperty", VFunction "hasOwnProperty");
    ("__lookupGetter__", VFunction "__lookupGetter__");
    ("__lookupSetter__", VFunction "__lookupSetter__");
    ("isPrototypeOf", VFunction "isPrototypeOf");
    ("propertyIsEnumerable", VFunction "propertyIsEnumerable");
    ("toString", VFunction "toString");
    ("valueOf", VFunction "valueOf");
    ("__proto__", VObject []);
    ("toLocaleString", VFunction "toLocaleString") ].

(** [obj[k]] on an object created by a literal [{...}]: own properties
    first, then the prototype, then [undefined]. *)
Definition get (props : list (string * Value)) (k : string) : Value :=
  match own props k with
  | Some v => v
  | None =>
      match own Object_prototype k with
      | Some v => v
      | None => VUndefined
      end
  end.

(** A string literal in double quotes. *)
Definition quoted (s : string) : string :=
  String (ascii_of_nat 34) (String.append s (String (ascii_of_nat 34) "")).

(** [String.prototype.toLowerCase] on the bytes of a string: the letters
    [A]-[Z] are lowered, every other byte is kept.  This is exact on
    ASCII text, and no letter outside ASCII lowers to a letter of the
    names looked up below. *)
Definition lower_ascii (c : ascii) : ascii :=
  let n := nat_of_ascii c in
  if (65 <=? n)%nat && (n <=? 90)%nat then ascii_of_nat (n + 32) else c.

Fixpoint toLowerCase (s : string) : string :=
  match s with
  | EmptyString => EmptyString
  | String c rest => String (lower_ascii c) (toLowerCase rest)
  end.

End JS.

(** ** [getRuleSeverity] and [getRuleOptions] (linter.js) *)
Module Severity.
Import JS.

Definition RULE_SEVERITY_STRINGS : list string := ["off"; "warn"; "error"].

(** [RULE_SEVERITY_STRINGS.reduce((map, value, index) => { map[value] =
    index; return map }, {})]: an object literal filled with the index of
    each name. *)
Fixpoint reduce_index (names : list string) (i : Z)
    (map : list (string * Value)) : list (string * Value) :=
  match names with
  | [] => map
  | value :: rest => reduce_index rest (i + 1) (map ++ [(value, VNumber i)])
  end.

Definition RULE_SEVERITY : list (string * Value) :=
  reduce_index RULE_SEVERITY_STRINGS 0 [].

(** [Array.isArray(ruleConfig) ? ruleConfig[0] : ruleConfig] *)
Definition severityValue_of (ruleConfig : Value) : Value :=
  match ruleConfig with
  | VArray elems => index elems 0
  | _ => ruleConfig
  end.

Definition getRuleSeverity (ruleConfig : Value) : Value :=
  let severityValue := severityValue_of ruleConfig in
  if is_number 0 severityValue || is_number 1 severityValue
     || is_number 2 severityValue
  then severityValue
  else
    match severityValue with
    | VString s => or (get RULE_SEVERITY (toLowerCase s)) (VNumber 0)
    | _ => VNumber 0
    end.

(** [ruleConfig.slice(1)] for an array, [[]] otherwise. *)
Definition getRuleOptions (ruleConfig : Value) : list Value :=
  match ruleConfig with
  | VArray elems => tl elems
  | _ => []
  end.

End Severity.

(** ** Token cursors (lib/source-code/token-store)

    A cursor is an object with a [current] field and a [moveNext()] method.
    [cursors.js] builds a base cursor and wraps it in decorators; the
    dynamic dispatch of [moveNext] is a match on the class of the object.
    Values are tokens and comments, with [null] the initial [current] and
    [undefined] what an out-of-range array read gives. *)
Module Cursors.
Section Cursors.

Context {V : Type}.
Variable null undefined : V.

(** [arr[i]] for a number [i]. *)
Definition at_index (arr : list V) (i : Z) : V :=
  if i <? 0 then undefined else nth (Z.to_nat i) arr undefined.

(** *** backward-token-cursor.js *)
Record BackwardTokenCursor : Type := mkBackward {
  bw_tokens : list V;
  bw_index : Z;
  bw_indexEnd : Z;
  bw_current : V
}.

Definition BackwardTokenCursor_moveNext (this : BackwardTokenCursor)
    : bool * BackwardTokenCursor :=
  if bw_indexEnd this <=? bw_index this then
    (true, {| bw_tokens := bw_tokens this;
              bw_index := bw_index this - 1;
              bw_indexEnd := bw_indexEnd this;
              bw_current := at_index (bw_tokens this) (bw_index this) |})
  else (false, this).

(** [getOneToken()], the shorthand: the cursor is left as it is. *)
Definition BackwardTokenCursor_getOneToken (this : BackwardTokenCursor) : V :=
  if bw_indexEnd this <=? bw_index this
  then at_index (bw_tokens this) (bw_index this)
  else null.

(** Modelled from the spec: forward-token-cursor.js is not among the
    sources; the design has "forward and backward variants" of the base
    cursor, so the forward one walks the same index range upwards. *)
Record ForwardTokenCursor : Type := mkForward {
  fw_tokens : list V;
  fw_index : Z;
  fw_indexEnd : Z;
  fw_current : V
}.

(** Modelled from the spec: the [moveNext] of the forward variant, which
    "advances one step and reports whether a value exists". *)
Definition ForwardTokenCursor_moveNext (this : ForwardTokenCursor)
    : bool * ForwardTokenCursor :=
  if fw_index this <=? fw_indexEnd this then
    (true, {| fw_tokens := fw_tokens this;
              fw_index := fw_index this + 1;
              fw_indexEnd := fw_indexEnd this;
              fw_current := at_index (fw_tokens this) (fw_index this) |})
  else (false, this).

(** *** Base cursors in general

    The factory is handed its two base classes; [B] is the type of their
    instances, with the two members every cursor has. *)
Context {B : Type}.
Variable base_moveNext : B -> bool * B.
Variable base_current : B -> V.

(** *** Cursor objects *)
Inductive Cursor : Type :=
| Base (b : B)
| FilterCursor (cursor : Cursor) (predicate : V -> bool) (current : V)
| SkipCursor (cursor : Cursor) (count : Z) (current : V)
| LimitCursor (cursor : Cursor) (count : Z) (current : V).

Definition current (this : Cursor) : V :=
  match this with
  | Base b => base_current b
  | FilterCursor _ _ c | SkipCursor _ _ c | LimitCursor _ _ c => c
  end.

(** Constructors: [super(cursor)] stores the wrapped cursor, and the root
    class sets [current] to [null]. *)
Definition new_FilterCursor (cursor : Cursor) (predicate : V -> bool) :=
  FilterCursor cursor predicate null.
Definition new_SkipCursor (cursor : Cursor) (count : Z) :=
  SkipCursor cursor count null.
Definition new_LimitCursor (cursor : Cursor) (count : Z) :=
  LimitCursor cursor count null.

(** decorative-cursor.js, [moveNext]: forward the call and copy
    [current]; [rebuild] puts the moved inner cursor and the copied value
    back into the decorator. *)
Definition DecorativeCursor_moveNext
    (inner : option (bool * Cursor)) (rebuild : Cursor -> V -> Cursor)
    : option (bool * Cursor) :=
  match inner with
  | Some (retv, cursor') => Some (retv, rebuild cursor' (current cursor'))
  | None => None
  end.

(** Modelled from the spec: filter-cursor.js, skip-cursor.js and
    limit-cursor.js are not among the sources.  Filter "skips values
    failing a predicate", Skip "discards the first N accepted values",
    Limit "stops after N values, where N=0 yields an empty sequence"; each
    extends the decorative cursor above, whose source there is.

    [moveNext()], by the class of the object.  The fuel bounds the depth
    of calls and the number of loop iterations; [None] is "out of fuel".
    A loop that calls [super.moveNext()] and goes round again is the
    method entered again on the updated object. *)
Fixpoint moveNext (fuel : nat) (this : Cursor) : option (bool * Cursor) :=
  match fuel with
  | O => None
  | S fuel' =>
      match this with
      | Base b =>
          let (retv, b') := base_moveNext b in Some (retv, Base b')
      | FilterCursor cursor predicate _ =>
          match DecorativeCursor_moveNext (moveNext fuel' cursor)
                  (fun c v => FilterCursor c predicate v) with
          | Some (true, this') =>
              if predicate (current this') then Some (true, this')
              else moveNext fuel' this'
          | r => r
          end
      | SkipCursor cursor count _ =>
          if 0 <? count then
            match DecorativeCursor_moveNext (moveNext fuel' cursor)
                    (fun c v => SkipCursor c (count - 1) v) with
            | Some (true, this') => moveNext fuel' this'
            | r => r
            end
          else
            DecorativeCursor_moveNext (moveNext fuel' cursor)
              (fun c v => SkipCursor c count v)
      | LimitCursor cursor count cur =>
          if 0 <? count then
            DecorativeCursor_moveNext (moveNext fuel' cursor)
              (fun c v => LimitCursor c (count - 1) v)
          else Some (false, this)
      end
  end.

(** The values a cursor yields: [while (cursor.moveNext())
    out.push(cursor.current)]. *)
Fixpoint drain (fuel : nat) (this : Cursor) : option (list V) :=
  match fuel with
  | O => None
  | S fuel' =>
      match moveNext fuel' this with
      | None => None
      | Some (false, _) => Some []
      | Some (true, this') =>
          match drain fuel' this' with
          | Some out => Some (current this' :: out)
          | None => None
          end
      end
  end.

(** *** cursors.js, [CursorFactory] *)
Variable IndexMap : Type.

Record CursorFactory : Type := mkFactory {
  TokenCursor : list V -> list V -> IndexMap -> Z -> Z -> B;
  TokenCommentCursor : list V -> list V -> IndexMap -> Z -> Z -> B
}.

Definition createBaseCursor (this : CursorFactory)
    (tokens comments : list V) (indexMap : IndexMap) (startLoc endLoc : Z)
    (includeComments : bool) : Cursor :=
  let Cursor := if includeComments then TokenCommentCursor this
                else TokenCursor this in
  Base (Cursor tokens comments indexMap startLoc endLoc).

Definition createCursor (this : CursorFactory)
    (tokens comments : list V) (indexMap : IndexMap) (startLoc endLoc : Z)
    (includeComments : bool) (filter : option (V -> bool)) (skip count : Z)
    : Cursor :=
  let cursor :=
    createBaseCursor this tokens comments indexMap startLoc endLoc
      includeComments in
  let cursor :=
    match filter with
    | Some predicate => new_FilterCursor cursor predicate
    | None => cursor
    end in
  let cursor := if 1 <=? skip then new_SkipCursor cursor skip else cursor in
  let cursor := if 0 <=? count then new_LimitCursor cursor count else cursor in
  cursor.

(** The eager pipeline the factory's decorators stand for: keep what
    the predicate accepts, drop [skip] values, keep at most [count]. *)
Definition pipeline (filter : option (V -> bool)) (skip count : Z)
    (out : list V) : list V :=
  let out := match filter with
             | Some predicate => List.filter predicate out
             | None => out
             end in
  let out := if 1 <=? skip then drop (Z.to_nat skip) out else out in
  if 0 <=? count then take (Z.to_nat count) out else out.

(** [Yields c out]: [c.moveNext()] succeeds [length out] times, leaving
    the values [out] in [current], and then returns [false]. *)
Inductive Yields : Cursor -> list V -> Prop :=
| Yields_done (c c' : Cursor) (fuel : nat) :
    moveNext fuel c = Some (false, c') -> Yields c []
| Yields_next (c c' : Cursor) (fuel : nat) (out : list V) :
    moveNext fuel c = Some (true, c') -> Yields c' out ->
    Yields c (current c' :: out).

End Cursors.

(** *** The two exported factories, [forward] and [backward]

    utils.js and the two token-and-comment cursor classes are not among the
    sources: the index helpers are parameters, and so are the instances of
    the comment classes, with their constructors and members. *)
Section Factories.

Context {V : Type}.
Variable null undefined : V.
Variable IndexMap : Type.
Variable getFirstIndex getLastIndex : list V -> IndexMap -> Z -> Z.
Variable CommentCursor : Type.
Variable CommentCursor_moveNext : CommentCursor -> bool * CommentCursor.
Variable CommentCursor_current : CommentCursor -> V.
Variable ForwardTokenCommentCursor BackwardTokenCommentCursor :
  list V -> list V -> IndexMap -> Z -> Z -> CommentCursor.

Definition new_BackwardTokenCursor (tokens comments : list V)
    (indexMap : IndexMap) (startLoc endLoc : Z) : BackwardTokenCursor :=
  {| bw_tokens := tokens;
     bw_index := getLastIndex tokens indexMap endLoc;
     bw_indexEnd := getFirstIndex tokens indexMap startLoc;
     bw_current := null |}.

Definition new_ForwardTokenCursor (tokens comments : list V)
    (indexMap : IndexMap) (startLoc endLoc : Z) : ForwardTokenCursor :=
  {| fw_tokens := tokens;
     fw_index := getFirstIndex tokens indexMap startLoc;
     fw_indexEnd := getLastIndex tokens indexMap endLoc;
     fw_current := null |}.

(** The tokens at the indices from [index] down to [indexEnd], and
    from [index] up to [indexEnd]. *)
Definition tokens_downto (tokens : list V) (index indexEnd : Z) : list V :=
  map (fun j => at_index undefined tokens (index - Z.of_nat j))
    (seq 0 (Z.to_nat (index - indexEnd + 1))).

Definition tokens_upto (tokens : list V) (index indexEnd : Z) : list V :=
  map (fun j => at_index undefined tokens (index + Z.of_nat j))
    (seq 0 (Z.to_nat (indexEnd - index + 1))).

Inductive BaseCursor : Type :=
| OfForward (c : @ForwardTokenCursor V)
| OfBackward (c : @BackwardTokenCursor V)
| OfComment (c : CommentCursor).

Definition BaseCursor_moveNext (this : BaseCursor) : bool * BaseCursor :=
  match this with
  | OfForward c =>
      let (r, c') := ForwardTokenCursor_moveNext undefined c in
      (r, OfForward c')
  | OfBackward c =>
      let (r, c') := BackwardTokenCursor_moveNext undefined c in
      (r, OfBackward c')
  | OfComment c =>
      let (r, c') := CommentCursor_moveNext c in (r, OfComment c')
  end.

Definition BaseCursor_current (this : BaseCursor) : V :=
  match this with
  | OfForward c => fw_current c
  | OfBackward c => bw_current c
  | OfComment c => CommentCursor_current c
  end.

Definition forward : @CursorFactory V BaseCursor IndexMap :=
  {| TokenCursor := fun t c m s e =>
       OfForward (new_ForwardTokenCursor t c m s e);
     TokenCommentCursor := fun t c m s e =>
       OfComment (ForwardTokenCommentCursor t c m s e) |}.

Definition backward : @CursorFactory V BaseCursor IndexMap :=
  {| TokenCursor := fun t c m s e =>
       OfBackward (new_BackwardTokenCursor t c m s e);
     TokenCommentCursor := fun t c m s e =>
       OfComment (BackwardTokenCommentCursor t c m s e) |}.

End Factories.
End Cursors.

(** ** The tree walker (lib/shared/traverser.js)

    A tree is a JavaScript value; a node is an object whose [type] is a
    string.  The callbacks are the caller's: they see the node, its parent
    and [this.parents()], may change the caller's own state [U], and may
    call [this.skip()] and [this.break()], which is what their [Control]
    says.  Every call of a callback is written to [trace]. *)
Module Traverser.
Import JS.

(** [isNode(x)] *)
Definition isNode (x : Value) : bool :=
  match x with
  | VObject props =>
      match get props "type" with
      | VString _ => true
      | _ => false
      end
  | _ => false
  end.

(** [node.type] of a node. *)
Definition type_of (node : Value) : string :=
  match node with
  | VObject props =>
      match get props "type" with
      | VString s => s
      | _ => ""
      end
  | _ => ""
  end.

(** [node[key]] *)
Definition child_of (node : Value) (key : string) : Value :=
  match node with
  | VObject props => get props key
  | _ => VUndefined
  end.

(** The nesting depth of a value, which bounds the recursion of the
    walk. *)
Fixpoint depth (v : Value) : nat :=
  match v with
  | VArray elems => S (fold_right (fun e d => Nat.max (depth e) d) O elems)
  | VObject props =>
      S (fold_right (fun p d => Nat.max (depth (snd p)) d) O props)
  | _ => 1%nat
  end.

Record Control : Type := mkControl {
  calls_skip : bool;
  calls_break : bool
}.

Definition quiet : Control := {| calls_skip := false; calls_break := false |}.

Record Event : Type := mkEvent {
  ev_enter : bool;
  ev_node : Value;
  ev_parent : Value;
  ev_control : Control
}.

Section Traverser.

(** The caller's state and the package [eslint-visitor-keys]. *)
Variable U : Type.
Variable evk_KEYS : string -> option (list string).
Variable evk_getKeys : Value -> list string.

Definition Callback : Type := list Value -> Value -> Value -> U -> U * Control.

(** [noop] *)
Definition noop : Callback := fun _ _ _ u => (u, quiet).

(** The [options] of [traverse]; a key map gives the keys array found
    under a type name, [None] where the lookup is falsy. *)
Record Options : Type := mkOptions {
  opt_visitorKeys : option (string -> option (list string));
  opt_enter : option Callback;
  opt_leave : option Callback
}.

(** The private fields of a [Traverser], with the caller's state and
    the trace of callback calls. *)
Record State : Type := mkState {
  current : Value;
  parents : list Value;
  skipped : bool;
  broken : bool;
  visitorKeys : string -> option (list string);
  enter : Callback;
  leave : Callback;
  user : U;
  trace : list Event
}.

Definition set_current (v : Value) (st : State) : State :=
  mkState v (parents st) (skipped st) (broken st) (visitorKeys st)
    (enter st) (leave st) (user st) (trace st).
Definition set_parents (ps : list Value) (st : State) : State :=
  mkState (current st) ps (skipped st) (broken st) (visitorKeys st)
    (enter st) (leave st) (user st) (trace st).
Definition set_skipped (b : bool) (st : State) : State :=
  mkState (current st) (parents st) b (broken st) (visitorKeys st)
    (enter st) (leave st) (user st) (trace st).

(** A call of a callback: the caller's state moves, [skip()] and
    [break()] set their flags, and the call is traced. *)
Definition call (entering : bool) (cb : Callback) (node parent : Value)
    (st : State) : State :=
  let (u, ctl) := cb (parents st) node parent (user st) in
  mkState (current st) (parents st)
    (skipped st || calls_skip ctl) (broken st || calls_break ctl)
    (visitorKeys st) (enter st) (leave st) u
    (trace st ++ [mkEvent entering node parent ctl]).

(** [getVisitorKeys(visitorKeys, node)] *)
Definition getVisitorKeys (visitorKeys : string -> option (list string))
    (node : Value) : list string :=
  match visitorKeys (type_of node) with
  | Some keys => keys
  | None => evk_getKeys node
  end.

(** [for (i = 0; i < items.length && !this.#broken; ++i) body(items[i])] *)
Fixpoint for_unbroken {A : Type} (body : A -> State -> option State)
    (items : list A) (st : State) : option State :=
  match items with
  | [] => Some st
  | item :: rest =>
      if broken st then Some st
      else
        match body item st with
        | Some st' => for_unbroken body rest st'
        | None => None
        end
  end.

(** [#traverse(node, parent)]; [None] is "out of fuel". *)
Fixpoint traverseRec (fuel : nat) (node parent : Value) (st : State)
    : option State :=
  match fuel with
  | O => None
  | S fuel' =>
      if negb (isNode node) then Some st
      else
        let st := set_current node st in
        let st := set_skipped false st in
        let st := call true (enter st) node parent st in
        let descended :=
          if negb (skipped st) && negb (broken st) then
            let keys := getVisitorKeys (visitorKeys st) node in
            if (1 <=? length keys)%nat then
              let st := set_parents (parents st ++ [node]) st in
              match
                for_unbroken
                  (fun key st =>
                     match child_of node key with
                     | VArray child =>
                         for_unbroken
                           (fun elem st => traverseRec fuel' elem node st)
                           child st
                     | child => traverseRec fuel' child node st
                     end)
                  keys st
              with
              | Some st => Some (set_parents (removelast (parents st)) st)
              | None => None
              end
            else Some st
          else Some st in
        match descended with
        | Some st =>
            let st := if negb (broken st)
                      then call false (leave st) node parent st
                      else st in
            Some (set_current parent st)
        | None => None
        end
  end.

(** [traverse(node, options)] on a new [Traverser]: the fields are reset
    and the walk starts at the root, whose parent is [null]. *)
Definition traverse (fuel : nat) (node : Value) (options : Options) (u : U)
    : option State :=
  let st :=
    {| current := VNull;
       parents := [];
       skipped := false;
       broken := false;
       visitorKeys := default evk_KEYS (opt_visitorKeys options);
       enter := default noop (opt_enter options);
       leave := default noop (opt_leave options);
       user := u;
       trace := [] |} in
  traverseRec fuel node VNull st.

(** No event of the trace called [break()]. *)
Definition unbroken (evs : list Event) : Prop :=
  Forall (fun e => calls_break (ev_control e) = false) evs.

(** An event that called [break()] is the last one. *)
Definition break_is_last (evs : list Event) : Prop :=
  forall pre e post,
    evs = pre ++ e :: post -> calls_break (ev_control e) = true -> post = [].

(** What holds of a walker between two steps. *)
Definition consistent (st : State) : Prop :=
  if broken st then break_is_last (trace st) else unbroken (trace st).

End Traverser.

(** *** The shape of a trace

    [Nested parent evs b]: [evs] are the calls made while the children
    of [parent] are walked, one after the other, and [b] tells whether
    [break()] was called on the way.  A node is entered, its children are
    walked unless [skip()] was called, and it is left; a [break()] ends
    everything at once. *)
Inductive Nested (parent : Value) : list Event -> bool -> Prop :=
| Nested_nil : Nested parent [] false
| Nested_app (evs1 evs2 : list Event) (b : bool) :
    Nested parent evs1 false -> Nested parent evs2 b ->
    Nested parent (evs1 ++ evs2) b
| Nested_break (node : Value) (ctl : Control) :
    calls_break ctl = true ->
    Nested parent [mkEvent true node parent ctl] true
| Nested_skip (node : Value) (ctl ctl' : Control) :
    calls_break ctl = false -> calls_skip ctl = true ->
    Nested parent
      [mkEvent true node parent ctl; mkEvent false node parent ctl']
      (calls_break ctl')
| Nested_visit (node : Value) (ctl ctl' : Control) (inner : list Event) :
    calls_break ctl = false -> calls_skip ctl = false ->
    Nested node inner false ->
    Nested parent
      (mkEvent true node parent ctl :: inner ++ [mkEvent false node parent ctl'])
      (calls_break ctl')
| Nested_broken (node : Value) (ctl : Control) (inner : list Event) :
    calls_break ctl = false -> calls_skip ctl = false ->
    Nested node inner true ->
    Nested parent (mkEvent true node parent ctl :: inner) true.

(** The number of calls of [enter], or of [leave], in a trace. *)
Definition count_calls (entering : bool) (evs : list Event) : nat :=
  length (List.filter (fun e => Bool.eqb (ev_enter e) entering) evs).

(** A call of [enter] that asked to skip the children, and did not
    break, is followed at once by the call of [leave] for the same
    node. *)
Definition skips (e : Event) : bool :=
  ev_enter e && calls_skip (ev_control e) && negb (calls_break (ev_control e)).

Definition leaves_of (e l : Event) : Prop :=
  ev_enter l = false /\ ev_node l = ev_node e /\ ev_parent l = ev_parent e.

Fixpoint skip_followed (evs : list Event) : Prop :=
  match evs with
  | [] => True
  | e :: rest =>
      (skips e = true ->
       match rest with
       | l :: _ => leaves_of e l
       | [] => False
       end)
      /\ skip_followed rest
  end.
End Traverser.

(** ** Problems, errors and rules (linter.js, rules.js) *)
Module Lint.
Import JS.

(** [{ range: [start, end], text }] *)
Record Edit : Type := mkEdit {
  range_start : Z;
  range_end : Z;
  edit_text : string
}.

Record Suggestion : Type := mkSuggestion {
  desc : string;
  suggestion_fix : Edit
}.

(** A lint message; [fix_] is its [fix].  [fatal] is [true] where the property is set to
    [true] and [false] where the object has none; the optional members
    are [None] where the object has none. *)
Record Problem : Type := mkProblem {
  ruleId : option string;
  fatal : bool;
  severity : Value;
  message : string;
  line : Value;
  column : Value;
  endLine : Value;
  endColumn : Value;
  nodeType : Value;
  fix_ : option Edit;
  suggestions : option (list Suggestion)
}.

(** A thrown [Error], with the properties the linter adds on its way
    up. *)
Record Error : Type := mkError {
  err_name : string;
  err_message : string;
  err_ruleId : option string;
  err_currentNode : option Value
}.

Definition new_Error (msg : string) : Error :=
  mkError "Error" msg None None.
Definition new_TypeError (msg : string) : Error :=
  mkError "TypeError" msg None None.

(** A call returns or throws. *)
Inductive Result (A : Type) : Type :=
| Ok (a : A)
| Throw (e : Error).
Arguments Ok {A} a.
Arguments Throw {A} e.

Definition is_Throw {A : Type} (r : Result A) : bool :=
  match r with
  | Throw _ => true
  | Ok _ => false
  end.

Definition bindR {A B : Type} (r : Result A) (k : A -> Result B) : Result B :=
  match r with
  | Ok a => k a
  | Throw e => Throw e
  end.

(** [v.k] for a property no built-in prototype has: [undefined] on
    anything but an object with that property, and a [TypeError] on
    [undefined] and [null]. *)
Definition member (v : Value) (k : string) : Result Value :=
  match v with
  | VUndefined | VNull =>
      Throw (new_TypeError
               (String.append "Cannot read properties of undefined (reading '"
                  (String.append k "')")))
  | VObject props => Ok (get props k)
  | _ => Ok VUndefined
  end.

(** An optional member is there. *)
Definition has {A : Type} (o : option A) : bool :=
  match o with
  | Some _ => true
  | None => false
  end.

(** [v?.k] *)
Definition member_opt (v : Value) (k : string) : Value :=
  match v with
  | VObject props => get props k
  | _ => VUndefined
  end.

(** [DEFAULT_ERROR_LOC] *)
Record Position : Type := mkPosition { pos_line : Z; pos_column : Z }.
Record Loc : Type := mkLoc { loc_start : Position; loc_end : Position }.

Definition DEFAULT_ERROR_LOC : Loc :=
  {| loc_start := {| pos_line := 1; pos_column := 0 |};
     loc_end := {| pos_line := 1; pos_column := 1 |} |}.

(** The [options] of [createLintingProblem]; [None] is a property left
    out. *)
Record ProblemOptions : Type := mkProblemOptions {
  po_ruleId : option string;
  po_loc : option Loc;
  po_message : option string;
  po_severity : option Value
}.

Definition createLintingProblem (options : ProblemOptions) : Problem :=
  let ruleId := po_ruleId options in
  let loc := default DEFAULT_ERROR_LOC (po_loc options) in
  let message :=
    default
      (String.append "Definition for rule '"
         (String.append (default "undefined" (po_ruleId options))
            "' was not found."))
      (po_message options) in
  let severity := default (VNumber 2) (po_severity options) in
  {| ruleId := ruleId;
     fatal := false;
     severity := severity;
     message := message;
     line := VNumber (pos_line (loc_start loc));
     column := VNumber (pos_column (loc_start loc) + 1);
     endLine := VNumber (pos_line (loc_end loc));
     endColumn := VNumber (pos_column (loc_end loc) + 1);
     nodeType := VNull;
     fix_ := None;
     suggestions := None |}.

(** *** What a rule does

    A rule is a [create] function and a [meta] value.  What [create] and
    the listeners it returns do to the linter is call [context.report]
    and throw; they are the scripts of those actions, run against the
    [report] of the rule's own context.  A script ends at the first
    action that throws: a rule that catches what [report] throws is
    outside this model.  [D] is the type of the descriptors handed to
    [report], [Arg] that of the arguments a listener is called with. *)
Section Rules.

Variable D Arg : Type.

Inductive Action : Type :=
| Report (descriptor : D)
| Raise (e : Error).

Definition Listener : Type := Arg -> list Action.

(** The members of a rule context a rule can tell apart. *)
Record RuleContext : Type := mkRuleContext {
  id : string;
  options : list Value;
  parserPath : string;
  settings : Value;
  filename : string;
  physicalFilename : string
}.

Record Rule : Type := mkRule {
  create : RuleContext -> list Action * list (string * Listener);
  meta : Value
}.

(** rules.js: a rule module is a function or an object with [create]. *)
Inductive RuleModule : Type :=
| OldStyle (f : RuleContext -> list Action * list (string * Listener))
    (meta : Value)
| NewStyle (rule : Rule).

(** [normalizeRule]: [Object.assign({ create: rule }, rule)] for a
    function, whose own [meta] property, if any, is copied. *)
Definition normalizeRule (rule : RuleModule) : Rule :=
  match rule with
  | OldStyle f m => {| create := f; meta := m |}
  | NewStyle r => r
  end.

(** [Rules#define] and [Rules#get] over the private [#rules]. *)
Definition Rules_define (rules : gmap string Rule) (ruleId : string)
    (ruleModule : RuleModule) : gmap string Rule :=
  <[ruleId := normalizeRule ruleModule]> rules.

Definition Rules_get (rules : gmap string Rule) (ruleId : string)
    : option Rule :=
  rules !! ruleId.

End Rules.

Arguments Report {D} descriptor.
Arguments Raise {D} e.
Arguments create {D Arg} r.
Arguments meta {D Arg} r.
Arguments mkRule {D Arg} create meta.

End Lint.

(** ** The rule dispatcher (linter.js, [runRules]) *)
Module Dispatch.
Import JS Lint.

Section Dispatch.

Variable D Arg : Type.

Local Abbreviation Action := (Action D).
Local Abbreviation Listener := (Listener D Arg).
Local Abbreviation Rule := (Rule D Arg).

(** A parsed unit.  The scope manager is opaque: rules are told apart by
    what they report, not by how they decide it. *)
Variable ScopeManager : Type.

Record SourceCode : Type := mkSourceCode {
  text : string;
  ast : Value;
  visitorKeys : option (string -> option (list string));
  scopeManager : option ScopeManager
}.

(** report-translator.js is not among the sources: the translator is a
    parameter, made from the metadata [report] hands it. *)
Record TranslatorMetadata : Type := mkTranslatorMetadata {
  tm_ruleId : string;
  tm_severity : Value;
  tm_sourceCode : SourceCode;
  tm_messageIds : Value;
  tm_disableFixes : bool
}.

Variable createReportTranslator : TranslatorMetadata -> D -> Problem.

(** What can be observed of a run: the calls of rule factories, of
    listeners and of [report]. *)
Inductive LogEvent : Type :=
| LCreate (ruleId : string)
| LListener (ruleId selector : string) (arg : Arg)
| LReport (ruleId : string) (meta : Value) (problem : Problem).

Definition log_ruleId (e : LogEvent) : string :=
  match e with
  | LCreate r | LListener r _ _ | LReport r _ _ => r
  end.

(** The array [lintingProblems] and the log. *)
Record Store : Type := mkStore {
  lintingProblems : list Problem;
  log : list LogEvent
}.

(** A computation over the store that returns or throws; what was
    written before a throw stays written. *)
Definition M (A : Type) : Type := Store -> Result A * Store.

Definition ret {A : Type} (a : A) : M A := fun st => (Ok a, st).

Definition throw {A : Type} (e : Error) : M A := fun st => (Throw e, st).

Definition bind {A B : Type} (m : M A) (k : A -> M B) : M B :=
  fun st =>
    match m st with
    | (Ok a, st') => k a st'
    | (Throw e, st') => (Throw e, st')
    end.

(** [try { m } catch (e) { h(e) }] *)
Definition catch {A : Type} (m : M A) (h : Error -> M A) : M A :=
  fun st =>
    match m st with
    | (Ok a, st') => (Ok a, st')
    | (Throw e, st') => h e st'
    end.

Definition push (problem : Problem) : M unit :=
  fun st => (Ok tt, mkStore (lintingProblems st ++ [problem]) (log st)).

Definition trace (e : LogEvent) : M unit :=
  fun st => (Ok tt, mkStore (lintingProblems st) (log st ++ [e])).

Notation "x <- m ;; k" := (bind m (fun x => k))
  (at level 100, m at next level, right associativity).
Notation "m ;; k" := (bind m (fun _ => k))
  (at level 100, right associativity).

(** [items.forEach(body)] *)
Fixpoint forEach {A : Type} (body : A -> M unit) (items : list A) : M unit :=
  match items with
  | [] => ret tt
  | item :: rest => body item ;; forEach body rest
  end.

(** The [report] method of a rule context.  The translator is made on
    the first call and kept, which no caller can tell from making it on
    every call. *)
Definition report (ruleId : string) (severity : Value) (rule : Rule)
    (sourceCode : SourceCode) (messageIds : Value) (disableFixes : bool)
    (descriptor : D) : M unit :=
  let reportTranslator :=
    createReportTranslator
      {| tm_ruleId := ruleId;
         tm_severity := severity;
         tm_sourceCode := sourceCode;
         tm_messageIds := messageIds;
         tm_disableFixes := disableFixes |} in
  let problem := reportTranslator descriptor in
  trace (LReport ruleId (meta rule) problem) ;;
  if has (fix_ problem)
     && negb (truthy (member_opt (meta rule) "fixable"))
  then
    throw (new_Error
             (String.append
                "Fixable rules must set the `meta.fixable` property to "
                (String.append (quoted "code")
                   (String.append " or "
                      (String.append (quoted "whitespace") ".")))))
  else if has (suggestions problem)
          && negb (truthy (meta rule)
                   && is_true (member_opt (meta rule) "hasSuggestions"))
  then
    if truthy (meta rule)
       && truthy (member_opt (meta rule) "docs")
       && is_defined
            (member_opt (member_opt (meta rule) "docs") "suggestion")
    then
      throw (new_Error "Rules with suggestions must set the `meta.hasSuggestions` property to `true`. `meta.docs.suggestion` is ignored by ESLint.")
    else
      throw (new_Error "Rules with suggestions must set the `meta.hasSuggestions` property to `true`.")
  else push problem.

(** Running the script of a [create] function or of a listener against
    the [report] of its context. *)
Fixpoint run (report : D -> M unit) (actions : list Action) : M unit :=
  match actions with
  | [] => ret tt
  | Report descriptor :: rest => report descriptor ;; run report rest
  | Raise e :: _ => throw e
  end.

(** [createRuleListeners] *)
Definition createRuleListeners (rule : Rule) (ruleContext : RuleContext)
    (report : D -> M unit) : M (list (string * Listener)) :=
  trace (LCreate (id ruleContext)) ;;
  let (actions, listeners) := create rule ruleContext in
  catch (run report actions ;; ret listeners)
    (fun ex =>
       throw (mkError (err_name ex)
                (String.append "Error while loading rule '"
                   (String.append (id ruleContext)
                      (String.append "': " (err_message ex))))
                (err_ruleId ex) (err_currentNode ex))).

(** A listener as the emitter holds it: wrapped by
    [addRuleErrorHandler], which stamps the rule on what it throws. *)
Record Handler : Type := mkHandler {
  h_selector : string;
  h_ruleId : string;
  h_listener : Arg -> M unit
}.

Definition addRuleErrorHandler (ruleId selector : string)
    (report : D -> M unit) (ruleListener : Listener) : Arg -> M unit :=
  fun arg =>
    catch (trace (LListener ruleId selector arg) ;;
           run report (ruleListener arg))
      (fun e =>
         throw (mkError (err_name e) (err_message e) (Some ruleId)
                  (err_currentNode e))).

(** The body of [Object.keys(configuredRules).forEach(...)]: one
    configured rule, given the emitter so far. *)
Definition configureRule (sourceCode : SourceCode)
    (ruleMapper : string -> option Rule) (parserName : string)
    (settings : Value) (filename : string) (disableFixes : bool)
    (physicalFilename : option string)
    (emitter : list Handler) (entry : string * Value)
    : M (list Handler) :=
  let (ruleId, ruleConfig) := entry in
  let severity := Severity.getRuleSeverity ruleConfig in
  if is_number 0 severity then ret emitter
  else
    match ruleMapper ruleId with
    | None =>
        push (createLintingProblem
                {| po_ruleId := Some ruleId; po_loc := None;
                   po_message := None; po_severity := None |}) ;;
        ret emitter
    | Some rule =>
        let messageIds := member_opt (meta rule) "messages" in
        let report :=
          report ruleId severity rule sourceCode messageIds disableFixes in
        let ruleContext :=
          {| id := ruleId;
             options := Severity.getRuleOptions ruleConfig;
             parserPath := parserName;
             settings := settings;
             filename := filename;
             physicalFilename := default filename physicalFilename |} in
        ruleListeners <- createRuleListeners rule ruleContext report ;;
        ret (emitter ++
             map (fun sl : string * Listener =>
                    {| h_selector := fst sl;
                       h_ruleId := ruleId;
                       h_listener :=
                         addRuleErrorHandler ruleId (fst sl) report (snd sl) |})
                 ruleListeners)
    end.

Fixpoint configureRules (body : list Handler -> string * Value -> M (list Handler))
    (emitter : list Handler) (configuredRules : list (string * Value))
    : M (list Handler) :=
  match configuredRules with
  | [] => ret emitter
  | entry :: rest =>
      emitter' <- body emitter entry ;;
      configureRules body emitter' rest
  end.

(** *** The node queue *)
Variable evk_KEYS : string -> option (list string).
Variable evk_getKeys : Value -> list string.

Record TraversalInfo : Type := mkTraversalInfo {
  isEntering : bool;
  node : Value
}.

(** [Traverser.traverse(sourceCode.ast, { enter, leave, visitorKeys })]
    with the two callbacks of [runRules], which fill [nodeQueue]; the
    [parent] they write on each node is not modelled.  The fuel is the
    depth of the tree, which is enough. *)
Definition nodeQueue_of (sourceCode : SourceCode) : list TraversalInfo :=
  let options :=
    {| Traverser.opt_visitorKeys := visitorKeys sourceCode;
       Traverser.opt_enter :=
         Some (fun _ node parent nodeQueue =>
                 (nodeQueue ++ [mkTraversalInfo true node], Traverser.quiet));
       Traverser.opt_leave :=
         Some (fun _ node parent nodeQueue =>
                 (nodeQueue ++ [mkTraversalInfo false node], Traverser.quiet)) |} in
  match
    Traverser.traverse _ evk_KEYS evk_getKeys
      (Traverser.depth (ast sourceCode)) (ast sourceCode) options []
  with
  | Some st => Traverser.user _ st
  | None => []
  end.

(** *** The emitter and the event generator

    safe-emitter.js, node-event-generator.js and code-path-analyzer.js
    are not among the sources.  Listeners are registered under selector
    keys; the event generator, with or without the code path analyzer
    around it, is "an event-stream transformer with the same
    enter(node)/leave(node) contract": a parameter that names, for each
    node entered or left, the keys to emit and the argument to emit them
    with. *)
Variable Generator : Type.
Variable newGenerator : bool -> list string -> SourceCode -> Generator.
Variable enterNode leaveNode : Generator -> Value -> Generator * list (string * Arg).

(** Modelled from the spec: safe-emitter.js is not among the sources;
    [emitter.emit(eventName, arg)] calls the listeners registered under
    that key, in the order of their registration, and lets what they
    throw through. *)
Definition emit (emitter : list Handler) (eventName : string) (arg : Arg)
    : M unit :=
  forEach (fun h => h_listener h arg)
    (List.filter (fun h => String.eqb (h_selector h) eventName) emitter).

(** [nodeQueue.forEach(traversalInfo => ...)] *)
Fixpoint dispatch (emitter : list Handler) (eventGenerator : Generator)
    (nodeQueue : list TraversalInfo) : M unit :=
  match nodeQueue with
  | [] => ret tt
  | traversalInfo :: rest =>
      let currentNode := node traversalInfo in
      let (eventGenerator', emitted) :=
        if isEntering traversalInfo
        then enterNode eventGenerator currentNode
        else leaveNode eventGenerator currentNode in
      catch (forEach (fun ev => emit emitter (fst ev) (snd ev)) emitted)
        (fun err =>
           throw (mkError (err_name err) (err_message err) (err_ruleId err)
                    (Some currentNode))) ;;
      dispatch emitter eventGenerator' rest
  end.

(** [runRules].  The language options and the scope accessors of the
    shared context are opaque to this model and left out. *)
Definition runRules (sourceCode : SourceCode)
    (configuredRules : list (string * Value))
    (ruleMapper : string -> option Rule) (parserName : string)
    (settings : Value) (filename : string) (disableFixes : bool)
    (physicalFilename : option string) : M (list Problem) :=
  let nodeQueue := nodeQueue_of sourceCode in
  emitter <-
    configureRules
      (configureRule sourceCode ruleMapper parserName settings filename
         disableFixes physicalFilename)
      [] configuredRules ;;
  match nodeQueue with
  | [] =>
      throw (new_TypeError
               "Cannot read properties of undefined (reading 'node')")
  | first :: _ =>
      let eventGenerator :=
        newGenerator (String.eqb (Traverser.type_of (node first)) "Program")
          (map h_selector emitter) sourceCode in
      dispatch emitter eventGenerator nodeQueue ;;
      fun st => (Ok (lintingProblems st), st)
  end.

(** *** Reading a run *)

(** [m] keeps an invariant of the store, whether it returns or
    throws. *)
Definition preserves {A : Type} (Inv : Store -> Prop) (m : M A) : Prop :=
  forall st, Inv st -> Inv (snd (m st)).

(** A reported problem the rule's [meta] does not allow: an edit
    without a truthy [meta.fixable], or suggestions without
    [meta.hasSuggestions === true]. *)
Definition violates (meta : Value) (problem : Problem) : bool :=
  has (fix_ problem) && negb (truthy (member_opt meta "fixable"))
  || has (suggestions problem)
     && negb (truthy meta && is_true (member_opt meta "hasSuggestions")).

(** No call of [report] in the log was a violation. *)
Definition clean (events : list LogEvent) : Prop :=
  forall ruleId meta problem,
    In (LReport ruleId meta problem) events -> violates meta problem = false.

(** From a clean store, [m] throws or leaves a clean store. *)
Definition safe {A : Type} (m : M A) : Prop :=
  forall st, clean (log st) ->
    match m st with
    | (Ok _, st') => clean (log st')
    | (Throw _, _) => True
    end.

(** Every call of a registered listener keeps an invariant, or is
    safe. *)
Definition handler_preserves (Inv : Store -> Prop) (h : Handler) : Prop :=
  forall arg, preserves Inv (h_listener h arg).

Definition handler_safe (h : Handler) : Prop :=
  forall arg, safe (h_listener h arg).

(** The missing-rule problem of [runRules]. *)
Definition missing_rule (ruleId : string) : Problem :=
  {| ruleId := Some ruleId;
     fatal := false;
     severity := VNumber 2;
     message :=
       String.append "Definition for rule '"
         (String.append ruleId "' was not found.");
     line := VNumber 1;
     column := VNumber 1;
     endLine := VNumber 1;
     endColumn := VNumber 2;
     nodeType := VNull;
     fix_ := None;
     suggestions := None |}.

(** A configured rule is switched off. *)
Definition disabled (entry : string * Value) : bool :=
  is_number 0 (Severity.getRuleSeverity (snd entry)).

End Dispatch.
End Dispatch.

(** ** The [Linter] class (linter.js) *)
Module Linter.
Import JS Lint Dispatch.

Definition MAX_AUTOFIX_PASSES : nat := 10.
Definition DEFAULT_PARSER_NAME : string := "espree".

(** The line feed of a template literal. *)
Definition LF : string := String (ascii_of_nat 10) "".

(** [options.fix] when it is neither [undefined] nor [null]. *)
Inductive ShouldFix : Type :=
| FixBool (b : bool)
| FixPredicate (predicate : Problem -> bool)
| FixValue (v : Value).

(** The options of [verifyAndFix]; [None] is a property left out or
    [undefined]. *)
Record VerifyOptions : Type := mkVerifyOptions {
  allowInlineConfig : Value;
  disableFixes : Value;
  opt_filename : option string;
  opt_reportUnusedDisableDirectives : Value;
  opt_physicalFilename : option string;
  opt_fix : option ShouldFix
}.

(** What [normalizeVerifyOptions] returns. *)
Record NormalizedOptions : Type := mkNormalizedOptions {
  n_filename : string;
  n_allowInlineConfig : bool;
  n_warnInlineConfig : option string;
  n_reportUnusedDisableDirectives : string;
  n_disableFixes : bool
}.

(** [{ fixed, messages, output }] *)
Record FixResult : Type := mkFixResult {
  fixed : bool;
  messages : list Problem;
  output : string
}.

(** One pass of the autofix loop as it can be observed: the text
    verified, the problems found and what the patcher returned. *)
Record Pass : Type := mkPass {
  pass_text : string;
  pass_messages : list Problem;
  pass_patch : FixResult
}.

(** [messages.length === 1 && messages[0].fatal] *)
Definition lone_fatal (messages : list Problem) : bool :=
  match messages with
  | [m] => fatal m
  | _ => false
  end.

Definition stopped (p : Pass) : bool := lone_fatal (pass_messages p).

(** What [verifyAndFix] returns, with the passes it made and whether it
    verified once more after the loop. *)
Record Outcome : Type := mkOutcome {
  result : FixResult;
  passes : list Pass;
  reverified : bool
}.

(** [filename.split('/')] *)
Fixpoint split_slash (s : string) (part : string) : list string :=
  match s with
  | EmptyString => [part]
  | String c rest =>
      if Ascii.eqb c "/"%char then part :: split_slash rest ""
      else split_slash rest (String.append part (String c ""))
  end.

(** [parts.slice(parts.lastIndexOf("<text>"))], if there is one. *)
Fixpoint from_last_text (parts : list string) : option (list string) :=
  match parts with
  | [] => None
  | part :: rest =>
      match from_last_text rest with
      | Some found => Some found
      | None => if String.eqb part "<text>" then Some parts else None
      end
  end.

Definition normalizeFilename (filename : string) : string :=
  match from_last_text (split_slash filename "") with
  | None => filename
  | Some parts => String.concat "/" parts
  end.

Section Linter.

Variable D Arg ScopeManager : Type.

Local Abbreviation Rule := (Rule D Arg).
Local Abbreviation SourceCode := (SourceCode ScopeManager).
Local Abbreviation LogEvent := (LogEvent Arg).

(** *** Collaborators that are not among the sources

    The report translator, the visitor keys, the event generator, the
    default parser with the helpers of [parse], the scope analyser, the
    directive resolver and the text patcher. *)
Variable createReportTranslator :
  TranslatorMetadata ScopeManager -> D -> Problem.
Variable evk_KEYS : string -> option (list string).
Variable evk_getKeys : Value -> list string.
Variable Generator : Type.
Variable newGenerator : bool -> list string -> SourceCode -> Generator.
Variable enterNode leaveNode :
  Generator -> Value -> Generator * list (string * Arg).

(** A parser returns a tree, with its visitor keys and scope manager if
    it has them, or throws. *)
Record ParserOptions : Type := mkParserOptions {
  ecmaVersion : Value;
  sourceType : Value;
  provided : Value;
  filePath : string
}.

Inductive ParseOutcome : Type :=
| Parsed (ast : Value)
    (visitorKeys : option (string -> option (list string)))
    (scopeManager : option ScopeManager)
| ParseThrows (message : string) (lineNumber column : Value).

Definition Parser : Type := string -> ParserOptions -> ParseOutcome.

Variable espree : Parser.
Variable espree_latestEcmaVersion : Z.
Variable replaceShebang : string -> string.
Variable stripLineNumber : string -> string.
Variable resolveParserOptions : Value -> Value.
Variable analyzeScope : Value -> ScopeManager.
Variable lineOf : Value -> string.

(** [applyDisableDirectives({ directives, disableFixes, problems,
    reportUnusedDisableDirectives })] *)
Record DisableDirective : Type := mkDisableDirective {
  dd_type : string;
  dd_line : Z;
  dd_column : Z;
  dd_ruleId : option string
}.

Variable applyDisableDirectives :
  list DisableDirective -> bool -> list Problem -> string -> list Problem.

(** [SourceCodeFixer.applyFixes(sourceText, messages, shouldFix)] *)
Variable applyFixes : string -> list Problem -> ShouldFix -> FixResult.

(** *** Configuration *)
Inductive ParserSetting : Type :=
| ParserObject (filePath : string) (definition : Parser)
| ParserName (name : string)
| ParserOther.

Record ConfigData : Type := mkConfigData {
  linterOptions : Value;
  noInlineConfig : Value;
  reportUnusedDisableDirectives : Value;
  configNameOfNoInlineConfig : string;
  parser : ParserSetting;
  env : Value;
  parserOptions : Value;
  globals : Value;
  cfg_settings : Value;
  rules : Value
}.

(** [{}] *)
Definition empty_config : ConfigData :=
  {| linterOptions := VUndefined; noInlineConfig := VUndefined;
     reportUnusedDisableDirectives := VUndefined;
     configNameOfNoInlineConfig := ""; parser := ParserOther;
     env := VUndefined; parserOptions := VUndefined; globals := VUndefined;
     cfg_settings := VUndefined; rules := VUndefined |}.

(** The private slots of a linter that a verification reads; the last
    source code and the last config are written for [getSourceCode] and
    [getRules] and read by no verification of a text. *)
Record Slots : Type := mkSlots {
  parserMap : gmap string Parser;
  ruleMap : gmap string Rule
}.

(** [new Linter()] *)
Definition new_Linter : Slots :=
  {| parserMap := {[ "espree" := espree ]}; ruleMap := ∅ |}.

Definition defineRule (this : Slots) (ruleId : string)
    (ruleModule : RuleModule D Arg) : Slots :=
  {| parserMap := parserMap this;
     ruleMap := Rules_define D Arg (ruleMap this) ruleId ruleModule |}.

Definition defineParser (this : Slots) (parserId : string)
    (parserModule : Parser) : Slots :=
  {| parserMap := <[parserId := parserModule]> (parserMap this);
     ruleMap := ruleMap this |}.

(** [normalizeVerifyOptions(providedOptions, config)]: the first read of
    a property of [providedOptions] throws when there is no such
    object. *)
Definition normalizeVerifyOptions (providedOptions : option VerifyOptions)
    (config : ConfigData) : Result NormalizedOptions :=
  let linterOptions_noInlineConfig :=
    if truthy (linterOptions config)
    then member_opt (linterOptions config) "noInlineConfig"
    else noInlineConfig config in
  let linterOptions_reportUnused :=
    if truthy (linterOptions config)
    then member_opt (linterOptions config) "reportUnusedDisableDirectives"
    else reportUnusedDisableDirectives config in
  let disableInlineConfig := is_true linterOptions_noInlineConfig in
  match providedOptions with
  | None =>
      Throw (new_TypeError
               "Cannot read properties of undefined (reading 'allowInlineConfig')")
  | Some providedOptions =>
      let ignoreInlineConfig :=
        match allowInlineConfig providedOptions with
        | VBool false => true
        | _ => false
        end in
      let nameOfNoInlineConfig :=
        if String.eqb (configNameOfNoInlineConfig config) "" then ""
        else String.append " ("
               (String.append (configNameOfNoInlineConfig config) ")") in
      let reportUnused :=
        match opt_reportUnusedDisableDirectives providedOptions with
        | VBool true => "error"
        | VBool false => "off"
        | VString s => s
        | _ => if truthy linterOptions_reportUnused then "warn" else "off"
        end in
      Ok {| n_filename :=
              normalizeFilename
                (match opt_filename providedOptions with
                 | Some f => if String.eqb f "" then "<input>" else f
                 | None => "<input>"
                 end);
            n_allowInlineConfig := negb ignoreInlineConfig;
            n_warnInlineConfig :=
              if disableInlineConfig && negb ignoreInlineConfig
              then Some (String.append "your config" nameOfNoInlineConfig)
              else None;
            n_reportUnusedDisableDirectives := reportUnused;
            n_disableFixes := truthy (disableFixes providedOptions) |}
  end.

(** [normalizeEcmaVersionForLanguageOptions] *)
Definition normalizeEcmaVersionForLanguageOptions (ecmaVersion : Value)
    : Value :=
  match ecmaVersion with
  | VNumber 3 => VNumber 3
  | VNumber 5 | VUndefined => VNumber 5
  | VNumber v => VNumber (if 2015 <=? v then v else v + 2009)
  | _ => VNumber (espree_latestEcmaVersion + 2009)
  end.

Record LanguageOptions : Type := mkLanguageOptions {
  lo_globals : Value;
  lo_ecmaVersion : Value;
  lo_sourceType : Value;
  lo_parser : Parser;
  lo_parserOptions : Value
}.

(** [createLanguageOptions] *)
Definition createLanguageOptions (configuredGlobals : Value)
    (parser : Parser) (parserOptions : Value) : LanguageOptions :=
  {| lo_globals := configuredGlobals;
     lo_ecmaVersion :=
       normalizeEcmaVersionForLanguageOptions
         (member_opt parserOptions "ecmaVersion");
     lo_sourceType := member_opt parserOptions "sourceType";
     lo_parser := parser;
     lo_parserOptions := parserOptions |}.

(** [parse(text, languageOptions, filePath)]: what the parser throws
    becomes the one fatal problem of the pass. *)
Definition parse (text : string) (languageOptions : LanguageOptions)
    (filePath : string) : Problem + SourceCode :=
  let textToParse := replaceShebang text in
  let parserOptions :=
    {| ecmaVersion := lo_ecmaVersion languageOptions;
       sourceType := lo_sourceType languageOptions;
       provided := lo_parserOptions languageOptions;
       filePath := filePath |} in
  match lo_parser languageOptions textToParse parserOptions with
  | Parsed ast visitorKeys scopeManager =>
      inr {| text := text;
             ast := ast;
             visitorKeys := Some (default evk_KEYS visitorKeys);
             scopeManager :=
               Some (default (analyzeScope ast) scopeManager) |}
  | ParseThrows ex_message ex_lineNumber ex_column =>
      inl {| ruleId := None;
             fatal := true;
             severity := VNumber 2;
             message :=
               String.append "Parsing error: " (stripLineNumber ex_message);
             line := ex_lineNumber;
             column := ex_column;
             endLine := VUndefined;
             endColumn := VUndefined;
             nodeType := VUndefined;
             fix_ := None;
             suggestions := None |}
  end.

(** The own enumerable properties [Object.assign] copies from a
    value. *)
Fixpoint indexed {A : Type} (i : nat) (items : list A) : list (string * A) :=
  match items with
  | [] => []
  | x :: rest => (pretty i, x) :: indexed (S i) rest
  end.

Definition own_props (v : Value) : list (string * Value) :=
  match v with
  | VObject props => props
  | VArray elems => indexed 0 elems
  | VString s =>
      indexed 0 (map (fun c => VString (String c "")) (list_ascii_of_string s))
  | _ => []
  end.

(** [problemA.line - problemB.line || problemA.column - problemB.column];
    a difference that is not a number counts as zero. *)
Definition difference (a b : Value) : Z :=
  match a, b with
  | VNumber x, VNumber y => x - y
  | _, _ => 0
  end.

Definition compare_problems (problemA problemB : Problem) : Z :=
  let d := difference (line problemA) (line problemB) in
  if d =? 0 then difference (column problemA) (column problemB) else d.

(** [Array.prototype.sort], which is stable. *)
Fixpoint insert_sorted (x : Problem) (sorted : list Problem) : list Problem :=
  match sorted with
  | [] => [x]
  | y :: rest =>
      if compare_problems x y <=? 0 then x :: sorted
      else y :: insert_sorted x rest
  end.

Definition sort_problems (problems : list Problem) : list Problem :=
  fold_right insert_sorted [] problems.

(** [#verifyWithoutProcessors].  No environment is ever found
    ([getEnv] returns [null]), so the environments contribute nothing,
    and no directive comment is read: the comment directives are
    empty. *)
Definition verifyWithoutProcessors (slots : Slots)
    (textOrSourceCode : string + SourceCode)
    (providedConfig : option ConfigData)
    (providedOptions : option VerifyOptions)
    : Result (list Problem) * list LogEvent :=
  let config := default empty_config providedConfig in
  match normalizeVerifyOptions providedOptions config with
  | Throw e => (Throw e, [])
  | Ok options =>
      let lastSourceCode :=
        match textOrSourceCode with
        | inl _ => None
        | inr sourceCode => Some sourceCode
        end in
      let text :=
        match textOrSourceCode with
        | inl text => text
        | inr sourceCode => Dispatch.text _ sourceCode
        end in
      let resolved : Problem + string * Parser :=
        match parser config with
        | ParserObject filePath definition => inr (filePath, definition)
        | ParserName name =>
            match parserMap slots !! name with
            | None =>
                inl {| ruleId := None;
                       fatal := true;
                       severity := VNumber 2;
                       message :=
                         String.append "Configured parser '"
                           (String.append name "' was not found.");
                       line := VNumber 0;
                       column := VNumber 0;
                       endLine := VUndefined;
                       endColumn := VUndefined;
                       nodeType := VUndefined;
                       fix_ := None;
                       suggestions := None |}
            | Some parser => inr (name, parser)
            end
        | ParserOther => inr (DEFAULT_PARSER_NAME, espree)
        end in
      match resolved with
      | inl problem => (Ok [problem], [])
      | inr (parserName, parser) =>
          let parserOptions :=
            resolveParserOptions (or (parserOptions config) (VObject [])) in
          let settings := or (cfg_settings config) (VObject []) in
          let languageOptions :=
            createLanguageOptions (globals config) parser parserOptions in
          let parsed : Problem + SourceCode :=
            match lastSourceCode with
            | None => parse text languageOptions (n_filename options)
            | Some sourceCode =>
                match scopeManager _ sourceCode with
                | Some _ => inr sourceCode
                | None =>
                    inr {| text := Dispatch.text _ sourceCode;
                           ast := ast _ sourceCode;
                           visitorKeys := visitorKeys _ sourceCode;
                           scopeManager :=
                             Some (analyzeScope (ast _ sourceCode)) |}
                end
            end in
          match parsed with
          | inl error => (Ok [error], [])
          | inr sourceCode =>
              let configuredRules := own_props (rules config) in
              match
                runRules D Arg ScopeManager createReportTranslator
                  evk_KEYS evk_getKeys Generator newGenerator
                  enterNode leaveNode
                  sourceCode configuredRules
                  (fun ruleId => Rules_get D Arg (ruleMap slots) ruleId)
                  parserName settings (n_filename options)
                  (n_disableFixes options)
                  (match providedOptions with
                   | Some o => opt_physicalFilename o
                   | None => None
                   end)
                  {| lintingProblems := []; log := [] |}
              with
              | (Ok lintingProblems, st) =>
                  (Ok (applyDisableDirectives [] (n_disableFixes options)
                         (sort_problems (lintingProblems ++ []))
                         (n_reportUnusedDisableDirectives options)),
                   log _ st)
              | (Throw err, st) =>
                  let message :=
                    String.append (err_message err)
                      (String.append LF
                         (String.append "Occurred while linting "
                            (n_filename options))) in
                  let message :=
                    match err_currentNode err with
                    | Some currentNode =>
                        String.append message
                          (String.append ":" (lineOf currentNode))
                    | None => message
                    end in
                  let message :=
                    match err_ruleId err with
                    | Some ruleId =>
                        String.append message
                          (String.append LF
                             (String.append "Rule: " (quoted ruleId)))
                    | None => message
                    end in
                  (Throw (mkError (err_name err) message (err_ruleId err)
                            (err_currentNode err)),
                   log _ st)
              end
          end
      end
  end.

(** [#verifyWithConfigArray]: the config handed to
    [#verifyWithoutProcessors] is made of four members of the config
    array and of constants; reading a member of [undefined] throws. *)
Definition verifyWithConfigArray (slots : Slots)
    (textOrSourceCode : string + SourceCode) (configArray : Value)
    (options : option VerifyOptions)
    : Result (list Problem) * list LogEvent :=
  let wanted :=
    bindR (member configArray "env") (fun conf_env =>
    bindR (member configArray "baseConfig") (fun baseConfig =>
    bindR (member baseConfig "parserOptions") (fun parserOptions =>
    bindR (member baseConfig "rules") (fun rules =>
    bindR (member configArray "settings") (fun settings =>
    Ok {| linterOptions := VUndefined;
          noInlineConfig := VUndefined;
          reportUnusedDisableDirectives := VUndefined;
          configNameOfNoInlineConfig := "";
          parser := ParserOther;
          env := conf_env;
          parserOptions := parserOptions;
          globals := VObject [];
          cfg_settings := settings;
          rules := rules |}))))) in
  match wanted with
  | Throw e => (Throw e, [])
  | Ok wanted =>
      verifyWithoutProcessors slots textOrSourceCode (Some wanted) options
  end.

(** *** [verifyAndFix] *)

(** The variables of [verifyAndFix] when the loop is left. *)
Record LoopExit : Type := mkLoopExit {
  x_fixedResult : FixResult;
  x_fixed : bool;
  x_passNumber : nat;
  x_currentText : string;
  x_passes : list Pass
}.

(** [do { ... } while (fixedResult.fixed && passNumber <
    MAX_AUTOFIX_PASSES)], given the verification of a text.  The fuel
    bounds the number of rounds; the outer [None] is "out of fuel". *)
Fixpoint autofixLoop (verify : string -> Result (list Problem))
    (shouldFix : ShouldFix) (fuel : nat)
    (fixed : bool) (passNumber : nat) (currentText : string)
    (passes : list Pass) : option (Result LoopExit) :=
  match fuel with
  | O => None
  | S fuel' =>
      let passNumber := S passNumber in
      match verify currentText with
      | Throw e => Some (Throw e)
      | Ok messages =>
          let fixedResult := applyFixes currentText messages shouldFix in
          let passes :=
            passes ++ [mkPass currentText messages fixedResult] in
          if lone_fatal messages then
            Some (Ok (mkLoopExit fixedResult fixed passNumber currentText
                        passes))
          else
            let fixed := fixed || Linter.fixed fixedResult in
            let currentText := output fixedResult in
            if Linter.fixed fixedResult
               && (passNumber <? MAX_AUTOFIX_PASSES)%nat
            then
              autofixLoop verify shouldFix fuel' fixed passNumber
                currentText passes
            else
              Some (Ok (mkLoopExit fixedResult fixed passNumber currentText
                          passes))
      end
  end.

(** The body of [verifyAndFix] over the verification of a text. *)
Definition verifyAndFixWith (verify : string -> Result (list Problem))
    (shouldFix : ShouldFix) (text : string) : option (Result Outcome) :=
  match
    autofixLoop verify shouldFix MAX_AUTOFIX_PASSES false 0%nat text []
  with
  | None => None
  | Some (Throw e) => Some (Throw e)
  | Some (Ok x) =>
      if Linter.fixed (x_fixedResult x) then
        match verify (x_currentText x) with
        | Throw e => Some (Throw e)
        | Ok messages =>
            Some (Ok {| result :=
                          {| fixed := x_fixed x;
                             messages := messages;
                             output := x_currentText x |};
                        passes := x_passes x;
                        reverified := true |})
        end
      else
        Some (Ok {| result :=
                      {| fixed := x_fixed x;
                         messages := messages (x_fixedResult x);
                         output := x_currentText x |};
                    passes := x_passes x;
                    reverified := false |})
  end.

(** The passes of a loop that starts on [text] follow one another:
    each verifies the text the one before it left, hands what it found
    to the patcher, and is followed by another only if it did not stop
    on a fatal problem and its patch round reported a fix. *)
Fixpoint chain (verify : string -> Result (list Problem))
    (shouldFix : ShouldFix) (text : string) (ps : list Pass) : Prop :=
  match ps with
  | [] => True
  | p :: rest =>
      pass_text p = text
      /\ verify text = Ok (pass_messages p)
      /\ pass_patch p = applyFixes text (pass_messages p) shouldFix
      /\ (rest <> [] ->
          stopped p = false /\ Linter.fixed (pass_patch p) = true)
      /\ chain verify shouldFix (output (pass_patch p)) rest
  end.

(** A pass applies its patch round unless it stops on a fatal
    problem. *)
Definition applied (p : Pass) : bool := negb (stopped p).

(** The text after the last applied patch round. *)
Definition latest_text (text : string) (ps : list Pass) : string :=
  fold_left (fun t p => if applied p then output (pass_patch p) else t)
    ps text.

(** Some pass applied a fix. *)
Definition any_fixed (ps : list Pass) : bool :=
  existsb (fun p => applied p && Linter.fixed (pass_patch p)) ps.

(** [options?.fix ?? true] *)
Definition shouldFix_of (options : option VerifyOptions) : ShouldFix :=
  default (FixBool true) (options ≫= opt_fix).

Definition verifyAndFix (slots : Slots) (text : string) (config : Value)
    (options : option VerifyOptions) : option (Result Outcome) :=
  verifyAndFixWith
    (fun currentText =>
       fst (verifyWithConfigArray slots (inl currentText) config options))
    (shouldFix_of options) text.

End Linter.

(** *** [normalizeEcmaVersion] and the versions of a configuration

    [resolveParserOptions] stores [normalizeEcmaVersion(parser,
    ecmaVersion)] in the parser options, from where
    [createLanguageOptions] reads it back through
    [normalizeEcmaVersionForLanguageOptions]. *)
Section Versions.

Variable espree_latestEcmaVersion : Z.

(** What [>=] and [-] make of an operand that is not a number: the
    conversion of strings and objects is the language's own, and [None]
    is [NaN]. *)
Variable coerce : Value -> option Z.

Definition ToNumber (v : Value) : option Z :=
  match v with
  | VNumber z => Some z
  | VBool b => Some (if b then 1 else 0)
  | VNull => Some 0
  | VUndefined => None
  | _ => coerce v
  end.

(** [normalizeEcmaVersion(parser, ecmaVersion)], given whether
    [isEspree(parser)] holds. *)
Definition normalizeEcmaVersion (isEspree : bool) (ecmaVersion : Value)
    : Value :=
  if isEspree
     && match ecmaVersion with
        | VString s => String.eqb s "latest"
        | _ => false
        end
  then VNumber espree_latestEcmaVersion
  else
    match ToNumber ecmaVersion with
    | Some n => if 2015 <=? n then VNumber (n - 2009) else ecmaVersion
    | None => ecmaVersion
    end.

End Versions.

(** *** Configurations that differ in their parser only *)
Section Parsers.

Variable ScopeManager : Type.

(** [{ ...config, parser }] *)
Definition with_parser (config : ConfigData ScopeManager)
    (parser : ParserSetting ScopeManager) : ConfigData ScopeManager :=
  {| linterOptions := linterOptions _ config;
     noInlineConfig := noInlineConfig _ config;
     reportUnusedDisableDirectives := reportUnusedDisableDirectives _ config;
     configNameOfNoInlineConfig := configNameOfNoInlineConfig _ config;
     parser := parser;
     env := env _ config;
     parserOptions := parserOptions _ config;
     globals := globals _ config;
     cfg_settings := cfg_settings _ config;
     rules := rules _ config |}.

End Parsers.

(** *** Sorted problems

    [line] and [column] of both problems are numbers, and the first
    problem does not come after the second. *)
Definition located (problem : Problem) : Prop :=
  (exists l, line problem = VNumber l) /\ (exists c, column problem = VNumber c).

Definition position (problem : Problem) : Z * Z :=
  (match line problem with VNumber l => l | _ => 0 end,
   match column problem with VNumber c => c | _ => 0 end).

Definition not_after (problemA problemB : Problem) : Prop :=
  fst (position problemA) < fst (position problemB)
  \/ fst (position problemA) = fst (position problemB)
     /\ snd (position problemA) <= snd (position problemB).

(** *** Path segments

    A string without [/], which [split('/')] leaves in one piece. *)
Fixpoint slash_free (s : string) : bool :=
  match s with
  | EmptyString => true
  | String c rest => negb (Ascii.eqb c "/"%char) && slash_free rest
  end.

End Linter.

(** ** The command-line engine (lib/cli-engine/cli-engine.js)

    A lint message is the [Problem] of the linter: [message.fatal] is
    its flag, [message.fix] is truthy when the problem has an edit.  The
    counters are natural numbers.  Reading the text of a file is the
    caller's: a pattern comes with the text that [file.text()] resolves
    to, and the asynchronous loop of [executeOnFiles] is the sequential
    one. *)
Module CLIEngine.
Import JS Lint Dispatch Linter.

Record Stats : Type := mkStats {
  errorCount : nat;
  fatalErrorCount : nat;
  warningCount : nat;
  fixableErrorCount : nat;
  fixableWarningCount : nat
}.

(** [calculateStatsPerFile] *)
Definition calculateStatsPerFile (messages : list Problem) : Stats :=
  fold_left
    (fun stat message =>
       if fatal message || is_number 2 (severity message) then
         {| errorCount := S (errorCount stat);
            fatalErrorCount :=
              if fatal message then S (fatalErrorCount stat)
              else fatalErrorCount stat;
            warningCount := warningCount stat;
            fixableErrorCount :=
              if has (fix_ message) then S (fixableErrorCount stat)
              else fixableErrorCount stat;
            fixableWarningCount := fixableWarningCount stat |}
       else
         {| errorCount := errorCount stat;
            fatalErrorCount := fatalErrorCount stat;
            warningCount := S (warningCount stat);
            fixableErrorCount := fixableErrorCount stat;
            fixableWarningCount :=
              if has (fix_ message) then S (fixableWarningCount stat)
              else fixableWarningCount stat |})
    messages
    {| errorCount := 0; fatalErrorCount := 0; warningCount := 0;
       fixableErrorCount := 0; fixableWarningCount := 0 |}.

(** A lint result: [filePath], [messages], the five counters spread
    from the stats, and [output] and [source] where they are set. *)
Record LintResult : Type := mkLintResult {
  res_filePath : string;
  res_messages : list Problem;
  res_errorCount : nat;
  res_fatalErrorCount : nat;
  res_warningCount : nat;
  res_fixableErrorCount : nat;
  res_fixableWarningCount : nat;
  res_output : option string;
  res_source : option string
}.

(** [calculateStatsPerRun] *)
Definition calculateStatsPerRun (results : list LintResult) : Stats :=
  fold_left
    (fun stat result =>
       {| errorCount := errorCount stat + res_errorCount result;
          fatalErrorCount := fatalErrorCount stat + res_fatalErrorCount result;
          warningCount := warningCount stat + res_warningCount result;
          fixableErrorCount :=
            fixableErrorCount stat + res_fixableErrorCount result;
          fixableWarningCount :=
            fixableWarningCount stat + res_fixableWarningCount result |})
    results
    {| errorCount := 0; fatalErrorCount := 0; warningCount := 0;
       fixableErrorCount := 0; fixableWarningCount := 0 |}.

(** [isErrorMessage] *)
Definition isErrorMessage (message : Problem) : bool :=
  is_number 2 (severity message).

(** [CLIEngine.getErrorResults] *)
Definition getErrorResults (results : list LintResult) : list LintResult :=
  fold_left
    (fun filtered result =>
       let filteredMessages :=
         List.filter isErrorMessage (res_messages result) in
       if (0 <? length filteredMessages)%nat then
         filtered ++
         [ {| res_filePath := res_filePath result;
              res_messages := filteredMessages;
              res_errorCount := length filteredMessages;
              res_fatalErrorCount := res_fatalErrorCount result;
              res_warningCount := 0;
              res_fixableErrorCount := res_fixableErrorCount result;
              res_fixableWarningCount := 0;
              res_output := res_output result;
              res_source := res_source result |} ]
       else filtered)
    results [].

(** [options.fix] as the linter takes it: [options?.fix ?? true] reads
    [undefined] and [null] as left out. *)
Definition fix_option (fix_value : Value) : option ShouldFix :=
  match fix_value with
  | VUndefined | VNull => None
  | VBool b => Some (FixBool b)
  | v => Some (FixValue v)
  end.

(** [options.filePath || '<text>'] *)
Definition filePath_or_text (filePath : option string) : string :=
  match filePath with
  | Some f => if String.eqb f "" then "<text>" else f
  | None => "<text>"
  end.

(** [target[k] = v] *)
Fixpoint set_prop (props : list (string * Value)) (k : string) (v : Value)
    : list (string * Value) :=
  match props with
  | [] => [(k, v)]
  | (k', v') :: rest =>
      if String.eqb k k' then (k, v) :: rest
      else (k', v') :: set_prop rest k v
  end.

(** [Object.assign(target, source)] *)
Definition Object_assign (target : list (string * Value)) (source : Value)
    : list (string * Value) :=
  fold_left (fun t kv => set_prop t (fst kv) (snd kv))
    (own_props source) target.

(** conf/default-cli-options.js *)
Definition defaultOptions : Value :=
  VObject [ ("baseConfig", VBool false);
            ("rulePaths", VArray []);
            ("env", VObject []);
            ("globals", VArray []);
            ("extensions", VNull);
            ("ignore", VBool true);
            ("settings", VObject []);
            ("fix", VBool false);
            ("allowInlineConfig", VBool true);
            ("reportUnusedDisableDirectives", VUndefined) ].

(** A property of an object without prototype: [undefined] when it has
    no such property. *)
Definition option_of (options : list (string * Value)) (k : string) : Value :=
  default VUndefined (own options k).

(** A pattern of [executeOnFiles]: the text of [file] and [filePath]. *)
Record Pattern : Type := mkPattern {
  file_text : string;
  filePath : option string
}.

Record LintReport : Type := mkLintReport {
  results : list LintResult;
  rep_errorCount : nat;
  rep_fatalErrorCount : nat;
  rep_warningCount : nat;
  rep_fixableErrorCount : nat;
  rep_fixableWarningCount : nat;
  usedDeprecatedRules : Value
}.

Section CLIEngine.

Variable D Arg ScopeManager : Type.
Variable createReportTranslator :
  TranslatorMetadata ScopeManager -> D -> Problem.
Variable evk_KEYS : string -> option (list string).
Variable evk_getKeys : Value -> list string.
Variable Generator : Type.
Variable newGenerator :
  bool -> list string -> SourceCode ScopeManager -> Generator.
Variable enterNode leaveNode :
  Generator -> Value -> Generator * list (string * Arg).
Variable espree : Parser ScopeManager.
Variable espree_latestEcmaVersion : Z.
Variable replaceShebang : string -> string.
Variable stripLineNumber : string -> string.
Variable resolveParserOptions : Value -> Value.
Variable analyzeScope : Value -> ScopeManager.
Variable lineOf : Value -> string.
Variable applyDisableDirectives :
  list DisableDirective -> bool -> list Problem -> string -> list Problem.
Variable applyFixes : string -> list Problem -> ShouldFix -> FixResult.

Local Abbreviation Linter := (Slots D Arg ScopeManager).
Local Abbreviation verifyAndFix :=
  (verifyAndFix D Arg ScopeManager createReportTranslator
     evk_KEYS evk_getKeys Generator newGenerator enterNode leaveNode
     espree espree_latestEcmaVersion replaceShebang stripLineNumber
     resolveParserOptions analyzeScope lineOf applyDisableDirectives
     applyFixes).

(** [verifyText({ text, filePath, config, fix, allowInlineConfig,
    reportUnusedDisableDirectives, linter })] *)
Definition verifyText (text : string) (filePath : option string)
    (config : Value)
    (fix_value allowInlineConfig reportUnusedDisableDirectives : Value)
    (linter : Linter) : option (Result LintResult) :=
  let filePath := filePath_or_text filePath in
  let filePathToVerify := filePath in
  match
    verifyAndFix linter text config
      (Some {| Linter.allowInlineConfig := allowInlineConfig;
               disableFixes := VUndefined;
               opt_filename := Some filePathToVerify;
               opt_reportUnusedDisableDirectives :=
                 reportUnusedDisableDirectives;
               opt_physicalFilename := None;
               opt_fix := fix_option fix_value |})
  with
  | None => None
  | Some (Throw e) => Some (Throw e)
  | Some (Ok out) =>
      let stats := calculateStatsPerFile (messages (result out)) in
      let output :=
        if fixed (result out) then Some (output (result out)) else None in
      let source :=
        if (0 <? errorCount stats + warningCount stats)%nat
           && negb (has output)
        then Some text else None in
      Some (Ok {| res_filePath := filePath;
                  res_messages := messages (result out);
                  res_errorCount := errorCount stats;
                  res_fatalErrorCount := fatalErrorCount stats;
                  res_warningCount := warningCount stats;
                  res_fixableErrorCount := fixableErrorCount stats;
                  res_fixableWarningCount := fixableWarningCount stats;
                  res_output := output;
                  res_source := source |})
  end.

(** An engine: its linter and its private [#options], an object
    without prototype. *)
Record CLIEngine : Type := mkCLIEngine {
  linter : Linter;
  options : list (string * Value)
}.

(** [new CLIEngine(providedOptions)] *)
Definition new_CLIEngine (providedOptions : Value) : CLIEngine :=
  let options :=
    Object_assign (Object_assign [] defaultOptions) providedOptions in
  let options :=
    match option_of options "fix" with
    | VUndefined => set_prop options "fix" (VBool false)
    | _ => options
    end in
  {| linter := new_Linter D Arg ScopeManager espree; options := options |}.

(** The loop of [executeOnFiles]; what [verifyText] throws ends it. *)
Fixpoint lint_patterns (this : CLIEngine) (patterns : list Pattern)
    (results : list LintResult) : option (Result (list LintResult)) :=
  match patterns with
  | [] => Some (Ok results)
  | pattern :: rest =>
      match
        verifyText (file_text pattern) (filePath pattern)
          (VObject (options this))
          (option_of (options this) "fix")
          (option_of (options this) "allowInlineConfig")
          (option_of (options this) "reportUnusedDisableDirectives")
          (linter this)
      with
      | None => None
      | Some (Throw e) => Some (Throw e)
      | Some (Ok result) => lint_patterns this rest (results ++ [result])
      end
  end.

(** [executeOnFiles(patterns)] *)
Definition executeOnFiles (this : CLIEngine) (patterns : list Pattern)
    : option (Result LintReport) :=
  match lint_patterns this patterns [] with
  | None => None
  | Some (Throw e) => Some (Throw e)
  | Some (Ok results) =>
      let stats := calculateStatsPerRun results in
      Some (Ok {| results := results;
                  rep_errorCount := errorCount stats;
                  rep_fatalErrorCount := fatalErrorCount stats;
                  rep_warningCount := warningCount stats;
                  rep_fixableErrorCount := fixableErrorCount stats;
                  rep_fixableWarningCount := fixableWarningCount stats;
                  usedDeprecatedRules := VUndefined |})
  end.

End CLIEngine.
End CLIEngine.

(** ** The main API class ([ESLint])

    The options of [new ESLint(options)] are a JavaScript value.
    [String.prototype.trim] is the language's own and a parameter. *)
Module ESLint.
Import JS Lint Dispatch Linter.

(** [typeof v] *)
Definition typeof (v : Value) : string :=
  match v with
  | VUndefined => "undefined"
  | VNull | VArray _ | VObject _ => "object"
  | VBool _ => "boolean"
  | VNumber _ => "number"
  | VString _ => "string"
  | VFunction _ => "function"
  end.

(** [v === null], [v === s] and [Array.isArray(v)] *)
Definition is_null (v : Value) : bool :=
  match v with
  | VNull => true
  | _ => false
  end.

Definition is_string (s : string) (v : Value) : bool :=
  match v with
  | VString s' => String.eqb s' s
  | _ => false
  end.

Definition isArray (v : Value) : bool :=
  match v with
  | VArray _ => true
  | _ => false
  end.

(** [Object.keys(v)] *)
Definition Object_keys (v : Value) : list string := map fst (own_props v).

(** [keys.includes(k)] *)
Definition includes (keys : list string) (k : string) : bool :=
  existsb (String.eqb k) keys.

(** The error of [ESLintInvalidOptionsError]: its message and its
    [code]. *)
Record ESLintInvalidOptionsError : Type := mkInvalidOptions {
  ioe_message : string;
  ioe_code : string
}.

Definition new_ESLintInvalidOptionsError (messages : list string)
    : ESLintInvalidOptionsError :=
  {| ioe_message :=
       String.append "Invalid Options:"
         (String.append LF
            (String.append "- "
               (String.concat (String.append LF "- ") messages)));
     ioe_code := "ESLINT_INVALID_OPTIONS" |}.

(** What a call returns or throws. *)
Inductive Completion (A : Type) : Type :=
| Returns (a : A)
| ThrowsInvalidOptions (e : ESLintInvalidOptionsError)
| Throws (e : Error).
Arguments Returns {A} a.
Arguments ThrowsInvalidOptions {A} e.
Arguments Throws {A} e.

(** The names that the parameter of [processOptions] destructures. *)
Definition known_options : list string :=
  [ "allowInlineConfig"; "baseConfig"; "extensions"; "fix"; "fixTypes";
    "ignore"; "overrideConfig"; "plugins"; "reportUnusedDisableDirectives";
    "resolvePluginsRelativeTo"; "rulePaths" ].

(** [{ name = byDefault } = options]: the default stands in for
    [undefined]. *)
Definition destructure (options : Value) (name : string) (byDefault : Value)
    : Value :=
  match member_opt options name with
  | VUndefined => byDefault
  | v => v
  end.

(** [Object.keys(unknownOptions)], the keys of the rest. *)
Definition unknownOptionKeys_of (options : Value) : list string :=
  List.filter (fun k => negb (includes known_options k)) (Object_keys options).

(** [isFixType] and [isFixTypeArray] *)
Definition isFixType (x : Value) : bool :=
  is_string "directive" x || is_string "problem" x
  || is_string "suggestion" x || is_string "layout" x.

Definition isFixTypeArray (x : Value) : bool :=
  match x with
  | VArray elems => forallb isFixType elems
  | _ => false
  end.

(** [cond && errors.push(message)] *)
Definition push_if (cond : bool) (message : string) : list string :=
  if cond then [message] else [].

Section ESLint.

Variable trim : string -> string.

(** [isNonEmptyString] and [isArrayOfNonEmptyString] *)
Definition isNonEmptyString (x : Value) : bool :=
  match x with
  | VString s => negb (String.eqb (trim s) "")
  | _ => false
  end.

Definition isArrayOfNonEmptyString (x : Value) : bool :=
  match x with
  | VArray elems => forallb isNonEmptyString elems
  | _ => false
  end.

(** The errors that [processOptions] collects, in their order. *)
Definition errors_of (unknownOptionKeys : list string)
    (allowInlineConfig baseConfig extensions fix_value fixTypes ignore
       overrideConfig plugins reportUnusedDisableDirectives
       resolvePluginsRelativeTo rulePaths : Value) : list string :=
  (if (1 <=? length unknownOptionKeys)%nat then
     [String.append "Unknown options: "
        (String.concat ", " unknownOptionKeys)]
     ++ push_if (includes unknownOptionKeys "globals")
          "'globals' has been removed. Please use the 'overrideConfig.globals' option instead."
     ++ push_if (includes unknownOptionKeys "parser")
          "'parser' has been removed. Please use the 'overrideConfig.parser' option instead."
     ++ push_if (includes unknownOptionKeys "parserOptions")
          "'parserOptions' has been removed. Please use the 'overrideConfig.parserOptions' option instead."
     ++ push_if (includes unknownOptionKeys "rules")
          "'rules' has been removed. Please use the 'overrideConfig.rules' option instead."
   else [])
  ++ push_if (negb (String.eqb (typeof allowInlineConfig) "boolean"))
       "'allowInlineConfig' must be a boolean."
  ++ push_if (negb (String.eqb (typeof baseConfig) "object"))
       "'baseConfig' must be an object or null."
  ++ push_if (negb (isArrayOfNonEmptyString extensions)
              && negb (is_null extensions))
       "'extensions' must be an array of non-empty strings or null."
  ++ push_if (negb (String.eqb (typeof fix_value) "boolean")
              && negb (String.eqb (typeof fix_value) "function"))
       "'fix' must be a boolean or a function."
  ++ push_if (negb (is_null fixTypes) && negb (isFixTypeArray fixTypes))
       (String.concat ""
          [ "'fixTypes' must be an array of any of "; quoted "directive";
            ", "; quoted "problem"; ", "; quoted "suggestion"; ", and ";
            quoted "layout"; "." ])
  ++ push_if (negb (String.eqb (typeof ignore) "boolean"))
       "'ignore' must be a boolean."
  ++ push_if (negb (String.eqb (typeof overrideConfig) "object"))
       "'overrideConfig' must be an object or null."
  ++ (if negb (String.eqb (typeof plugins) "object") then
        ["'plugins' must be an object or null."]
      else
        push_if (negb (is_null plugins) && includes (Object_keys plugins) "")
          "'plugins' must not include an empty string.")
  ++ push_if (isArray plugins)
       "'plugins' doesn't add plugins to configuration to load. Please use the 'overrideConfig.plugins' option instead."
  ++ push_if (negb (is_string "error" reportUnusedDisableDirectives)
              && negb (is_string "warn" reportUnusedDisableDirectives)
              && negb (is_string "off" reportUnusedDisableDirectives)
              && negb (is_null reportUnusedDisableDirectives))
       (String.concat ""
          [ "'reportUnusedDisableDirectives' must be any of ";
            quoted "error"; ", "; quoted "warn"; ", "; quoted "off";
            ", and null." ])
  ++ push_if (negb (isNonEmptyString resolvePluginsRelativeTo)
              && negb (is_null resolvePluginsRelativeTo))
       "'resolvePluginsRelativeTo' must be a non-empty string or null."
  ++ push_if (negb (isArrayOfNonEmptyString rulePaths))
       "'rulePaths' must be an array of non-empty strings.".

(** [processOptions(options)]; the parameter cannot be destructured
    from [undefined] or [null], which is a [TypeError] whose wording is
    the engine's. *)
Definition processOptions (options : Value) : Completion Value :=
  match options with
  | VUndefined | VNull =>
      Throws (new_TypeError
                "Cannot destructure 'options' as it is undefined or null.")
  | _ =>
      let allowInlineConfig :=
        destructure options "allowInlineConfig" (VBool true) in
      let baseConfig := destructure options "baseConfig" VNull in
      let extensions := destructure options "extensions" VNull in
      let fix_value := destructure options "fix" (VBool false) in
      let fixTypes := destructure options "fixTypes" VNull in
      let ignore := destructure options "ignore" (VBool true) in
      let overrideConfig := destructure options "overrideConfig" VNull in
      let plugins := destructure options "plugins" (VObject []) in
      let reportUnusedDisableDirectives :=
        destructure options "reportUnusedDisableDirectives" VNull in
      let resolvePluginsRelativeTo :=
        destructure options "resolvePluginsRelativeTo" VNull in
      let rulePaths := destructure options "rulePaths" (VArray []) in
      let errors :=
        errors_of (unknownOptionKeys_of options)
          allowInlineConfig baseConfig extensions fix_value fixTypes ignore
          overrideConfig plugins reportUnusedDisableDirectives
          resolvePluginsRelativeTo rulePaths in
      if (0 <? length errors)%nat then
        ThrowsInvalidOptions (new_ESLintInvalidOptionsError errors)
      else
        Returns
          (VObject
             [ ("allowInlineConfig", allowInlineConfig);
               ("baseConfig", baseConfig);
               ("extensions", extensions);
               ("fix", fix_value);
               ("fixTypes", fixTypes);
               ("ignore", ignore);
               ("reportUnusedDisableDirectives",
                reportUnusedDisableDirectives);
               ("resolvePluginsRelativeTo", resolvePluginsRelativeTo);
               ("rulePaths", rulePaths) ])
  end.

Variable D Arg ScopeManager : Type.
Variable createReportTranslator :
  TranslatorMetadata ScopeManager -> D -> Problem.
Variable evk_KEYS : string -> option (list string).
Variable evk_getKeys : Value -> list string.
Variable Generator : Type.
Variable newGenerator :
  bool -> list string -> SourceCode ScopeManager -> Generator.
Variable enterNode leaveNode :
  Generator -> Value -> Generator * list (string * Arg).
Variable espree : Parser ScopeManager.
Variable espree_latestEcmaVersion : Z.
Variable replaceShebang : string -> string.
Variable stripLineNumber : string -> string.
Variable resolveParserOptions : Value -> Value.
Variable analyzeScope : Value -> ScopeManager.
Variable lineOf : Value -> string.
Variable applyDisableDirectives :
  list DisableDirective -> bool -> list Problem -> string -> list Problem.
Variable applyFixes : string -> list Problem -> ShouldFix -> FixResult.

(** An instance: the wrapped engine. *)
Record ESLint : Type := mkESLint {
  cliEngine : CLIEngine.CLIEngine D Arg ScopeManager
}.

(** [new ESLint(options)], with [options = {}] by default. *)
Definition new_ESLint (options : Value) : Completion ESLint :=
  let options :=
    match options with
    | VUndefined => VObject []
    | _ => options
    end in
  match processOptions options with
  | Returns processedOptions =>
      Returns
        {| cliEngine :=
             CLIEngine.new_CLIEngine D Arg ScopeManager espree
               processedOptions |}
  | ThrowsInvalidOptions e => ThrowsInvalidOptions e
  | Throws e => Throws e
  end.

(** [ESLint.getErrorResults] *)
Definition getErrorResults (results : list CLIEngine.LintResult)
    : list CLIEngine.LintResult :=
  CLIEngine.getErrorResults results.

(** [lintFiles(patterns)] *)
Definition lintFiles (this : ESLint) (patterns : list CLIEngine.Pattern)
    : option (Result CLIEngine.LintReport) :=
  CLIEngine.executeOnFiles D Arg ScopeManager createReportTranslator
    evk_KEYS evk_getKeys Generator newGenerator enterNode leaveNode
    espree espree_latestEcmaVersion replaceShebang stripLineNumber
    resolveParserOptions analyzeScope lineOf applyDisableDirectives
    applyFixes (cliEngine this) patterns.

End ESLint.
End ESLint.

(** ** A small linter

    Concrete collaborators to run the embedding on: descriptors that are
    the problems themselves, an event generator that emits the type of
    the node and its [:exit], a parser that rejects the text ["("], a
    directive resolver that keeps every problem, and a patcher that
    applies the first edit it is allowed to by replacing the text. *)
Module Sample.
Import JS Lint Dispatch Linter.

Definition createReportTranslator (metadata : TranslatorMetadata unit)
    (descriptor : Problem) : Problem :=
  {| ruleId := Some (tm_ruleId unit metadata);
     fatal := false;
     severity := tm_severity unit metadata;
     message := message descriptor;
     line := line descriptor;
     column := column descriptor;
     endLine := endLine descriptor;
     endColumn := endColumn descriptor;
     nodeType := nodeType descriptor;
     fix_ := if tm_disableFixes unit metadata then None else fix_ descriptor;
     suggestions :=
       if tm_disableFixes unit metadata then None
       else suggestions descriptor |}.

Definition evk_KEYS (type : string) : option (list string) :=
  if String.eqb type "Program" then Some ["body"] else Some [].

Definition evk_getKeys (node : Value) : list string := [].

Definition enterNode (g : unit) (node : Value) : unit * list (string * Value) :=
  (g, [(Traverser.type_of node, node)]).

Definition leaveNode (g : unit) (node : Value) : unit * list (string * Value) :=
  (g, [(String.append (Traverser.type_of node) ":exit", node)]).

(** The tree of a text: a program that keeps the text as [raw], around
    one empty statement. *)
Definition program (text : string) : Value :=
  VObject [("type", VString "Program");
           ("raw", VString text);
           ("body", VArray [VObject [("type", VString "EmptyStatement")]])].

Definition espree : Parser unit :=
  fun text _ =>
    if String.eqb text "("
    then ParseThrows unit "Unexpected token" (VNumber 1) (VNumber 2)
    else Parsed unit (program text) None None.

Definition allows (shouldFix : ShouldFix) (problem : Problem) : bool :=
  match shouldFix with
  | FixBool b => b
  | FixPredicate predicate => predicate problem
  | FixValue v => truthy v
  end.

Definition applyFixes (text : string) (messages : list Problem)
    (shouldFix : ShouldFix) : FixResult :=
  match
    List.find (fun m => has (fix_ m) && allows shouldFix m) messages
  with
  | Some m =>
      {| fixed := true;
         messages := List.filter (fun m => negb (has (fix_ m))) messages;
         output := match fix_ m with
                   | Some edit => edit_text edit
                   | None => text
                   end |}
  | None => {| fixed := false; messages := messages; output := text |}
  end.

Definition verifyWithoutProcessors :=
  Linter.verifyWithoutProcessors Problem Value unit createReportTranslator
    evk_KEYS evk_getKeys unit (fun _ _ _ => tt) enterNode leaveNode
    espree 13 (fun s => s) (fun s => s) (fun v => v) (fun _ => tt)
    (fun _ => "1") (fun _ _ problems _ => problems).

Definition verifyWithConfigArray :=
  Linter.verifyWithConfigArray Problem Value unit createReportTranslator
    evk_KEYS evk_getKeys unit (fun _ _ _ => tt) enterNode leaveNode
    espree 13 (fun s => s) (fun s => s) (fun v => v) (fun _ => tt)
    (fun _ => "1") (fun _ _ problems _ => problems).

Definition verifyAndFix :=
  Linter.verifyAndFix Problem Value unit createReportTranslator
    evk_KEYS evk_getKeys unit (fun _ _ _ => tt) enterNode leaveNode
    espree 13 (fun s => s) (fun s => s) (fun v => v) (fun _ => tt)
    (fun _ => "1") (fun _ _ problems _ => problems) applyFixes.

Definition runRules :=
  Dispatch.runRules Problem Value unit createReportTranslator
    evk_KEYS evk_getKeys unit (fun _ _ _ => tt) enterNode leaveNode.

(** A descriptor with an edit that replaces the text by [y]. *)
Definition edit_y : Edit :=
  {| range_start := 0; range_end := 1; edit_text := "y" |}.

Definition descriptor (edit : option Edit)
    (alternatives : option (list Suggestion)) : Problem :=
  {| ruleId := None; fatal := false; severity := VUndefined;
     message := "Unexpected program."; line := VNumber 1;
     column := VNumber 1; endLine := VUndefined; endColumn := VUndefined;
     nodeType := VString "Program"; fix_ := edit;
     suggestions := alternatives |}.

(** A rule that reports every program, with the given descriptor. *)
Definition reporter (meta : Value) (d : Problem) : Rule Problem Value :=
  {| create := fun _ => ([], [("Program", fun _ => [Report d])]);
     meta := meta |}.

(** A fixable rule that reports every program but [y], with an edit
    that makes it [y]. *)
Definition make_y : Rule Problem Value :=
  {| create := fun _ =>
       ([], [("Program",
              fun node =>
                match member_opt node "raw" with
                | VString "y" => []
                | _ => [Report {| ruleId := None; fatal := false;
                                  severity := VUndefined;
                                  message := "Unexpected program.";
                                  line := VNumber 1; column := VNumber 1;
                                  endLine := VUndefined;
                                  endColumn := VUndefined;
                                  nodeType := VString "Program";
                                  fix_ := Some {| range_start := 0;
                                                  range_end := 1;
                                                  edit_text := "y" |};
                                  suggestions := None |}]
                end)]);
     meta := VObject [("fixable", VString "code")] |}.

Definition linter_with (rule : Rule Problem Value)
    : Slots Problem Value unit :=
  defineRule Problem Value unit
    (new_Linter Problem Value unit espree) "no-program"
    (NewStyle Problem Value rule).

Definition config_with (ruleConfig : Value) : Value :=
  VObject [("env", VObject []);
           ("baseConfig",
            VObject [("rules", VObject [("no-program", ruleConfig)])]);
           ("settings", VObject [])].

Definition no_options : VerifyOptions :=
  {| allowInlineConfig := VUndefined; disableFixes := VUndefined;
     opt_filename := None; opt_reportUnusedDisableDirectives := VUndefined;
     opt_physicalFilename := None; opt_fix := None |}.

Definition config_data (p : ParserSetting unit) (rules : Value)
    : ConfigData unit :=
  {| linterOptions := VUndefined; noInlineConfig := VUndefined;
     reportUnusedDisableDirectives := VUndefined;
     configNameOfNoInlineConfig := ""; parser := p;
     env := VUndefined; parserOptions := VUndefined; globals := VUndefined;
     cfg_settings := VUndefined; rules := rules |}.

Definition source : SourceCode unit :=
  {| text := "x"; ast := program "x"; visitorKeys := Some evk_KEYS;
     scopeManager := Some tt |}.

(** Token cursors over numbers, whose locations are their indices;
    [-1] is [null] and [-2] is [undefined]. *)
Definition base_moveNext :=
  Cursors.BaseCursor_moveNext (-2) unit (fun c => (false, c)).
Definition base_current :=
  Cursors.BaseCursor_current (V := Z) unit (fun _ => -1).
Definition backward : @Cursors.CursorFactory Z (Cursors.BaseCursor unit) unit :=
  Cursors.backward (-1) unit (fun _ _ loc => loc) (fun _ _ loc => loc) unit
    (fun _ _ _ _ _ => tt).
Definition forward : @Cursors.CursorFactory Z (Cursors.BaseCursor unit) unit :=
  Cursors.forward (-1) unit (fun _ _ loc => loc) (fun _ _ loc => loc) unit
    (fun _ _ _ _ _ => tt).

(** Callbacks that call [break()] on entering an empty statement. *)
Definition breaking : Traverser.Options unit :=
  {| Traverser.opt_visitorKeys := None;
     Traverser.opt_enter :=
       Some (fun _ node _ u =>
               (u, {| Traverser.calls_skip := false;
                      Traverser.calls_break :=
                        String.eqb (Traverser.type_of node)
                          "EmptyStatement" |}));
     Traverser.opt_leave := None |}.

Definition empty_store : Store Value :=
  {| lintingProblems := []; log := [] |}.

(** A source code whose tree is no node. *)
Definition no_tree : SourceCode unit :=
  {| text := ""; ast := VNull; visitorKeys := Some evk_KEYS;
     scopeManager := Some tt |}.

(** A rule whose listener throws on every program. *)
Definition thrower : Rule Problem Value :=
  {| create := fun _ =>
       ([], [("Program", fun _ => [Raise (new_Error "boom")])]);
     meta := VUndefined |}.

(** Callbacks that call [skip()] on entering a program. *)
Definition skipping : Traverser.Options unit :=
  {| Traverser.opt_visitorKeys := None;
     Traverser.opt_enter :=
       Some (fun _ node _ u =>
               (u, {| Traverser.calls_skip :=
                        String.eqb (Traverser.type_of node) "Program";
                      Traverser.calls_break := false |}));
     Traverser.opt_leave := None |}.

(** [trim] on ASCII text. *)
Fixpoint trimStart (s : string) : string :=
  match s with
  | EmptyString => EmptyString
  | String c rest => if Ascii.is_space c then trimStart rest else s
  end.

Definition trim (s : string) : string :=
  String.rev (trimStart (String.rev (trimStart s))).

Definition new_ESLint :=
  ESLint.new_ESLint trim Problem Value unit espree.

Definition lintFiles :=
  ESLint.lintFiles Problem Value unit createReportTranslator
    evk_KEYS evk_getKeys unit (fun _ _ _ => tt) enterNode leaveNode
    espree 13 (fun s => s) (fun s => s) (fun v => v) (fun _ => tt)
    (fun _ => "1") (fun _ _ problems _ => problems) applyFixes.

(** A problem at a position. *)
Definition problem_at (l c : Z) : Problem :=
  {| ruleId := None; fatal := false; severity := VNumber 1;
     message := "Unexpected."; line := VNumber l; column := VNumber c;
     endLine := VUndefined; endColumn := VUndefined;
     nodeType := VNull; fix_ := None; suggestions := None |}.

End Sample.

(* ===================================================================== *)
(** * Part II. Properties                                                *)
(* ===================================================================== *)

(** ** Severities *)
Section SeverityFacts.
Import JS Severity.

Example RULE_SEVERITY_value :
  RULE_SEVERITY =
    [("off", VNumber 0); ("warn", VNumber 1); ("error", VNumber 2)].
Proof. reflexivity. Qed.

Lemma getRuleSeverity_number (n : Z) :
  n = 0 \/ n = 1 \/ n = 2 -> getRuleSeverity (VNumber n) = VNumber n.
Proof. intros [->|[->| ->]]; reflexivity. Qed.

Lemma getRuleSeverity_string (s : string) :
  getRuleSeverity (VString s)
  = or (get RULE_SEVERITY (toLowerCase s)) (VNumber 0).
Proof. reflexivity. Qed.

(** Every spelling of a severity name, in any letter case, resolves to
    the number of that name, alone or at the head of an array. *)
Lemma getRuleSeverity_encodings (s : string) (n : Z) (rest : list Value) :
  own RULE_SEVERITY (toLowerCase s) = Some (VNumber n) ->
  getRuleSeverity (VNumber n) = VNumber n
  /\ getRuleSeverity (VString s) = VNumber n
  /\ getRuleSeverity (VArray (VNumber n :: rest)) = VNumber n
  /\ getRuleSeverity (VArray (VString s :: rest)) = VNumber n.
Proof.
  intros H.
  assert (Hn : n = 0 \/ n = 1 \/ n = 2).
  { revert H. unfold RULE_SEVERITY. simpl.
    repeat (destruct (String.eqb _ _); [intros [= <-]; lia|]).
    discriminate. }
  assert (Hs : getRuleSeverity (VString s) = VNumber n).
  { rewrite getRuleSeverity_string. unfold get. rewrite H.
    destruct Hn as [->|[->| ->]]; reflexivity. }
  repeat split.
  - now apply getRuleSeverity_number.
  - exact Hs.
  - now apply getRuleSeverity_number.
  - exact Hs.
Qed.

Example getRuleSeverity_error_spellings :
  getRuleSeverity (VNumber 2) = VNumber 2
  /\ getRuleSeverity (VString "error") = VNumber 2
  /\ getRuleSeverity (VString "Error") = VNumber 2
  /\ getRuleSeverity (VString "ERROR") = VNumber 2
  /\ getRuleSeverity (VArray [VNumber 2; VString "always"]) = VNumber 2
  /\ getRuleSeverity (VArray [VString "eRRor"]) = VNumber 2.
Proof. repeat split. Qed.

(** A value that is no encoding of a severity resolves to [0], unless
    it is a string whose lower case names a property that the severity
    table inherits. *)
Lemma getRuleSeverity_other (ruleConfig : Value) :
  (forall n, severityValue_of ruleConfig = VNumber n ->
     n <> 0 /\ n <> 1 /\ n <> 2) ->
  (forall s, severityValue_of ruleConfig = VString s ->
     own RULE_SEVERITY (toLowerCase s) = None
     /\ own Object_prototype (toLowerCase s) = None) ->
  getRuleSeverity ruleConfig = VNumber 0.
Proof.
  unfold getRuleSeverity. intros Hnum Hstr.
  destruct (severityValue_of ruleConfig) as [| |b|z|s|l|o|f] eqn:E;
    try reflexivity.
  - destruct (Hnum z eq_refl) as (H0 & H1 & H2). simpl.
    destruct (Z.eqb_spec z 0); [tauto|].
    destruct (Z.eqb_spec z 1); [tauto|].
    destruct (Z.eqb_spec z 2); [tauto|]. reflexivity.
  - destruct (Hstr s eq_refl) as [H1 H2]. simpl.
    unfold get. rewrite H1, H2. reflexivity.
Qed.

(** C5, at the input where it fails.  The string ["constructor"] is no
    encoding of a severity, yet it does not resolve to [0]: the table
    of severities is an object literal, and the lookup finds the
    [constructor] every object inherits. *)
Theorem C5_getRuleSeverity_inherited_name :
  own RULE_SEVERITY (toLowerCase "constructor") = None
  /\ getRuleSeverity (VString "constructor") = VFunction "Object"
  /\ getRuleSeverity (VArray [VString "Constructor"; VString "always"])
     = VFunction "Object"
  /\ is_number 0 (getRuleSeverity (VString "constructor")) = false.
Proof. repeat split. Qed.

End SeverityFacts.

(** ** Token cursors *)
Section CursorFacts.
Import Cursors.

Context {V : Type}.
Variable null : V.
Variable B : Type.
Variable base_moveNext : B -> bool * B.
Variable base_current : B -> V.

Local Abbreviation Cursor := (@Cursor V B).
Local Abbreviation moveNext := (moveNext base_moveNext base_current).
Local Abbreviation drain := (drain base_moveNext base_current).
Local Abbreviation current := (current base_current).
Local Abbreviation Yields := (Yields base_moveNext base_current).

Lemma moveNext_mono (fuel : nat) :
  forall (c : Cursor) r, moveNext fuel c = Some r ->
  forall fuel', (fuel <= fuel')%nat -> moveNext fuel' c = Some r.
Proof.
  induction fuel as [|fuel IH]; intros c r H fuel' Hle; [discriminate|].
  destruct fuel' as [|fuel']; [lia|]. assert (Hle' : (fuel <= fuel')%nat) by lia.
  destruct c as [b | inner p cur | inner k cur | inner k cur]; simpl in *.
  - exact H.
  - destruct (moveNext fuel inner) as [[retv inner']|] eqn:E; simpl in H;
      [|discriminate].
    rewrite (IH _ _ E _ Hle'). simpl.
    destruct retv; [|exact H].
    destruct (p (current inner')); [exact H|]. eauto.
  - destruct (0 <? k).
    + destruct (moveNext fuel inner) as [[retv inner']|] eqn:E; simpl in H;
        [|discriminate].
      rewrite (IH _ _ E _ Hle'). simpl. destruct retv; [|exact H]. eauto.
    + destruct (moveNext fuel inner) as [[retv inner']|] eqn:E; simpl in H;
        [|discriminate].
      rewrite (IH _ _ E _ Hle'). exact H.
  - destruct (0 <? k); [|exact H].
    destruct (moveNext fuel inner) as [[retv inner']|] eqn:E; simpl in H;
      [|discriminate].
    rewrite (IH _ _ E _ Hle'). exact H.
Qed.

Lemma drain_Yields (fuel : nat) :
  forall (c : Cursor) out, drain fuel c = Some out -> Yields c out.
Proof.
  induction fuel as [|fuel IH]; intros c out H; [discriminate|].
  simpl in H.
  destruct (moveNext fuel c) as [[[] c']|] eqn:E; try discriminate.
  - destruct (drain fuel c') as [out'|] eqn:D; [|discriminate].
    injection H as <-. eapply Yields_next; eauto.
  - injection H as <-. eapply Yields_done; eauto.
Qed.

Lemma Yields_drain (c : Cursor) (out : list V) :
  Yields c out ->
  exists fuel0, forall fuel, (fuel0 <= fuel)%nat -> drain fuel c = Some out.
Proof.
  induction 1 as [c c' f H | c c' f out H _ [f0 IH]].
  - exists (S f). intros fuel Hle. destruct fuel as [|fuel]; [lia|].
    simpl. rewrite (moveNext_mono _ _ _ H fuel) by lia. reflexivity.
  - exists (S (Nat.max f f0)). intros fuel Hle.
    destruct fuel as [|fuel]; [lia|].
    simpl. rewrite (moveNext_mono _ _ _ H fuel) by lia.
    rewrite IH by lia. reflexivity.
Qed.

(** One call of [moveNext] on a cursor that yields [out]. *)
Lemma Yields_inv (c : Cursor) (out : list V) :
  Yields c out ->
  exists fuel c',
    match out with
    | [] => moveNext fuel c = Some (false, c')
    | v :: rest =>
        moveNext fuel c = Some (true, c') /\ current c' = v /\ Yields c' rest
    end.
Proof. destruct 1; eauto 6. Qed.

(** Two calls with their own fuel, run on the larger one. *)
Ltac join_fuel f g :=
  let m := constr:(Nat.max f g) in
  repeat match goal with
  | H : moveNext f _ = Some _ |- _ =>
      apply (fun h => moveNext_mono _ _ _ h m (Nat.le_max_l f g)) in H
  | H : moveNext g _ = Some _ |- _ =>
      apply (fun h => moveNext_mono _ _ _ h m (Nat.le_max_r f g)) in H
  end.

Lemma Yields_FilterCursor (predicate : V -> bool) (c : Cursor) out :
  Yields c out ->
  forall cur, Yields (FilterCursor c predicate cur) (List.filter predicate out).
Proof.
  induction 1 as [c c' f H | c c' f out H _ IH]; intros cur.
  - apply (Yields_done _ _ _ (FilterCursor c' predicate (current c')) (S f)).
    simpl. rewrite H. reflexivity.
  - simpl. destruct (predicate (current c')) eqn:P.
    + apply (Yields_next _ _ _ (FilterCursor c' predicate (current c')) (S f));
        [|apply IH].
      simpl. rewrite H. simpl. rewrite P. reflexivity.
    + specialize (IH (current c')).
      destruct (Yields_inv _ _ IH) as (g & c'' & Hg).
      destruct (List.filter predicate out) as [|v rest].
      * join_fuel f g.
        apply (Yields_done _ _ _ c'' (S (Nat.max f g))).
        simpl. rewrite H. simpl. rewrite P. exact Hg.
      * destruct Hg as (Hg & <- & Hrest). join_fuel f g.
        apply (Yields_next _ _ _ c'' (S (Nat.max f g))); [|exact Hrest].
        simpl. rewrite H. simpl. rewrite P. exact Hg.
Qed.

Lemma Yields_SkipCursor (c : Cursor) out :
  Yields c out ->
  forall count cur, Yields (SkipCursor c count cur) (drop (Z.to_nat count) out).
Proof.
  induction 1 as [c c' f H | c c' f out H _ IH]; intros count cur.
  - rewrite drop_nil.
    destruct (0 <? count) eqn:K.
    + apply (Yields_done _ _ _ (SkipCursor c' (count - 1) (current c')) (S f)).
      simpl. rewrite K, H. reflexivity.
    + apply (Yields_done _ _ _ (SkipCursor c' count (current c')) (S f)).
      simpl. rewrite K, H. reflexivity.
  - destruct (0 <? count) eqn:K.
    + apply Z.ltb_lt in K as K'.
      replace (Z.to_nat count) with (S (Z.to_nat (count - 1))) by lia.
      simpl. specialize (IH (count - 1) (current c')).
      destruct (Yields_inv _ _ IH) as (g & c'' & Hg).
      destruct (drop (Z.to_nat (count - 1)) out) as [|v rest].
      * join_fuel f g.
        apply (Yields_done _ _ _ c'' (S (Nat.max f g))).
        simpl. rewrite K, H. exact Hg.
      * destruct Hg as (Hg & <- & Hrest). join_fuel f g.
        apply (Yields_next _ _ _ c'' (S (Nat.max f g))); [|exact Hrest].
        simpl. rewrite K, H. exact Hg.
    + apply Z.ltb_ge in K as K'.
      replace (Z.to_nat count) with O by lia. simpl.
      apply (Yields_next _ _ _ (SkipCursor c' count (current c')) (S f));
        [|specialize (IH count (current c'));
          replace (Z.to_nat count) with O in IH by lia; exact IH].
      simpl. rewrite K, H. reflexivity.
Qed.

Lemma Yields_LimitCursor (c : Cursor) out :
  Yields c out ->
  forall count cur, Yields (LimitCursor c count cur) (take (Z.to_nat count) out).
Proof.
  induction 1 as [c c' f H | c c' f out H _ IH]; intros count cur.
  - rewrite take_nil.
    destruct (0 <? count) eqn:K.
    + apply (Yields_done _ _ _ (LimitCursor c' (count - 1) (current c')) (S f)).
      simpl. rewrite K, H. reflexivity.
    + apply (Yields_done _ _ _ (LimitCursor c count cur) 1%nat).
      simpl. rewrite K. reflexivity.
  - destruct (0 <? count) eqn:K.
    + apply Z.ltb_lt in K as K'.
      replace (Z.to_nat count) with (S (Z.to_nat (count - 1))) by lia.
      simpl.
      apply (Yields_next _ _ _ (LimitCursor c' (count - 1) (current c')) (S f));
        [|apply IH].
      simpl. rewrite K, H. reflexivity.
    + apply Z.ltb_ge in K as K'.
      replace (Z.to_nat count) with O by lia. simpl.
      apply (Yields_done _ _ _ (LimitCursor c count cur) 1%nat).
      simpl. rewrite K. reflexivity.
Qed.

(** A limit of zero or less never asks the wrapped cursor for a value. *)
Lemma LimitCursor_zero (c : Cursor) (count : Z) (cur : V) (fuel : nat) :
  count <= 0 -> drain (S (S fuel)) (LimitCursor c count cur) = Some [].
Proof.
  intros K. simpl. apply Z.ltb_ge in K. rewrite K. reflexivity.
Qed.

Variable IndexMap : Type.
Variable factory : @CursorFactory V B IndexMap.

Local Abbreviation createBaseCursor := (createBaseCursor IndexMap factory).
Local Abbreviation createCursor := (createCursor null IndexMap factory).

(** Whatever options are supplied, the cursor of the factory yields the
    eager pipeline of the base cursor's output. *)
Lemma createCursor_Yields tokens comments indexMap startLoc endLoc
    includeComments filter skip count out :
  Yields (createBaseCursor tokens comments indexMap startLoc endLoc
            includeComments) out ->
  Yields (createCursor tokens comments indexMap startLoc endLoc
            includeComments filter skip count)
         (pipeline filter skip count out).
Proof.
  intros Hbase. unfold Cursors.createCursor, pipeline.
  set (base := createBaseCursor _ _ _ _ _ _) in *. clearbody base.
  assert (H1 : Yields
            match filter with
            | Some predicate => new_FilterCursor null base predicate
            | None => base
            end
            match filter with
            | Some predicate => List.filter predicate out
            | None => out
            end).
  { destruct filter; [apply Yields_FilterCursor|]; exact Hbase. }
  clear Hbase. revert H1.
  generalize (match filter with
              | Some predicate => new_FilterCursor null base predicate
              | None => base end).
  generalize (match filter with
              | Some predicate => List.filter predicate out
              | None => out end).
  intros out1 c1 H1.
  assert (H2 : Yields
            (if 1 <=? skip then new_SkipCursor null c1 skip else c1)
            (if 1 <=? skip then drop (Z.to_nat skip) out1 else out1)).
  { destruct (1 <=? skip); [apply Yields_SkipCursor|]; exact H1. }
  clear H1. revert H2.
  generalize (if 1 <=? skip then new_SkipCursor null c1 skip else c1).
  generalize (if 1 <=? skip then drop (Z.to_nat skip) out1 else out1).
  intros out2 c2 H2.
  destruct (0 <=? count); [apply Yields_LimitCursor|]; exact H2.
Qed.

(** C8. For every token and comment sequence, every filter predicate,
    every skip count [k >= 1] and every limit count [n >= 0], the cursor
    the factory builds (the base cursor decorated with Filter, then Skip,
    then Limit) yields exactly the base cursor's full output filtered by
    the predicate, less its first [k] values, cut to its first [n]
    values; with [n = 0] it yields nothing.  The factory is any one, so
    both the forward and the backward one; "yields" is a run of
    [moveNext] to its first [false], which any sufficient fuel
    completes. *)
Theorem C8_createCursor_filter_skip_limit
    tokens comments indexMap startLoc endLoc includeComments
    (predicate : V -> bool) (k n : Z) (fuel : nat) (out : list V) :
  1 <= k -> 0 <= n ->
  drain fuel (createBaseCursor tokens comments indexMap startLoc endLoc
                includeComments) = Some out ->
  exists fuel0, forall fuel', (fuel0 <= fuel')%nat ->
    drain fuel' (createCursor tokens comments indexMap startLoc endLoc
                   includeComments (Some predicate) k n)
    = Some (take (Z.to_nat n) (drop (Z.to_nat k) (List.filter predicate out)))
    /\ (n = 0 ->
        drain fuel' (createCursor tokens comments indexMap startLoc endLoc
                       includeComments (Some predicate) k n) = Some []).
Proof.
  intros Hk Hn Hbase.
  apply drain_Yields in Hbase.
  apply (createCursor_Yields _ _ _ _ _ _ (Some predicate) k n) in Hbase.
  unfold pipeline in Hbase.
  apply Z.leb_le in Hk as Hk', Hn as Hn'. rewrite Hk', Hn' in Hbase.
  destruct (Yields_drain _ _ Hbase) as [fuel0 Hdrain].
  exists fuel0. intros fuel' Hle. split; [now apply Hdrain|].
  intros ->. rewrite Hdrain by exact Hle. reflexivity.
Qed.

End CursorFacts.

(** *** The exported factories *)
Section FactoryFacts.
Import Cursors.

Context {V : Type}.
Variable null undefined : V.
Variable IndexMap : Type.
Variable getFirstIndex getLastIndex : list V -> IndexMap -> Z -> Z.
Variable CommentCursor : Type.
Variable CommentCursor_moveNext : CommentCursor -> bool * CommentCursor.
Variable CommentCursor_current : CommentCursor -> V.
Variable ForwardTokenCommentCursor BackwardTokenCommentCursor :
  list V -> list V -> IndexMap -> Z -> Z -> CommentCursor.

Local Abbreviation moveNext :=
  (BaseCursor_moveNext undefined CommentCursor CommentCursor_moveNext).
Local Abbreviation current :=
  (BaseCursor_current CommentCursor CommentCursor_current).
Local Abbreviation Yields := (Yields moveNext current).
Local Abbreviation drain := (drain moveNext current).

Lemma seq_shift_map {A : Type} (f : nat -> A) (n : nat) :
  map f (seq 1 n) = map (fun j => f (S j)) (seq 0 n).
Proof. rewrite <- seq_shift, map_map. reflexivity. Qed.

(** The backward token cursor yields its index range downwards and
    stops. *)
Lemma backward_token_Yields (n : nat) :
  forall c : BackwardTokenCursor,
    n = Z.to_nat (bw_index c - bw_indexEnd c + 1) ->
    Yields (Base (OfBackward CommentCursor c))
      (tokens_downto undefined (bw_tokens c) (bw_index c) (bw_indexEnd c)).
Proof.
  induction n as [|n IH]; intros [tokens index indexEnd cur] Hn;
    simpl in Hn; unfold tokens_downto; simpl; rewrite <- Hn.
  - apply (Yields_done _ _ _
             (Base (OfBackward CommentCursor
                      (mkBackward tokens index indexEnd cur))) 1%nat).
    simpl. unfold BackwardTokenCursor_moveNext. simpl.
    destruct (Z.leb_spec indexEnd index); [lia|reflexivity].
  - simpl. rewrite seq_shift_map.
    replace (index - Z.of_nat 0) with index by lia.
    set (c' := mkBackward tokens (index - 1) indexEnd
                 (at_index undefined tokens index)).
    apply (Yields_next moveNext current _
             (Base (OfBackward CommentCursor c')) 1%nat).
    + simpl. unfold BackwardTokenCursor_moveNext. simpl.
      destruct (Z.leb_spec indexEnd index); [reflexivity|lia].
    + specialize (IH c'). simpl in IH. unfold tokens_downto in IH.
      replace (Z.to_nat (index - 1 - indexEnd + 1)) with n in IH by lia.
      erewrite map_ext; [apply IH; reflexivity|].
      intros j. simpl. f_equal. lia.
Qed.

(** The forward token cursor yields its index range upwards and
    stops. *)
Lemma forward_token_Yields (n : nat) :
  forall c : ForwardTokenCursor,
    n = Z.to_nat (fw_indexEnd c - fw_index c + 1) ->
    Yields (Base (OfForward CommentCursor c))
      (tokens_upto undefined (fw_tokens c) (fw_index c) (fw_indexEnd c)).
Proof.
  induction n as [|n IH]; intros [tokens index indexEnd cur] Hn;
    simpl in Hn; unfold tokens_upto; simpl; rewrite <- Hn.
  - apply (Yields_done _ _ _
             (Base (OfForward CommentCursor
                      (mkForward tokens index indexEnd cur))) 1%nat).
    simpl. unfold ForwardTokenCursor_moveNext. simpl.
    destruct (Z.leb_spec index indexEnd); [lia|reflexivity].
  - simpl. rewrite seq_shift_map.
    replace (index + Z.of_nat 0) with index by lia.
    set (c' := mkForward tokens (index + 1) indexEnd
                 (at_index undefined tokens index)).
    apply (Yields_next moveNext current _
             (Base (OfForward CommentCursor c')) 1%nat).
    + simpl. unfold ForwardTokenCursor_moveNext. simpl.
      destruct (Z.leb_spec index indexEnd); [reflexivity|lia].
    + specialize (IH c'). simpl in IH. unfold tokens_upto in IH.
      replace (Z.to_nat (indexEnd - (index + 1) + 1)) with n in IH by lia.
      erewrite map_ext; [apply IH; reflexivity|].
      intros j. simpl. f_equal. lia.
Qed.

(** Over tokens only, the cursors of both exported factories run to
    completion, whatever the options, and yield the eager pipeline of
    their index range. *)
Lemma backward_createCursor tokens comments indexMap startLoc endLoc
    filter skip count :
  exists fuel0, forall fuel, (fuel0 <= fuel)%nat ->
    drain fuel
      (createCursor null IndexMap
         (backward null IndexMap getFirstIndex getLastIndex CommentCursor
            BackwardTokenCommentCursor)
         tokens comments indexMap startLoc endLoc false filter skip count)
    = Some (pipeline filter skip count
              (tokens_downto undefined tokens
                 (getLastIndex tokens indexMap endLoc)
                 (getFirstIndex tokens indexMap startLoc))).
Proof.
  apply Yields_drain, createCursor_Yields. simpl.
  exact (backward_token_Yields _
           (new_BackwardTokenCursor null IndexMap getFirstIndex getLastIndex
              tokens comments indexMap startLoc endLoc) eq_refl).
Qed.

Lemma forward_createCursor tokens comments indexMap startLoc endLoc
    filter skip count :
  exists fuel0, forall fuel, (fuel0 <= fuel)%nat ->
    drain fuel
      (createCursor null IndexMap
         (forward null IndexMap getFirstIndex getLastIndex CommentCursor
            ForwardTokenCommentCursor)
         tokens comments indexMap startLoc endLoc false filter skip count)
    = Some (pipeline filter skip count
              (tokens_upto undefined tokens
                 (getFirstIndex tokens indexMap startLoc)
                 (getLastIndex tokens indexMap endLoc))).
Proof.
  apply Yields_drain, createCursor_Yields. simpl.
  exact (forward_token_Yields _
           (new_ForwardTokenCursor null IndexMap getFirstIndex getLastIndex
              tokens comments indexMap startLoc endLoc) eq_refl).
Qed.

End FactoryFacts.

(** ** The tree walker *)
Section TraverserFacts.
Import JS Traverser.

Variable U : Type.
Variable evk_KEYS : string -> option (list string).
Variable evk_getKeys : Value -> list string.

Local Abbreviation State := (State U).
Local Abbreviation traverseRec := (traverseRec U evk_getKeys).
Local Abbreviation traverse := (traverse U evk_KEYS evk_getKeys).

Lemma unbroken_snoc (evs : list Event) (e : Event) :
  unbroken evs -> calls_break (ev_control e) = false -> unbroken (evs ++ [e]).
Proof.
  intros H He. apply Forall_app. split; [exact H|]. repeat constructor. exact He.
Qed.

Lemma unbroken_break_is_last (evs : list Event) :
  unbroken evs -> break_is_last evs.
Proof.
  intros H pre e post -> Hb.
  apply Forall_app in H as [_ H]. inversion H; subst. congruence.
Qed.

Lemma break_is_last_snoc (evs : list Event) (e : Event) :
  unbroken evs -> break_is_last (evs ++ [e]).
Proof.
  intros H pre e' post Heq Hb.
  destruct post as [|x post] using rev_ind; [reflexivity|]. exfalso.
  clear IHpost.
  rewrite app_comm_cons, app_assoc in Heq.
  apply app_inj_tail in Heq as [-> _].
  apply Forall_app in H as [_ H]. inversion H; subst. congruence.
Qed.

Lemma consistent_break_is_last (st : State) :
  consistent U st -> break_is_last (trace U st).
Proof.
  unfold consistent. destruct (broken U st); [tauto|].
  apply unbroken_break_is_last.
Qed.

(** A callback called on an unbroken walker leaves it consistent. *)
Lemma call_consistent entering cb node parent (st : State) :
  broken U st = false -> consistent U st ->
  consistent U (call U entering cb node parent st).
Proof.
  unfold consistent, call. intros Hb H. rewrite Hb in H.
  destruct (cb _ _ _ _) as [u ctl]. simpl. rewrite Hb. simpl.
  destruct (calls_break ctl) eqn:C.
  - apply break_is_last_snoc. exact H.
  - apply unbroken_snoc; [exact H | exact C].
Qed.

Lemma for_unbroken_consistent {A : Type}
    (body : A -> State -> option State) (items : list A) :
  (forall item st st', In item items ->
      broken U st = false -> consistent U st ->
      body item st = Some st' -> consistent U st') ->
  forall st st', consistent U st ->
    for_unbroken U body items st = Some st' -> consistent U st'.
Proof.
  induction items as [|item rest IH]; intros Hbody st st' Hc H; simpl in H.
  - congruence.
  - destruct (broken U st) eqn:Hb; [congruence|].
    destruct (body item st) as [st1|] eqn:E; [|discriminate].
    apply (IH (fun i s s' Hin => Hbody i s s' (or_intror Hin)) st1 st');
      [|exact H].
    apply (Hbody item st st1); auto. now left.
Qed.

Local Arguments call : simpl never.
Local Arguments set_current : simpl never.
Local Arguments set_parents : simpl never.
Local Arguments set_skipped : simpl never.

Lemma traverseRec_consistent (fuel : nat) :
  forall node parent (st st' : State),
    broken U st = false -> consistent U st ->
    traverseRec fuel node parent st = Some st' -> consistent U st'.
Proof.
  induction fuel as [|fuel IH]; intros node parent st st' Hb Hc H;
    [discriminate|].
  simpl in H. destruct (isNode node); simpl in H; [|congruence].
  set (st0 := set_skipped U false (set_current U node st)) in H.
  assert (Hc1 : consistent U (call U true (enter U st) node parent st0))
    by (apply call_consistent; [exact Hb | exact Hc]).
  set (st1 := call U true (enter U st) node parent st0) in *.
  clearbody st1. clear st st0 Hb Hc.
  assert (Hleave : forall st2 : State, consistent U st2 ->
    consistent U (set_current U parent
      (if negb (broken U st2)
       then call U false (leave U st2) node parent st2 else st2))).
  { intros st2 Hc2. destruct (broken U st2) eqn:B2; simpl.
    - unfold consistent in *. simpl. rewrite B2 in *. exact Hc2.
    - apply (call_consistent false (leave U st2) node parent) in Hc2;
        [|exact B2].
      exact Hc2. }
  destruct (negb (skipped U st1) && negb (broken U st1)) eqn:G.
  2:{ injection H as <-. apply Hleave, Hc1. }
  destruct (length (getVisitorKeys _ _ _)).
  { injection H as <-. apply Hleave, Hc1. }
  match type of H with
  | match match ?loop with _ => _ end with _ => _ end = _ =>
      destruct loop as [st2|] eqn:L; [|discriminate]
  end.
  injection H as <-.
  apply (Hleave (set_parents U (removelast (parents U st2)) st2)).
  apply for_unbroken_consistent in L; [exact L| |exact Hc1].
  intros key s s' _ Bs Cs Hs.
  destruct (child_of node key) as [| | | | |child| |] eqn:Ck;
    try (eapply IH; eassumption).
  apply for_unbroken_consistent in Hs; [exact Hs| |exact Cs].
  intros elem t t' _ Bt Ct Ht. eapply IH; eassumption.
Qed.

(** *** Termination: the depth of the tree is fuel enough *)

Lemma depth_own props key v :
  own props key = Some v -> (depth v < depth (VObject props))%nat.
Proof.
  induction props as [|[k w] rest IH]; simpl; [discriminate|].
  destruct (String.eqb key k).
  - intros [= ->]. lia.
  - intros H. specialize (IH H). simpl in IH. lia.
Qed.

Lemma depth_elem elems e :
  In e elems -> (depth e < depth (VArray elems))%nat.
Proof.
  induction elems as [|x rest IH]; simpl; [tauto|].
  intros [->|H]; [lia|]. specialize (IH H). simpl in IH. lia.
Qed.

Lemma depth_inherited key v :
  own Object_prototype key = Some v -> depth v = 1%nat.
Proof.
  unfold Object_prototype. simpl.
  repeat (destruct (String.eqb key _); [intros [= <-]; reflexivity|]).
  discriminate.
Qed.

Lemma depth_child node key :
  isNode node = true -> (depth (child_of node key) < depth node)%nat.
Proof.
  destruct node as [| | | | | |props|]; try discriminate.
  unfold isNode, child_of, get. intros Hn.
  assert (H2 : (2 <= depth (VObject props))%nat).
  { destruct (own props "type") as [t|] eqn:T.
    - pose proof (depth_own _ _ _ T). destruct t; simpl in *; lia.
    - destruct (own Object_prototype "type") eqn:P; discriminate. }
  destruct (own props key) as [v|] eqn:O.
  - eapply depth_own; eauto.
  - destruct (own Object_prototype key) as [v|] eqn:P.
    + rewrite (depth_inherited _ _ P). lia.
    + simpl. simpl in H2. lia.
Qed.

Lemma for_unbroken_total {A : Type}
    (body : A -> State -> option State) (items : list A) :
  (forall item st, In item items -> exists st', body item st = Some st') ->
  forall st, exists st', for_unbroken U body items st = Some st'.
Proof.
  induction items as [|item rest IH]; intros Hbody st; simpl; [eauto|].
  destruct (broken U st); [eauto|].
  destruct (Hbody item st) as [st1 ->]; [now left|].
  apply IH. intros i s Hin. apply Hbody. now right.
Qed.

Lemma traverseRec_total (fuel : nat) :
  forall node parent (st : State),
    (depth node <= fuel)%nat ->
    exists st', traverseRec fuel node parent st = Some st'.
Proof.
  induction fuel as [|fuel IH]; intros node parent st Hd.
  - destruct node; simpl in Hd; lia.
  - simpl. destruct (isNode node) eqn:Hn; simpl; [|eauto].
    destruct (negb _ && negb _); [|eauto].
    destruct (length (getVisitorKeys _ _ _)); [eauto|].
    match goal with
    | |- context [for_unbroken U ?body ?keys ?s] =>
        destruct (for_unbroken_total body keys) with (st := s) as [st2 ->];
          [|eauto]
    end.
    intros key s _.
    pose proof (depth_child node key Hn) as Hc.
    destruct (child_of node key) as [| | | | |child| |] eqn:Ck;
      try (apply IH; lia).
    apply for_unbroken_total. intros elem t Hin. apply IH.
    pose proof (depth_elem _ _ Hin). lia.
Qed.

(** C9. For every tree and every pair of callbacks, if a call of [enter]
    invokes [break()], no further call of [enter] or [leave] is made in
    that traversal: the call is the last event of the trace, so [leave]
    is called neither for that node nor for any node still open.  The
    traversal itself always completes, on any fuel from the depth of
    the tree on. *)
Theorem C9_break_stops_traversal
    (node : Value) (options : Options U) (u : U) (fuel : nat) :
  (exists st, traverse (fuel + depth node) node options u = Some st)
  /\ forall st, traverse fuel node options u = Some st ->
     forall pre e post,
       trace U st = pre ++ e :: post ->
       ev_enter e = true -> calls_break (ev_control e) = true ->
       post = [].
Proof.
  split.
  - apply traverseRec_total. lia.
  - intros st H pre e post Ht _ Hb.
    apply traverseRec_consistent in H; [|reflexivity|constructor].
    apply consistent_break_is_last in H. eapply H; eauto.
Qed.

End TraverserFacts.

(** ** The rule dispatcher *)
Section DispatchFacts.
Import JS Lint Dispatch.

Variable D Arg ScopeManager : Type.
Variable createReportTranslator : TranslatorMetadata ScopeManager -> D -> Problem.
Variable evk_KEYS : string -> option (list string).
Variable evk_getKeys : Value -> list string.
Variable Generator : Type.
Variable newGenerator :
  bool -> list string -> SourceCode ScopeManager -> Generator.
Variable enterNode leaveNode :
  Generator -> Value -> Generator * list (string * Arg).

Local Abbreviation Rule := (Rule D Arg).
Local Abbreviation SourceCode := (SourceCode ScopeManager).
Local Abbreviation Store := (Store Arg).
Local Abbreviation M := (M Arg).
Local Abbreviation Handler := (Handler Arg).
Local Abbreviation report :=
  (report D Arg ScopeManager createReportTranslator).
Local Abbreviation configureRule :=
  (configureRule D Arg ScopeManager createReportTranslator).
Local Abbreviation runRules :=
  (runRules D Arg ScopeManager createReportTranslator evk_KEYS evk_getKeys
     Generator newGenerator enterNode leaveNode).

(** The node queue is that of a completed traversal. *)
Lemma nodeQueue_of_complete (sourceCode : SourceCode) :
  exists st,
    Traverser.traverse _ evk_KEYS evk_getKeys
      (Traverser.depth (ast _ sourceCode)) (ast _ sourceCode)
      {| Traverser.opt_visitorKeys := visitorKeys _ sourceCode;
         Traverser.opt_enter :=
           Some (fun _ node parent nodeQueue =>
                   (nodeQueue ++ [mkTraversalInfo true node], Traverser.quiet));
         Traverser.opt_leave :=
           Some (fun _ node parent nodeQueue =>
                   (nodeQueue ++ [mkTraversalInfo false node], Traverser.quiet)) |}
      [] = Some st
    /\ nodeQueue_of ScopeManager evk_KEYS evk_getKeys sourceCode
       = Traverser.user _ st.
Proof.
  unfold nodeQueue_of, Traverser.traverse.
  match goal with
  | |- context [Traverser.traverseRec ?U ?g ?f ?n ?p ?s] =>
      destruct (traverseRec_total U g f n p s) as [st H]; [lia|]
  end.
  exists st. rewrite H. split; reflexivity.
Qed.

(** *** Invariants of the store *)
Section Preserved.

Variable Inv : Store -> Prop.

Lemma preserves_ret {A : Type} (a : A) : preserves Arg Inv (ret Arg a).
Proof. intros st H. exact H. Qed.

Lemma preserves_throw {A : Type} (e : Error) :
  preserves Arg Inv (throw Arg e : M A).
Proof. intros st H. exact H. Qed.

Lemma preserves_bind {A B : Type} (m : M A) (k : A -> M B) :
  preserves Arg Inv m -> (forall a, preserves Arg Inv (k a)) ->
  preserves Arg Inv (bind Arg m k).
Proof.
  intros Hm Hk st H. unfold bind. specialize (Hm st H).
  destruct (m st) as [[a|e] st']; simpl in *; [apply Hk|]; exact Hm.
Qed.

Lemma preserves_catch {A : Type} (m : M A) (h : Error -> M A) :
  preserves Arg Inv m -> (forall e, preserves Arg Inv (h e)) ->
  preserves Arg Inv (catch Arg m h).
Proof.
  intros Hm Hh st H. unfold catch. specialize (Hm st H).
  destruct (m st) as [[a|e] st']; simpl in *; [|apply Hh]; exact Hm.
Qed.

Lemma preserves_forEach {A : Type} (body : A -> M unit) (items : list A) :
  (forall item, In item items -> preserves Arg Inv (body item)) ->
  preserves Arg Inv (forEach Arg body items).
Proof.
  induction items as [|item rest IH]; intros Hbody; simpl.
  - apply preserves_ret.
  - apply preserves_bind; [apply Hbody; now left|].
    intros _. apply IH. intros i Hi. apply Hbody. now right.
Qed.

Lemma preserves_run (rep : D -> M unit) (actions : list (Action D)) :
  (forall d, preserves Arg Inv (rep d)) ->
  preserves Arg Inv (run D Arg rep actions).
Proof.
  intros Hrep. induction actions as [|[d|e] rest IH]; simpl.
  - apply preserves_ret.
  - apply preserves_bind; [apply Hrep | intros _; exact IH].
  - apply preserves_throw.
Qed.

(** What the invariant must allow: any push, and the events of the
    rules in [allowed]. *)
Variable allowed : string -> Prop.
Hypothesis Inv_push : forall p, preserves Arg Inv (push Arg p).
Hypothesis Inv_trace :
  forall e, allowed (log_ruleId Arg e) -> preserves Arg Inv (trace Arg e).

Lemma preserves_report ruleId severity rule sourceCode messageIds
    disableFixes d :
  allowed ruleId ->
  preserves Arg Inv
    (report ruleId severity rule sourceCode messageIds disableFixes d).
Proof.
  intros Hr. unfold Dispatch.report.
  apply preserves_bind; [apply Inv_trace; exact Hr|]. intros _.
  repeat match goal with
  | |- preserves _ _ (if ?c then _ else _) => destruct c
  end; auto using @preserves_throw.
Qed.

Local Abbreviation handler_preserves := (handler_preserves Arg Inv).

Lemma preserves_addRuleErrorHandler ruleId selector rep listener arg :
  allowed ruleId -> (forall d, preserves Arg Inv (rep d)) ->
  preserves Arg Inv (addRuleErrorHandler D Arg ruleId selector rep listener arg).
Proof.
  intros Hr Hrep. unfold addRuleErrorHandler.
  apply preserves_catch; [|intros e; apply preserves_throw].
  apply preserves_bind; [apply Inv_trace; exact Hr|].
  intros _. apply preserves_run, Hrep.
Qed.

Lemma preserves_createRuleListeners rule ctx rep :
  allowed (id ctx) -> (forall d, preserves Arg Inv (rep d)) ->
  preserves Arg Inv (createRuleListeners D Arg rule ctx rep).
Proof.
  intros Hr Hrep. unfold createRuleListeners.
  apply preserves_bind; [apply Inv_trace; exact Hr|]. intros _.
  destruct (create rule ctx) as [actions listeners].
  apply preserves_catch; [|intros e; apply preserves_throw].
  apply preserves_bind; [apply preserves_run, Hrep|].
  intros _. apply preserves_ret.
Qed.

(** One configured rule: the invariant is kept, and so is the fact
    that every registered listener keeps it. *)
Lemma configureRule_preserves sourceCode ruleMapper parserName settings
    filename disableFixes physicalFilename emitter entry st :
  (disabled entry = false -> allowed (fst entry)) ->
  Forall handler_preserves emitter ->
  (Inv st ->
   Inv (snd (configureRule sourceCode ruleMapper parserName settings
               filename disableFixes physicalFilename emitter entry st)))
  /\ forall emitter',
       fst (configureRule sourceCode ruleMapper parserName settings
              filename disableFixes physicalFilename emitter entry st)
       = Ok emitter' ->
       Forall handler_preserves emitter'.
Proof.
  intros Hallowed Hem. destruct entry as [ruleId ruleConfig].
  unfold Dispatch.configureRule, disabled in *. simpl in Hallowed.
  destruct (is_number 0 (Severity.getRuleSeverity ruleConfig)).
  { simpl. split; [auto|]. intros em' [= <-]. exact Hem. }
  specialize (Hallowed eq_refl).
  destruct (ruleMapper ruleId) as [rule|].
  - set (rep := report ruleId _ rule sourceCode _ disableFixes).
    assert (Hrep : forall d, preserves Arg Inv (rep d))
      by (intros d; apply preserves_report; exact Hallowed).
    set (ctx := mkRuleContext _ _ _ _ _ _).
    pose proof (preserves_createRuleListeners rule ctx rep Hallowed Hrep st)
      as Hc.
    unfold bind. destruct (createRuleListeners D Arg rule ctx rep st)
      as [[listeners|e] st1]; simpl in *.
    + split; [exact Hc|]. intros em' [= <-].
      apply Forall_app. split; [exact Hem|].
      apply Forall_forall. intros h Hin.
      apply list_elem_of_In, in_map_iff in Hin as ([sel l] & <- & _).
      intros arg. simpl. apply preserves_addRuleErrorHandler; assumption.
    + split; [exact Hc|]. discriminate.
  - unfold bind. simpl. split; [apply (Inv_push _ st)|].
    intros em' [= <-]. exact Hem.
Qed.

Lemma configureRules_preserves sourceCode ruleMapper parserName settings
    filename disableFixes physicalFilename configuredRules :
  (forall entry, In entry configuredRules ->
     disabled entry = false -> allowed (fst entry)) ->
  forall emitter st,
  Forall handler_preserves emitter ->
  (Inv st ->
   Inv (snd (configureRules Arg
               (configureRule sourceCode ruleMapper parserName settings
                  filename disableFixes physicalFilename)
               emitter configuredRules st)))
  /\ forall emitter',
       fst (configureRules Arg
              (configureRule sourceCode ruleMapper parserName settings
                 filename disableFixes physicalFilename)
              emitter configuredRules st)
       = Ok emitter' ->
       Forall handler_preserves emitter'.
Proof.
  induction configuredRules as [|entry rest IH];
    intros Hall emitter st Hem; cbn [configureRules].
  - split; [auto|]. intros em' [= <-]. exact Hem.
  - unfold bind.
    destruct (configureRule_preserves sourceCode ruleMapper parserName
                settings filename disableFixes physicalFilename
                emitter entry st (Hall entry (or_introl eq_refl)) Hem)
      as [H1 H2].
    destruct (configureRule _ _ _ _ _ _ _ emitter entry st)
      as [[em1|e] st1]; cbn [fst snd] in *.
    + destruct (IH (fun en Hin => Hall en (or_intror Hin)) em1 st1
                  (H2 em1 eq_refl)) as [H3 H4].
      split; auto.
    + split; [exact H1|]. discriminate.
Qed.

Lemma preserves_emit emitter eventName arg :
  Forall handler_preserves emitter ->
  preserves Arg Inv (emit Arg emitter eventName arg).
Proof.
  intros Hem. unfold emit. apply preserves_forEach.
  intros h Hin. apply filter_In in Hin as [Hin _].
  rewrite Forall_forall in Hem. apply Hem, list_elem_of_In, Hin.
Qed.

Lemma preserves_dispatch emitter :
  Forall handler_preserves emitter ->
  forall nodeQueue eventGenerator,
    preserves Arg Inv
      (dispatch Arg Generator enterNode leaveNode emitter eventGenerator
         nodeQueue).
Proof.
  intros Hem. induction nodeQueue as [|info rest IH]; intros gen; simpl.
  - apply preserves_ret.
  - destruct (if isEntering info then _ else _) as [gen' emitted].
    apply preserves_bind; [|intros _; apply IH].
    apply preserves_catch; [|intros e; apply preserves_throw].
    apply preserves_forEach. intros ev _. apply preserves_emit, Hem.
Qed.

Lemma preserves_runRules sourceCode configuredRules ruleMapper parserName
    settings filename disableFixes physicalFilename :
  (forall entry, In entry configuredRules ->
     disabled entry = false -> allowed (fst entry)) ->
  preserves Arg Inv
    (runRules sourceCode configuredRules ruleMapper parserName settings
       filename disableFixes physicalFilename).
Proof.
  intros Hall st HI. unfold Dispatch.runRules, bind.
  destruct (configureRules_preserves sourceCode ruleMapper parserName
              settings filename disableFixes physicalFilename
              configuredRules Hall [] st (List.Forall_nil _)) as [H1 H2].
  specialize (H1 HI).
  destruct (configureRules _ _ _ _ _) as [[emitter|e] st1]; simpl in *;
    [|exact H1].
  specialize (H2 emitter eq_refl).
  destruct (nodeQueue_of _ _ _ _) as [|first rest] eqn:Q; [exact H1|].
  match goal with
  | |- context [dispatch Arg Generator enterNode leaveNode emitter ?g ?q] =>
      pose proof (preserves_dispatch emitter H2 q g st1 H1) as Hd;
      destruct (dispatch Arg Generator enterNode leaveNode emitter g q st1)
        as [[[]|e] st2]
  end; exact Hd.
Qed.

End Preserved.

(** *** Rules that are switched off *)

(** A switched-off entry leaves the emitter and the store as they
    are. *)
Lemma configureRule_disabled sourceCode ruleMapper parserName settings
    filename disableFixes physicalFilename emitter entry st :
  disabled entry = true ->
  configureRule sourceCode ruleMapper parserName settings filename
    disableFixes physicalFilename emitter entry st
  = (Ok emitter, st).
Proof.
  destruct entry as [ruleId ruleConfig]. unfold disabled. simpl.
  intros H. unfold Dispatch.configureRule. rewrite H. reflexivity.
Qed.

Lemma configureRules_filter body (keep : string * Value -> bool)
    configuredRules :
  (forall entry emitter st, In entry configuredRules ->
     keep entry = false -> body emitter entry st = (Ok emitter, st)) ->
  forall (emitter : list Handler) st,
    configureRules Arg body emitter configuredRules st
    = configureRules Arg body emitter (List.filter keep configuredRules) st.
Proof.
  induction configuredRules as [|entry rest IH]; intros Hbody emitter st;
    [reflexivity|].
  simpl. destruct (keep entry) eqn:K; simpl; unfold bind.
  - destruct (body emitter entry st) as [[em1|e] st1]; [|reflexivity].
    apply IH. intros en em s Hin. apply Hbody. now right.
  - rewrite (Hbody entry emitter st) by (auto; now left).
    apply IH. intros en em s Hin. apply Hbody. now right.
Qed.

(** The handlers registered by a run of [configureRules] belong to
    rules that are configured and switched on. *)
Lemma configureRules_handlers sourceCode ruleMapper parserName settings
    filename disableFixes physicalFilename configuredRules (P : string -> Prop) :
  (forall entry, In entry configuredRules ->
     disabled entry = false -> P (fst entry)) ->
  forall emitter st emitter',
    Forall (fun h => P (h_ruleId Arg h)) emitter ->
    fst (configureRules Arg
           (configureRule sourceCode ruleMapper parserName settings filename
              disableFixes physicalFilename)
           emitter configuredRules st) = Ok emitter' ->
    Forall (fun h => P (h_ruleId Arg h)) emitter'.
Proof.
  induction configuredRules as [|[ruleId ruleConfig] rest IH];
    intros Hall emitter st emitter' Hem; cbn [configureRules].
  - intros [= <-]. exact Hem.
  - unfold bind.
    destruct (configureRule _ _ _ _ _ _ _ emitter (ruleId, ruleConfig) st)
      as [[em1|e] st1] eqn:E; cbn [fst]; [|discriminate].
    apply IH; [intros en Hin; apply Hall; now right|].
    revert E. unfold Dispatch.configureRule.
    destruct (is_number 0 (Severity.getRuleSeverity ruleConfig)) eqn:S0.
    { intros [= <- <-]. exact Hem. }
    destruct (ruleMapper ruleId) as [rule|]; unfold bind.
    + destruct (createRuleListeners _ _ _ _ _ _) as [[ls|e] s1];
        [|discriminate].
      intros [= <- <-]. apply Forall_app. split; [exact Hem|].
      apply Forall_forall. intros h Hin.
      apply list_elem_of_In, in_map_iff in Hin as (sl & <- & _). simpl.
      apply (Hall (ruleId, ruleConfig)); [now left|exact S0].
    + simpl. intros [= <- <-]. exact Hem.
Qed.

(** C6. A configured rule whose value resolves to severity 0 is skipped
    entirely: in a run of the rules its factory is never called, no
    listener is registered for it, none of its listeners is called and
    it makes no report, so that no event of the run bears its id; and
    the run, with the problems it returns, is the run of the same
    configuration without that rule. *)
Theorem C6_disabled_rule_is_skipped
    sourceCode configuredRules ruleMapper parserName settings filename
    disableFixes physicalFilename (ruleId : string) (st : Store) :
  (forall ruleConfig, In (ruleId, ruleConfig) configuredRules ->
     is_number 0 (Severity.getRuleSeverity ruleConfig) = true) ->
  (exists events,
     log Arg (snd (runRules sourceCode configuredRules ruleMapper parserName
                     settings filename disableFixes physicalFilename st))
     = log Arg st ++ events
     /\ Forall (fun e => log_ruleId Arg e <> ruleId) events)
  /\ (forall emitter,
        fst (configureRules Arg
               (configureRule sourceCode ruleMapper parserName settings
                  filename disableFixes physicalFilename)
               [] configuredRules st) = Ok emitter ->
        Forall (fun h => h_ruleId Arg h <> ruleId) emitter)
  /\ runRules sourceCode configuredRules ruleMapper parserName settings
       filename disableFixes physicalFilename st
     = runRules sourceCode
         (List.filter (fun entry => negb (String.eqb (fst entry) ruleId))
            configuredRules)
         ruleMapper parserName settings filename disableFixes
         physicalFilename st.
Proof.
  intros Hoff.
  assert (Hall : forall entry, In entry configuredRules ->
            disabled entry = false -> fst entry <> ruleId).
  { intros [r c] Hin Hd <-. unfold disabled in Hd. simpl in *.
    rewrite (Hoff c Hin) in Hd. discriminate. }
  split; [|split].
  - apply (preserves_runRules
             (fun st' => exists events,
                log Arg st' = log Arg st ++ events
                /\ Forall (fun e => log_ruleId Arg e <> ruleId) events)
             (fun r => r <> ruleId)).
    + intros p s (evs & E & F). exists evs. simpl. auto.
    + intros e He s (evs & E & F). exists (evs ++ [e]). simpl.
      rewrite E, app_assoc. split; [reflexivity|].
      apply Forall_app. split; [exact F|]. repeat constructor. exact He.
    + exact Hall.
    + exists []. rewrite app_nil_r. split; [reflexivity|constructor].
  - intros emitter H.
    eapply (configureRules_handlers _ _ _ _ _ _ _ _ (fun r => r <> ruleId));
      [exact Hall| |exact H].
    constructor.
  - unfold Dispatch.runRules, bind.
    rewrite (configureRules_filter _
               (fun entry => negb (String.eqb (fst entry) ruleId))).
    + reflexivity.
    + intros [r c] em s Hin K. apply negb_false_iff, String.eqb_eq in K.
      simpl in K. subst r. apply configureRule_disabled.
      unfold disabled. simpl. apply Hoff, Hin.
Qed.

(** *** Rules without a definition *)

Lemma configureRule_missing sourceCode ruleMapper parserName settings
    filename disableFixes physicalFilename emitter ruleId ruleConfig st :
  is_number 0 (Severity.getRuleSeverity ruleConfig) = false ->
  ruleMapper ruleId = None ->
  configureRule sourceCode ruleMapper parserName settings filename
    disableFixes physicalFilename emitter (ruleId, ruleConfig) st
  = (Ok emitter,
     mkStore Arg (lintingProblems Arg st ++ [missing_rule ruleId])
       (log Arg st)).
Proof.
  intros Hs Hm. unfold Dispatch.configureRule. rewrite Hs, Hm. reflexivity.
Qed.

Lemma configureRules_missing sourceCode ruleMapper parserName settings
    filename disableFixes physicalFilename ruleId ruleConfig configuredRules :
  let Inv := fun s : Store =>
    In (missing_rule ruleId) (lintingProblems Arg s) in
  In (ruleId, ruleConfig) configuredRules ->
  is_number 0 (Severity.getRuleSeverity ruleConfig) = false ->
  ruleMapper ruleId = None ->
  forall emitter st emitter',
    Forall (Dispatch.handler_preserves Arg Inv) emitter ->
    fst (configureRules Arg
           (configureRule sourceCode ruleMapper parserName settings filename
              disableFixes physicalFilename)
           emitter configuredRules st) = Ok emitter' ->
    Inv (snd (configureRules Arg
                (configureRule sourceCode ruleMapper parserName settings
                   filename disableFixes physicalFilename)
                emitter configuredRules st))
    /\ Forall (Dispatch.handler_preserves Arg Inv) emitter'.
Proof.
  intros Inv Hin Hs Hm.
  assert (Hpush : forall p, preserves Arg Inv (push Arg p)).
  { intros p s H. unfold Inv. simpl. apply in_or_app. now left. }
  assert (Htrace : forall e : LogEvent Arg,
            True -> preserves Arg Inv (trace Arg e)).
  { intros e _ s H. exact H. }
  induction configuredRules as [|entry rest IH]; [destruct Hin|].
  intros emitter st emitter' Hem. cbn [configureRules]. unfold bind.
  destruct (configureRule_preserves Inv (fun _ => True) Hpush Htrace
              sourceCode ruleMapper parserName settings filename
              disableFixes physicalFilename emitter entry st
              (fun _ => I) Hem) as [_ H2].
  destruct (configureRule _ _ _ _ _ _ _ emitter entry st)
    as [[em1|e] st1] eqn:E; cbn [fst snd] in *; [|discriminate].
  specialize (H2 em1 eq_refl).
  destruct Hin as [->|Hin]; [|now apply IH].
  rewrite configureRule_missing in E by assumption.
  injection E as <- <-. intros H.
  destruct (configureRules_preserves Inv (fun _ => True) Hpush Htrace
              sourceCode ruleMapper parserName settings filename
              disableFixes physicalFilename rest (fun _ _ _ => I) emitter
              (mkStore Arg
                 (lintingProblems Arg st ++ [missing_rule ruleId])
                 (log Arg st)) Hem) as [H3 H4].
  split; [|now apply H4].
  apply H3. unfold Inv. simpl. apply in_or_app. right. now left.
Qed.

(** C7. A configured rule id with a severity other than 0 and no
    registered implementation adds exactly one problem to the list, with
    that id, the message "Definition for rule '<id>' was not found.",
    severity 2, line 1, column 1, end line 1, end column 2 and a null
    node type; the emitter is left as it was and the remaining rules
    are configured next; and a run that returns, returns that
    problem. *)
Theorem C7_missing_rule_definition
    sourceCode ruleMapper parserName settings filename disableFixes
    physicalFilename (ruleId : string) (ruleConfig : Value) :
  is_number 0 (Severity.getRuleSeverity ruleConfig) = false ->
  ruleMapper ruleId = None ->
  missing_rule ruleId
  = {| ruleId := Some ruleId; fatal := false; severity := VNumber 2;
       message := String.append "Definition for rule '"
                    (String.append ruleId "' was not found.");
       line := VNumber 1; column := VNumber 1;
       endLine := VNumber 1; endColumn := VNumber 2;
       nodeType := VNull; fix_ := None; suggestions := None |}
  /\ (forall emitter st rest,
        let st' :=
          mkStore Arg (lintingProblems Arg st ++ [missing_rule ruleId])
            (log Arg st) in
        configureRule sourceCode ruleMapper parserName settings filename
          disableFixes physicalFilename emitter (ruleId, ruleConfig) st
        = (Ok emitter, st')
        /\ configureRules Arg
             (configureRule sourceCode ruleMapper parserName settings
                filename disableFixes physicalFilename)
             emitter ((ruleId, ruleConfig) :: rest) st
           = configureRules Arg
               (configureRule sourceCode ruleMapper parserName settings
                  filename disableFixes physicalFilename)
               emitter rest st')
  /\ (forall configuredRules st problems,
        In (ruleId, ruleConfig) configuredRules ->
        fst (runRules sourceCode configuredRules ruleMapper parserName
               settings filename disableFixes physicalFilename st)
        = Ok problems ->
        In (missing_rule ruleId) problems).
Proof.
  intros Hs Hm. split; [reflexivity|]. split.
  - intros emitter st rest st'. split.
    + now apply configureRule_missing.
    + cbn [configureRules]. unfold bind.
      rewrite configureRule_missing by assumption. reflexivity.
  - intros configuredRules st problems Hin.
    unfold Dispatch.runRules, bind.
    pose proof (configureRules_missing sourceCode ruleMapper parserName
                  settings filename disableFixes physicalFilename ruleId
                  ruleConfig configuredRules Hin Hs Hm [] st) as Hc.
    destruct (configureRules _ _ _ _ _) as [[emitter|e] st1];
      cbn [fst snd] in *; [|discriminate].
    destruct (Hc emitter (List.Forall_nil _) eq_refl) as [H1 H2].
    destruct (nodeQueue_of _ _ _ _) as [|first rest]; [discriminate|].
    match goal with
    | |- context [dispatch Arg Generator enterNode leaveNode emitter ?g ?q] =>
        pose proof (preserves_dispatch _ emitter H2 q g st1 H1) as Hd;
        destruct (dispatch Arg Generator enterNode leaveNode emitter g q st1)
          as [[[]|e] st2]
    end; cbn [fst snd] in *; [|discriminate].
    intros [= <-]. exact Hd.
Qed.

(** *** Reports that the rule's [meta] does not allow *)

Lemma clean_snoc (events : list (LogEvent Arg)) (e : LogEvent Arg) :
  clean Arg events ->
  (forall ruleId meta problem,
     e = LReport Arg ruleId meta problem -> violates meta problem = false) ->
  clean Arg (events ++ [e]).
Proof.
  intros Hc He r m p Hin. apply in_app_or in Hin as [Hin|[->|[]]].
  - eapply Hc, Hin.
  - eapply He. reflexivity.
Qed.

(** What [report] does, by whether the translated problem is a
    violation: it always logs the call; then it throws and leaves the
    problems as they are, or it pushes the problem. *)
Lemma report_spec ruleId severity (rule : Rule) sourceCode messageIds
    disableFixes d st :
  let problem :=
    createReportTranslator
      (mkTranslatorMetadata ScopeManager ruleId severity sourceCode
         messageIds disableFixes) d in
  let logged := log Arg st ++ [LReport Arg ruleId (meta rule) problem] in
  if violates (meta rule) problem then
    exists e,
      report ruleId severity rule sourceCode messageIds disableFixes d st
      = (Throw e, mkStore Arg (lintingProblems Arg st) logged)
  else
    report ruleId severity rule sourceCode messageIds disableFixes d st
    = (Ok tt, mkStore Arg (lintingProblems Arg st ++ [problem]) logged).
Proof.
  intros problem logged. unfold Dispatch.report, violates, bind, trace.
  fold problem. cbn [fst snd].
  destruct (has (fix_ problem)
            && negb (truthy (member_opt (meta rule) "fixable"))); simpl.
  - eexists. reflexivity.
  - destruct (has (suggestions problem) && negb _); simpl.
    + destruct (truthy (meta rule) && _ && _); eexists; reflexivity.
    + reflexivity.
Qed.

Lemma safe_ret {A : Type} (a : A) : safe Arg (ret Arg a).
Proof. intros st H. exact H. Qed.

Lemma safe_throw {A : Type} (e : Error) : safe Arg (throw Arg e : M A).
Proof. intros st H. exact I. Qed.

Lemma safe_bind {A B : Type} (m : M A) (k : A -> M B) :
  safe Arg m -> (forall a, safe Arg (k a)) -> safe Arg (bind Arg m k).
Proof.
  intros Hm Hk st H. unfold bind. specialize (Hm st H).
  destruct (m st) as [[a|e] st']; [apply Hk, Hm|exact I].
Qed.

(** A handler that throws again keeps a computation safe. *)
Lemma safe_catch {A : Type} (m : M A) (h : Error -> M A) :
  safe Arg m -> (forall e st, is_Throw (fst (h e st)) = true) ->
  safe Arg (catch Arg m h).
Proof.
  intros Hm Hh st H. unfold catch. specialize (Hm st H).
  destruct (m st) as [[a|e] st']; [exact Hm|].
  specialize (Hh e st'). destruct (h e st') as [[a|e'] st'']; [discriminate|].
  exact I.
Qed.

Lemma safe_forEach {A : Type} (body : A -> M unit) (items : list A) :
  (forall item, In item items -> safe Arg (body item)) ->
  safe Arg (forEach Arg body items).
Proof.
  induction items as [|item rest IH]; intros Hbody; simpl.
  - apply safe_ret.
  - apply safe_bind; [apply Hbody; now left|].
    intros _. apply IH. intros i Hi. apply Hbody. now right.
Qed.

Lemma safe_trace (e : LogEvent Arg) :
  (forall ruleId meta problem,
     e = LReport Arg ruleId meta problem -> violates meta problem = false) ->
  safe Arg (trace Arg e).
Proof. intros He st H. simpl. now apply clean_snoc. Qed.

Lemma safe_report ruleId severity rule sourceCode messageIds disableFixes d :
  safe Arg (report ruleId severity rule sourceCode messageIds disableFixes d).
Proof.
  intros st H.
  pose proof (report_spec ruleId severity rule sourceCode messageIds
                disableFixes d st) as S. cbv zeta in S.
  destruct (violates _ _) eqn:V.
  - destruct S as [e ->]. exact I.
  - rewrite S. simpl. apply clean_snoc; [exact H|].
    intros r m p [= <- <- <-]. exact V.
Qed.

Lemma safe_run (rep : D -> M unit) (actions : list (Action D)) :
  (forall d, safe Arg (rep d)) -> safe Arg (run D Arg rep actions).
Proof.
  intros Hrep. induction actions as [|[d|e] rest IH]; simpl.
  - apply safe_ret.
  - apply safe_bind; [apply Hrep | intros _; exact IH].
  - apply safe_throw.
Qed.

Local Abbreviation handler_safe := (handler_safe Arg).

Lemma safe_configureRule sourceCode ruleMapper parserName settings filename
    disableFixes physicalFilename emitter entry st :
  Forall handler_safe emitter -> clean Arg (log Arg st) ->
  match configureRule sourceCode ruleMapper parserName settings filename
          disableFixes physicalFilename emitter entry st with
  | (Ok emitter', st') =>
      clean Arg (log Arg st') /\ Forall handler_safe emitter'
  | (Throw _, _) => True
  end.
Proof.
  intros Hem Hc. destruct entry as [ruleId ruleConfig].
  unfold Dispatch.configureRule.
  destruct (is_number 0 _); [simpl; auto|].
  destruct (ruleMapper ruleId) as [rule|]; [|simpl; auto].
  set (rep := report ruleId _ rule sourceCode _ disableFixes).
  assert (Hrep : forall d, safe Arg (rep d))
    by (intros d; apply safe_report).
  set (ctx := mkRuleContext _ _ _ _ _ _).
  assert (Hcreate : safe Arg (createRuleListeners D Arg rule ctx rep)).
  { unfold createRuleListeners.
    apply safe_bind; [apply safe_trace; discriminate|]. intros _.
    destruct (create rule ctx) as [actions listeners].
    apply safe_catch; [|reflexivity].
    apply safe_bind; [apply safe_run, Hrep|]. intros _. apply safe_ret. }
  specialize (Hcreate st Hc). unfold bind.
  destruct (createRuleListeners D Arg rule ctx rep st) as [[ls|e] st1];
    [|exact I].
  simpl. split; [exact Hcreate|].
  apply Forall_app. split; [exact Hem|].
  apply Forall_forall. intros h Hin.
  apply list_elem_of_In, in_map_iff in Hin as ([sel l] & <- & _).
  intros arg. simpl. unfold addRuleErrorHandler.
  apply safe_catch; [|reflexivity].
  apply safe_bind; [apply safe_trace; discriminate|].
  intros _. apply safe_run, Hrep.
Qed.

Lemma safe_configureRules sourceCode ruleMapper parserName settings filename
    disableFixes physicalFilename configuredRules :
  forall emitter st,
  Forall handler_safe emitter -> clean Arg (log Arg st) ->
  match configureRules Arg
          (configureRule sourceCode ruleMapper parserName settings filename
             disableFixes physicalFilename)
          emitter configuredRules st with
  | (Ok emitter', st') =>
      clean Arg (log Arg st') /\ Forall handler_safe emitter'
  | (Throw _, _) => True
  end.
Proof.
  induction configuredRules as [|entry rest IH]; intros emitter st Hem Hc;
    cbn [configureRules].
  - simpl. auto.
  - unfold bind.
    pose proof (safe_configureRule sourceCode ruleMapper parserName settings
                  filename disableFixes physicalFilename emitter entry st
                  Hem Hc) as H.
    destruct (configureRule _ _ _ _ _ _ _ emitter entry st)
      as [[em1|e] st1]; [|exact I].
    destruct H as [H1 H2]. now apply IH.
Qed.

Lemma safe_dispatch emitter :
  Forall handler_safe emitter ->
  forall nodeQueue eventGenerator,
    safe Arg (dispatch Arg Generator enterNode leaveNode emitter
                eventGenerator nodeQueue).
Proof.
  intros Hem. induction nodeQueue as [|info rest IH]; intros gen; simpl.
  - apply safe_ret.
  - destruct (if isEntering info then _ else _) as [gen' emitted].
    apply safe_bind; [|intros _; apply IH].
    apply safe_catch; [|reflexivity].
    apply safe_forEach. intros ev _. unfold emit.
    apply safe_forEach. intros h Hin. apply filter_In in Hin as [Hin _].
    rewrite Forall_forall in Hem. apply Hem, list_elem_of_In, Hin.
Qed.

(** A run of the rules that returns made no report that the rule's
    [meta] does not allow; one that made such a report has thrown. *)
Lemma safe_runRules sourceCode configuredRules ruleMapper parserName
    settings filename disableFixes physicalFilename :
  safe Arg (runRules sourceCode configuredRules ruleMapper parserName
              settings filename disableFixes physicalFilename).
Proof.
  intros st Hc. unfold Dispatch.runRules, bind.
  pose proof (safe_configureRules sourceCode ruleMapper parserName settings
                filename disableFixes physicalFilename configuredRules
                [] st (List.Forall_nil _) Hc) as H.
  destruct (configureRules _ _ _ _ _) as [[emitter|e] st1]; [|exact I].
  destruct H as [H1 H2].
  destruct (nodeQueue_of _ _ _ _) as [|first rest]; [exact I|].
  match goal with
  | |- context [dispatch Arg Generator enterNode leaveNode emitter ?g ?q] =>
      pose proof (safe_dispatch emitter H2 q g st1 H1) as Hd;
      destruct (dispatch Arg Generator enterNode leaveNode emitter g q st1)
        as [[[]|e] st2]
  end; [exact Hd|exact I].
Qed.

End DispatchFacts.

(** ** The autofix loop *)
Section AutofixFacts.
Import JS Lint Linter.

Variable applyFixes : string -> list Problem -> ShouldFix -> FixResult.
Variable verify : string -> Result (list Problem).
Variable shouldFix : ShouldFix.

Local Abbreviation autofixLoop := (autofixLoop applyFixes verify shouldFix).
Local Abbreviation verifyAndFixWith :=
  (verifyAndFixWith applyFixes verify shouldFix).
Local Abbreviation chain := (chain applyFixes verify shouldFix).

Lemma chain_snoc (ps : list Pass) :
  forall text p,
    chain text ps ->
    (forall q, last ps = Some q ->
       stopped q = false /\ fixed (pass_patch q) = true) ->
    pass_text p = latest_text text ps ->
    verify (pass_text p) = Ok (pass_messages p) ->
    pass_patch p = applyFixes (pass_text p) (pass_messages p) shouldFix ->
    chain text (ps ++ [p]).
Proof.
  induction ps as [|q rest IH]; intros text p Hc Hlast Ht Hv Hp; simpl in *.
  - unfold latest_text in Ht. simpl in Ht. subst text. rewrite <- Hp.
    split; [reflexivity|]. split; [exact Hv|]. split; [reflexivity|].
    split; [congruence|exact I].
  - destruct Hc as (H1 & H2 & H3 & H4 & H5).
    assert (Hq : stopped q = false /\ fixed (pass_patch q) = true).
    { destruct rest as [|r rest']; [apply Hlast; reflexivity|].
      apply H4. discriminate. }
    split; [exact H1|]. split; [exact H2|]. split; [exact H3|].
    split; [intros _; exact Hq|].
    apply IH; auto.
    + intros r Hr. apply Hlast. destruct rest; [discriminate|exact Hr].
    + rewrite Ht. unfold latest_text. simpl. unfold applied.
      destruct Hq as [-> _]. reflexivity.
Qed.

Lemma latest_text_snoc text ps p :
  latest_text text (ps ++ [p])
  = if applied p then output (pass_patch p) else latest_text text ps.
Proof. unfold latest_text. rewrite fold_left_app. reflexivity. Qed.

Lemma any_fixed_snoc ps p :
  any_fixed (ps ++ [p]) = any_fixed ps || (applied p && fixed (pass_patch p)).
Proof. unfold any_fixed. rewrite existsb_app. simpl. now rewrite orb_false_r. Qed.

(** The loop, from any round on: [done] are the passes made so far,
    from the text [text0]. *)
Lemma autofixLoop_spec (fuel : nat) :
  forall fixed0 passNumber currentText done text0,
    (MAX_AUTOFIX_PASSES <= fuel + passNumber)%nat ->
    (passNumber < MAX_AUTOFIX_PASSES)%nat ->
    passNumber = length done ->
    chain text0 done ->
    (forall q, last done = Some q ->
       stopped q = false /\ fixed (pass_patch q) = true) ->
    currentText = latest_text text0 done ->
    fixed0 = any_fixed done ->
    match autofixLoop fuel fixed0 passNumber currentText done with
    | None => False
    | Some (Throw e) => exists t, verify t = Throw e
    | Some (Ok x) =>
        exists p,
          last (x_passes x) = Some p
          /\ x_fixedResult x = pass_patch p
          /\ chain text0 (x_passes x)
          /\ x_passNumber x = length (x_passes x)
          /\ (x_passNumber x <= MAX_AUTOFIX_PASSES)%nat
          /\ x_currentText x = latest_text text0 (x_passes x)
          /\ x_fixed x = any_fixed (x_passes x)
    end.
Proof.
  induction fuel as [|fuel IH];
    intros fixed0 n currentText done text0 Hfuel Hn Hlen Hc Hlast Ht Hf.
  - simpl in Hfuel. lia.
  - simpl. destruct (verify currentText) as [messages|e] eqn:V; [|eauto].
    set (fixedResult := applyFixes currentText messages shouldFix).
    set (p := mkPass currentText messages fixedResult).
    assert (Hc' : chain text0 (done ++ [p])).
    { apply chain_snoc; auto. }
    assert (Hl : last (done ++ [p]) = Some p) by apply last_snoc.
    assert (Hlen' : S n = length (done ++ [p])).
    { rewrite length_app. simpl. lia. }
    destruct (lone_fatal messages) eqn:LF.
    + exists p. simpl. repeat split; auto; try lia.
      * rewrite latest_text_snoc. unfold applied, stopped. simpl.
        rewrite LF. exact Ht.
      * rewrite any_fixed_snoc. unfold applied, stopped. simpl.
        rewrite LF. simpl. now rewrite orb_false_r.
    + assert (Ht' : output fixedResult = latest_text text0 (done ++ [p])).
      { rewrite latest_text_snoc. unfold applied, stopped. simpl.
        now rewrite LF. }
      assert (Hf' : fixed0 || fixed fixedResult = any_fixed (done ++ [p])).
      { rewrite any_fixed_snoc. unfold applied, stopped. simpl.
        rewrite LF. simpl. now rewrite Hf. }
      destruct (fixed fixedResult) eqn:F; simpl.
      * destruct (S n <? MAX_AUTOFIX_PASSES)%nat eqn:B.
        -- apply Nat.ltb_lt in B.
           apply IH; auto; try lia.
           intros q Hq. rewrite Hl in Hq. injection Hq as <-.
           unfold stopped. simpl. auto.
        -- exists p. simpl. repeat split; auto; lia.
      * exists p. simpl. repeat split; auto; lia.
Qed.

(** What [verifyAndFix] returns, for any verification of a text. *)
Lemma verifyAndFixWith_spec (text : string) :
  match verifyAndFixWith text with
  | None => False
  | Some (Throw e) => exists t, verify t = Throw e
  | Some (Ok out) =>
      (1 <= length (passes out) <= MAX_AUTOFIX_PASSES)%nat
      /\ chain text (passes out)
      /\ output (result out) = latest_text text (passes out)
      /\ fixed (result out) = any_fixed (passes out)
      /\ exists p,
           last (passes out) = Some p
           /\ reverified out = fixed (pass_patch p)
           /\ if reverified out
              then verify (output (result out)) = Ok (messages (result out))
              else messages (result out) = messages (pass_patch p)
  end.
Proof.
  unfold Linter.verifyAndFixWith.
  pose proof (autofixLoop_spec MAX_AUTOFIX_PASSES false 0%nat text [] text)
    as H.
  destruct (autofixLoop _ _ _ _ _) as [[x|e]|].
  - destruct H as (p & Hl & Hr & Hc & Hn & Hmax & Ht & Hf);
      try reflexivity; try (unfold MAX_AUTOFIX_PASSES; lia);
      try discriminate.
    assert (Hpos : (1 <= length (x_passes x))%nat).
    { destruct (x_passes x); [discriminate|simpl; lia]. }
    rewrite Hr. destruct (fixed (pass_patch p)) eqn:F.
    + destruct (verify (x_currentText x)) as [msgs|e] eqn:V; [|eauto].
      simpl. repeat split; auto; try lia.
      exists p. rewrite F. repeat split; auto.
    + simpl. repeat split; auto; try lia.
      exists p. rewrite F. repeat split; auto.
  - apply H; try reflexivity; try (unfold MAX_AUTOFIX_PASSES; lia);
      discriminate.
  - apply H; try reflexivity; try (unfold MAX_AUTOFIX_PASSES; lia);
      discriminate.
Qed.

(** A first pass that finds one fatal problem ends the loop. *)
Lemma verifyAndFixWith_fatal (text : string) (m : Problem) :
  verify text = Ok [m] -> fatal m = true ->
  (fixed (applyFixes text [m] shouldFix) = false ->
   messages (applyFixes text [m] shouldFix) = [m]) ->
  exists out,
    verifyAndFixWith text = Some (Ok out)
    /\ passes out = [mkPass text [m] (applyFixes text [m] shouldFix)]
    /\ messages (result out) = [m]
    /\ output (result out) = text
    /\ fixed (result out) = false.
Proof.
  intros V F Hpatch. unfold Linter.verifyAndFixWith, MAX_AUTOFIX_PASSES.
  cbn [Linter.autofixLoop]. rewrite V. cbn [lone_fatal]. rewrite F.
  cbn [x_fixedResult x_fixed x_currentText x_passes].
  destruct (fixed (applyFixes text [m] shouldFix)) eqn:P.
  - rewrite V. eexists. split; [reflexivity|]. simpl. auto.
  - eexists. split; [reflexivity|]. simpl. auto.
Qed.

End AutofixFacts.

(** ** The linter *)
Section LinterFacts.
Import JS Lint Dispatch Linter.

Variable D Arg ScopeManager : Type.
Variable createReportTranslator : TranslatorMetadata ScopeManager -> D -> Problem.
Variable evk_KEYS : string -> option (list string).
Variable evk_getKeys : Value -> list string.
Variable Generator : Type.
Variable newGenerator :
  bool -> list string -> SourceCode ScopeManager -> Generator.
Variable enterNode leaveNode :
  Generator -> Value -> Generator * list (string * Arg).
Variable espree : Parser ScopeManager.
Variable espree_latestEcmaVersion : Z.
Variable replaceShebang : string -> string.
Variable stripLineNumber : string -> string.
Variable resolveParserOptions : Value -> Value.
Variable analyzeScope : Value -> ScopeManager.
Variable lineOf : Value -> string.
Variable applyDisableDirectives :
  list DisableDirective -> bool -> list Problem -> string -> list Problem.
Variable applyFixes : string -> list Problem -> ShouldFix -> FixResult.

Local Abbreviation Slots := (Slots D Arg ScopeManager).
Local Abbreviation ConfigData := (ConfigData ScopeManager).
Local Abbreviation verifyWithoutProcessors :=
  (verifyWithoutProcessors D Arg ScopeManager createReportTranslator
     evk_KEYS evk_getKeys Generator newGenerator enterNode leaveNode
     espree espree_latestEcmaVersion replaceShebang stripLineNumber
     resolveParserOptions analyzeScope lineOf applyDisableDirectives).
Local Abbreviation verifyWithConfigArray :=
  (verifyWithConfigArray D Arg ScopeManager createReportTranslator
     evk_KEYS evk_getKeys Generator newGenerator enterNode leaveNode
     espree espree_latestEcmaVersion replaceShebang stripLineNumber
     resolveParserOptions analyzeScope lineOf applyDisableDirectives).
Local Abbreviation verifyAndFix :=
  (verifyAndFix D Arg ScopeManager createReportTranslator
     evk_KEYS evk_getKeys Generator newGenerator enterNode leaveNode
     espree espree_latestEcmaVersion replaceShebang stripLineNumber
     resolveParserOptions analyzeScope lineOf applyDisableDirectives
     applyFixes).


(** C2. When the verification of the input text yields exactly one
    problem and it is fatal, [verifyAndFix] makes that one pass and no
    other, and returns that one problem as [messages], the input text
    as [output] and [fixed] false.  The patcher is a collaborator
    outside the sources: a round of it that applies nothing is taken to
    hand back the problem it was given. *)
Theorem C2_verifyAndFix_fatal
    (slots : Slots) (text : string) (config : Value)
    (options : option VerifyOptions) (m : Problem) :
  fst (verifyWithConfigArray slots (inl text) config options) = Ok [m] ->
  fatal m = true ->
  (fixed (applyFixes text [m] (shouldFix_of options)) = false ->
   messages (applyFixes text [m] (shouldFix_of options)) = [m]) ->
  exists out,
    verifyAndFix slots text config options = Some (Ok out)
    /\ length (passes out) = 1%nat
    /\ messages (result out) = [m]
    /\ output (result out) = text
    /\ fixed (result out) = false.
Proof.
  intros V F Hpatch.
  destruct (verifyAndFixWith_fatal applyFixes
              (fun t => fst (verifyWithConfigArray slots (inl t) config options))
              (shouldFix_of options) text m V F Hpatch)
    as (out & H1 & H2 & H3 & H4 & H5).
  exists out. split; [exact H1|]. rewrite H2. auto.
Qed.

(** A text the parser rejects yields exactly one problem, fatal and
    without an edit. *)
Lemma parse_failure_is_lone_fatal (slots : Slots) (text : string)
    (config : ConfigData) (options : VerifyOptions)
    (name : string) (definition : Parser ScopeManager)
    ex_message ex_line ex_column :
  (parser ScopeManager config = ParserObject ScopeManager name definition
   \/ parser ScopeManager config = ParserOther ScopeManager
      /\ definition = espree) ->
  (forall parserOptions,
     definition (replaceShebang text) parserOptions
     = ParseThrows ScopeManager ex_message ex_line ex_column) ->
  exists m,
    verifyWithoutProcessors slots (inl text) (Some config) (Some options)
    = (Ok [m], [])
    /\ fatal m = true /\ fix_ m = None /\ severity m = VNumber 2.
Proof.
  intros Hp Hthrow. unfold Linter.verifyWithoutProcessors.
  cbn [normalizeVerifyOptions default from_option]. unfold Datatypes.id.
  destruct Hp as [Hp | [Hp ->]]; rewrite Hp;
    unfold Linter.parse; cbn [lo_parser createLanguageOptions];
    rewrite Hthrow; eexists; (split; [reflexivity|]); simpl; auto.
Qed.

(** A verification that made a report the rule's [meta] does not
    allow has thrown. *)
Lemma verifyWithoutProcessors_safe (slots : Slots) textOrSourceCode
    (config : option ConfigData) (options : option VerifyOptions) :
  is_Throw (fst (verifyWithoutProcessors slots textOrSourceCode config options))
  = false ->
  clean Arg (snd (verifyWithoutProcessors slots textOrSourceCode config options)).
Proof.
  assert (Hnil : clean Arg []) by (intros r m p []).
  unfold Linter.verifyWithoutProcessors.
  destruct (normalizeVerifyOptions _ _ _) as [opts|e]; [|intros _; exact Hnil].
  match goal with
  | |- context [match ?resolved with inl _ => _ | inr _ => _ end] =>
      destruct resolved as [problem|[parserName theParser]]
  end; [intros _; exact Hnil|].
  match goal with
  | |- context [match ?parsed with inl _ => _ | inr _ => _ end] =>
      destruct parsed as [error|sourceCode]
  end; [intros _; exact Hnil|].
  match goal with
  | |- context [runRules ?a ?b ?c ?d ?e ?f ?g ?h ?i ?j ?sc ?cr ?rm ?pn ?se
                  ?fn ?df ?pf ?st] =>
      pose proof (safe_runRules D Arg ScopeManager createReportTranslator
                    evk_KEYS evk_getKeys Generator newGenerator enterNode
                    leaveNode sc cr rm pn se fn df pf st Hnil) as H;
      destruct (runRules a b c d e f g h i j sc cr rm pn se fn df pf st)
        as [[problems|err] st']
  end; cbn [fst snd is_Throw]; [intros _; exact H|discriminate].
Qed.



(** C10, at the input where it fails.  With the options argument left
    out, the first pass throws a [TypeError]: the options are read for
    [allowInlineConfig] before anything is verified. *)
Theorem C10_verifyAndFix_options_omitted
    (slots : Slots) (text : string) (config : Value) :
  exists e,
    verifyAndFix slots text config None = Some (Throw e)
    /\ err_name e = "TypeError".
Proof.
  unfold Linter.verifyAndFix, Linter.verifyAndFixWith, MAX_AUTOFIX_PASSES.
  cbn [Linter.autofixLoop]. unfold Linter.verifyWithConfigArray.
  destruct config as [| |b|z|s'|l|props|f]; cbn [member bindR];
    try (eexists; split; reflexivity).
  all: repeat match goal with
       | |- context [member ?v ?k] =>
           destruct v; cbn [member bindR fst]
       end; eexists; split; reflexivity.
Qed.

(** With an options object, leaving [fix] out is the same as passing
    [fix: true]. *)
Lemma verifyAndFix_fix_absent (slots : Slots) (text : string)
    (config : Value) a b c d e :
  verifyAndFix slots text config (Some (mkVerifyOptions a b c d e None))
  = verifyAndFix slots text config
      (Some (mkVerifyOptions a b c d e (Some (FixBool true)))).
Proof. reflexivity. Qed.

End LinterFacts.

(** ** The small linter at work *)
Section SampleFacts.
Import JS Lint Dispatch Linter Sample.

Example verify_reports_program :
  fst (verifyWithConfigArray
         (linter_with (reporter VUndefined (descriptor None None)))
         (inl "x") (config_with (VString "warn")) (Some no_options))
  = Ok [createReportTranslator
          (mkTranslatorMetadata unit "no-program" (VNumber 1) source
             VUndefined false)
          (descriptor None None)].
Proof. vm_compute. reflexivity. Qed.

(** A rule configured with the string ["constructor"] is run, and its
    problems carry the inherited function as their severity. *)
Example verify_constructor_severity :
  exists problem,
    fst (verifyWithConfigArray
           (linter_with (reporter VUndefined (descriptor None None)))
           (inl "x") (config_with (VString "constructor")) (Some no_options))
    = Ok [problem]
    /\ severity problem = VFunction "Object".
Proof. eexists. split; [vm_compute; reflexivity|]. reflexivity. Qed.

Example nodeQueue_of_program :
  map (fun info => (isEntering info, Traverser.type_of (node info)))
    (nodeQueue_of unit evk_KEYS evk_getKeys source)
  = [(true, "Program"); (true, "EmptyStatement");
     (false, "EmptyStatement"); (false, "Program")].
Proof. reflexivity. Qed.

(** A text that needs one rewrite: two passes, and the messages of the
    rewritten text. *)
Example verifyAndFix_converges :
  exists out,
    verifyAndFix (linter_with make_y) "x" (config_with (VNumber 2))
      (Some no_options) = Some (Ok out)
    /\ length (passes out) = 2%nat
    /\ result out = {| fixed := true; messages := []; output := "y" |}.
Proof. eexists. split; [vm_compute; reflexivity|]. split; reflexivity. Qed.

(** A rule whose edit never removes its finding: the loop stops at the
    cap of ten passes. *)
Example verifyAndFix_cap :
  exists out,
    verifyAndFix
      (linter_with (reporter (VObject [("fixable", VString "code")])
                      (descriptor (Some edit_y) None)))
      "x" (config_with (VNumber 2)) (Some no_options) = Some (Ok out)
    /\ length (passes out) = 10%nat
    /\ fixed (result out) = true
    /\ output (result out) = "y"
    /\ reverified out = true.
Proof. eexists. split; [vm_compute; reflexivity|]. repeat split. Qed.

(** With an options object that asks for fixes the call returns, where
    the call without options throws. *)
Example verifyAndFix_with_options :
  exists out,
    verifyAndFix (linter_with make_y) "x" (config_with (VNumber 2))
      (Some {| allowInlineConfig := VUndefined; disableFixes := VUndefined;
               opt_filename := None;
               opt_reportUnusedDisableDirectives := VUndefined;
               opt_physicalFilename := None;
               opt_fix := Some (FixBool true) |})
    = Some (Ok out)
    /\ output (result out) = "y".
Proof. eexists. split; [vm_compute; reflexivity|]. reflexivity. Qed.

(** *** The theorems above at concrete inputs *)

Lemma C8_createCursor_witness :
  1 <= 1 /\ 0 <= 2
  /\ exists fuel0, forall fuel', (fuel0 <= fuel')%nat ->
       Cursors.drain base_moveNext base_current fuel'
         (Cursors.createCursor (-1) unit backward [10; 11; 12; 13; 14; 15]
            [] tt 0 5 false (Some Z.even) 1 2)
       = Some (take (Z.to_nat 2)
                 (drop (Z.to_nat 1)
                    (List.filter Z.even [15; 14; 13; 12; 11; 10])))
       /\ (2 = 0 ->
           Cursors.drain base_moveNext base_current fuel'
             (Cursors.createCursor (-1) unit backward
                [10; 11; 12; 13; 14; 15] [] tt 0 5 false (Some Z.even) 1 2)
           = Some []).
Proof.
  split; [lia|]. split; [lia|].
  apply (C8_createCursor_filter_skip_limit (-1) (Cursors.BaseCursor unit)
           base_moveNext base_current unit backward
           [10; 11; 12; 13; 14; 15] [] tt 0 5 false Z.even 1 2 8%nat
           [15; 14; 13; 12; 11; 10]);
    [lia | lia | vm_compute; reflexivity].
Defined.

Lemma C9_break_witness :
  exists st e,
    Traverser.traverse unit evk_KEYS evk_getKeys 3 (program "x") breaking tt
    = Some st
    /\ Traverser.ev_enter e = true
    /\ Traverser.calls_break (Traverser.ev_control e) = true
    /\ In e (Traverser.trace unit st)
    /\ forall pre post,
         Traverser.trace unit st = pre ++ e :: post -> post = [].
Proof.
  eexists. eexists.
  split; [vm_compute; reflexivity|].
  split; [|split; [|split]];
    [| |right; left; reflexivity|]; [reflexivity|reflexivity|].
  intros pre post Ht.
  eapply (proj2 (C9_break_stops_traversal unit evk_KEYS evk_getKeys
                   (program "x") breaking tt 3));
    [vm_compute; reflexivity | exact Ht | reflexivity | reflexivity].
Defined.

Lemma C6_disabled_rule_witness :
  (forall ruleConfig,
     In ("no-program", ruleConfig)
        [("no-program", VString "OFF"); ("no-other", VNumber 2)] ->
     is_number 0 (Severity.getRuleSeverity ruleConfig) = true)
  /\ runRules source
       [("no-program", VString "OFF"); ("no-other", VNumber 2)]
       (fun ruleId =>
          ruleMap _ _ _
            (linter_with (reporter VUndefined (descriptor None None)))
          !! ruleId)
       "espree" (VObject []) "<input>" false None empty_store
     = runRules source
         (List.filter
            (fun entry => negb (String.eqb (fst entry) "no-program"))
            [("no-program", VString "OFF"); ("no-other", VNumber 2)])
         (fun ruleId =>
            ruleMap _ _ _
              (linter_with (reporter VUndefined (descriptor None None)))
            !! ruleId)
         "espree" (VObject []) "<input>" false None empty_store.
Proof.
  assert (H : forall ruleConfig,
            In ("no-program", ruleConfig)
               [("no-program", VString "OFF"); ("no-other", VNumber 2)] ->
            is_number 0 (Severity.getRuleSeverity ruleConfig) = true).
  { intros ruleConfig [[= <-]|[[=]|[]]]. reflexivity. }
  split; [exact H|].
  exact (proj2 (proj2
    (C6_disabled_rule_is_skipped Problem Value unit createReportTranslator
       evk_KEYS evk_getKeys unit (fun _ _ _ => tt) enterNode leaveNode
       source [("no-program", VString "OFF"); ("no-other", VNumber 2)]
       (fun ruleId =>
          ruleMap _ _ _
            (linter_with (reporter VUndefined (descriptor None None)))
          !! ruleId)
       "espree" (VObject []) "<input>" false None "no-program" empty_store
       H))).
Defined.

Lemma C7_missing_rule_witness :
  is_number 0 (Severity.getRuleSeverity (VNumber 2)) = false
  /\ (fun _ : string => @None (Rule Problem Value)) "no-ghost" = None
  /\ fst (runRules source [("no-ghost", VNumber 2)] (fun _ => None)
            "espree" (VObject []) "<input>" false None empty_store)
     = Ok [missing_rule "no-ghost"]
  /\ In (missing_rule "no-ghost") [missing_rule "no-ghost"].
Proof.
  split; [reflexivity|]. split; [reflexivity|].
  split; [vm_compute; reflexivity|].
  apply (proj2 (proj2
    (C7_missing_rule_definition Problem Value unit createReportTranslator
       evk_KEYS evk_getKeys unit (fun _ _ _ => tt) enterNode leaveNode
       source (fun _ => None) "espree" (VObject []) "<input>" false None
       "no-ghost" (VNumber 2) eq_refl eq_refl))
    [("no-ghost", VNumber 2)] empty_store);
    [left; reflexivity | vm_compute; reflexivity].
Defined.





Lemma C2_fatal_witness :
  fst (verifyWithConfigArray (linter_with make_y) (inl "(")
         (config_with (VNumber 2)) (Some no_options))
  = Ok [ {| ruleId := None; fatal := true; severity := VNumber 2;
            message := "Parsing error: Unexpected token";
            line := VNumber 1; column := VNumber 2;
            endLine := VUndefined; endColumn := VUndefined;
            nodeType := VUndefined; fix_ := None; suggestions := None |} ]
  /\ exists out,
       verifyAndFix (linter_with make_y) "(" (config_with (VNumber 2))
         (Some no_options) = Some (Ok out)
       /\ length (passes out) = 1%nat
       /\ messages (result out)
          = [ {| ruleId := None; fatal := true; severity := VNumber 2;
                 message := "Parsing error: Unexpected token";
                 line := VNumber 1; column := VNumber 2;
                 endLine := VUndefined; endColumn := VUndefined;
                 nodeType := VUndefined; fix_ := None;
                 suggestions := None |} ]
       /\ output (result out) = "("
       /\ fixed (result out) = false.
Proof.
  split; [vm_compute; reflexivity|].
  apply (C2_verifyAndFix_fatal Problem Value unit createReportTranslator
           evk_KEYS evk_getKeys unit (fun _ _ _ => tt) enterNode leaveNode
           espree 13 (fun s => s) (fun s => s) (fun v => v) (fun _ => tt)
           (fun _ => "1") (fun _ _ problems _ => problems) applyFixes
           (linter_with make_y) "(" (config_with (VNumber 2))
           (Some no_options));
    [vm_compute; reflexivity | reflexivity | intros _; vm_compute; reflexivity].
Defined.

End SampleFacts.

(* ===================================================================== *)
(** * Part III. Further properties of the code                           *)
(* ===================================================================== *)

(** ** The tree walker: the shape of a walk *)
Section WalkFacts.
Import JS Traverser.

Variable U : Type.
Variable evk_KEYS : string -> option (list string).
Variable evk_getKeys : Value -> list string.

Local Abbreviation State := (State U).
Local Abbreviation traverseRec := (traverseRec U evk_getKeys).
Local Abbreviation traverse := (traverse U evk_KEYS evk_getKeys).

Local Arguments call : simpl never.
Local Arguments set_current : simpl never.
Local Arguments set_parents : simpl never.
Local Arguments set_skipped : simpl never.

(** What a call of a callback does to the fields. *)
Lemma call_fields entering cb node parent (st : State) :
  exists ctl,
    trace U (call U entering cb node parent st)
    = trace U st ++ [mkEvent entering node parent ctl]
    /\ broken U (call U entering cb node parent st)
       = broken U st || calls_break ctl
    /\ skipped U (call U entering cb node parent st)
       = skipped U st || calls_skip ctl
    /\ parents U (call U entering cb node parent st) = parents U st
    /\ current U (call U entering cb node parent st) = current U st
    /\ enter U (call U entering cb node parent st) = enter U st
    /\ leave U (call U entering cb node parent st) = leave U st
    /\ visitorKeys U (call U entering cb node parent st) = visitorKeys U st.
Proof.
  unfold call. destruct (cb _ _ _ _) as [u ctl]. exists ctl. simpl.
  repeat split.
Qed.

(** A loop of walks adds a nested sequence of calls. *)
Lemma for_unbroken_Nested {A : Type} (parent : Value)
    (body : A -> State -> option State) (items : list A) :
  (forall item st st', In item items -> broken U st = false ->
     body item st = Some st' ->
     exists evs, trace U st' = trace U st ++ evs
                 /\ Nested parent evs (broken U st')) ->
  forall st st', broken U st = false ->
    for_unbroken U body items st = Some st' ->
    exists evs, trace U st' = trace U st ++ evs
                /\ Nested parent evs (broken U st').
Proof.
  induction items as [|item rest IH]; intros Hbody st st' Hb H; simpl in H.
  - injection H as <-. exists []. rewrite app_nil_r, Hb.
    split; [reflexivity|constructor].
  - rewrite Hb in H.
    destruct (body item st) as [st1|] eqn:E; [|discriminate].
    destruct (Hbody item st st1 (or_introl eq_refl) Hb E) as (evs1 & T1 & N1).
    destruct (broken U st1) eqn:B1.
    + assert (st' = st1) as ->.
      { destruct rest; simpl in H; [|rewrite B1 in H]; congruence. }
      exists evs1. rewrite B1. auto.
    + destruct (IH (fun i s s' Hin => Hbody i s s' (or_intror Hin))
                  st1 st' B1 H) as (evs2 & T2 & N2).
      exists (evs1 ++ evs2). rewrite T2, T1, app_assoc.
      split; [reflexivity|]. now apply Nested_app.
Qed.

(** The calls of a walk are nested, and a walk of a node starts by
    entering it and, unless broken, ends by leaving it. *)
Lemma traverseRec_Nested (fuel : nat) :
  forall node parent (st st' : State),
    broken U st = false ->
    traverseRec fuel node parent st = Some st' ->
    exists evs,
      trace U st' = trace U st ++ evs
      /\ Nested parent evs (broken U st')
      /\ (isNode node = false -> evs = [])
      /\ (isNode node = true ->
          exists ctl rest,
            evs = mkEvent true node parent ctl :: rest
            /\ (broken U st' = false ->
                exists inner ctl',
                  rest = inner ++ [mkEvent false node parent ctl'])).
Proof.
  induction fuel as [|fuel IH]; intros node parent st st' Hb H;
    [discriminate|].
  simpl in H. destruct (isNode node) eqn:Hn; simpl in H.
  2:{ injection H as <-. exists []. rewrite app_nil_r, Hb.
      repeat split; [constructor|discriminate]. }
  set (st0 := set_skipped U false (set_current U node st)) in H.
  destruct (call_fields true (enter U st) node parent st0)
    as (ctl & T1 & B1 & S1 & _).
  change (trace U st0) with (trace U st) in T1.
  change (broken U st0) with (broken U st) in B1.
  change (skipped U st0) with false in S1.
  rewrite Hb in B1. simpl in B1, S1.
  set (st1 := call U true (enter U st) node parent st0) in *.
  clearbody st1. clear st0.
  (* what leaving does *)
  assert (Hleave : forall st2 inner,
    trace U st2 = trace U st1 ++ inner ->
    (if broken U st2 then Nested parent (mkEvent true node parent ctl :: inner) true
     else forall ctl', Nested parent
            (mkEvent true node parent ctl :: inner ++ [mkEvent false node parent ctl'])
            (calls_break ctl')) ->
    let st3 := set_current U parent
                 (if negb (broken U st2)
                  then call U false (leave U st2) node parent st2 else st2) in
    exists evs,
      trace U st3 = trace U st ++ evs
      /\ Nested parent evs (broken U st3)
      /\ (true = false -> evs = [])
      /\ (true = true ->
          exists ctl0 rest,
            evs = mkEvent true node parent ctl0 :: rest
            /\ (broken U st3 = false ->
                exists inner0 ctl',
                  rest = inner0 ++ [mkEvent false node parent ctl']))).
  { intros st2 inner T2 N. simpl.
    destruct (broken U st2) eqn:B2; simpl.
    - exists (mkEvent true node parent ctl :: inner).
      change (trace U (set_current U parent st2)) with (trace U st2).
      change (broken U (set_current U parent st2)) with (broken U st2).
      rewrite T2, T1, B2, <- app_assoc. simpl.
      repeat split; [exact N|discriminate|].
      intros _. exists ctl, inner. split; [reflexivity|discriminate].
    - destruct (call_fields false (leave U st2) node parent st2)
        as (ctl' & T3 & B3 & _).
      set (st3 := call U false (leave U st2) node parent st2) in *.
      change (trace U (set_current U parent st3)) with (trace U st3).
      change (broken U (set_current U parent st3)) with (broken U st3).
      exists (mkEvent true node parent ctl
              :: inner ++ [mkEvent false node parent ctl']).
      rewrite T3, T2, T1, B3, B2, <- !app_assoc. simpl.
      repeat split; [apply N|discriminate|].
      intros _. exists ctl, (inner ++ [mkEvent false node parent ctl']).
      split; [reflexivity|]. intros _. eauto. }
  destruct (negb (skipped U st1) && negb (broken U st1)) eqn:G.
  2:{ injection H as <-. apply (Hleave st1 []); [now rewrite app_nil_r|].
      rewrite B1, S1 in *. destruct (calls_break ctl) eqn:Cb.
      - now apply Nested_break.
      - destruct (calls_skip ctl) eqn:Cs; [|discriminate].
        intros ctl'. now apply Nested_skip. }
  rewrite B1, S1 in G. apply andb_prop in G as [Gs Gb].
  apply negb_true_iff in Gs, Gb.
  destruct (length (getVisitorKeys _ _ _)).
  { injection H as <-. apply (Hleave st1 []); [now rewrite app_nil_r|].
    rewrite B1, Gb. intros ctl'.
    apply (Nested_visit parent node ctl ctl' []); auto. constructor. }
  match type of H with
  | match match ?loop with _ => _ end with _ => _ end = _ =>
      destruct loop as [st2|] eqn:L; [|discriminate]
  end.
  injection H as <-.
  apply for_unbroken_Nested with (parent := node) in L.
  - destruct L as (inner & T2 & N2).
    change (trace U (set_parents U (parents U st1 ++ [node]) st1))
      with (trace U st1) in T2.
    apply (Hleave (set_parents U (removelast (parents U st2)) st2) inner);
      [exact T2|].
    change (broken U (set_parents U (removelast (parents U st2)) st2))
      with (broken U st2).
    destruct (broken U st2).
    + now apply Nested_broken.
    + intros ctl'. now apply Nested_visit.
  - intros key s s' _ Bs Hs.
    destruct (child_of node key) as [| | | | |child| |] eqn:Ck;
      try (destruct (IH _ _ _ _ Bs Hs) as (evs & T & N & _); eauto).
    apply for_unbroken_Nested with (parent := node) in Hs; [exact Hs| |exact Bs].
    intros elem t t' _ Bt Ht.
    destruct (IH _ _ _ _ Bt Ht) as (evs & T & N & _). eauto.
  - change (broken U (set_parents U (parents U st1 ++ [node]) st1))
      with (broken U st1).
    now rewrite B1.
Qed.

(** The calls of [leave] never outnumber those of [enter], and match
    them when nothing broke. *)
Lemma count_calls_app entering (evs1 evs2 : list Event) :
  count_calls entering (evs1 ++ evs2)
  = (count_calls entering evs1 + count_calls entering evs2)%nat.
Proof. unfold count_calls. now rewrite List.filter_app, length_app. Qed.

Lemma Nested_balance parent evs b :
  Nested parent evs b ->
  (count_calls false evs <= count_calls true evs)%nat
  /\ (b = false -> count_calls false evs = count_calls true evs).
Proof.
  induction 1 as [parent|parent evs1 evs2 b _ [L1 E1] _ [L2 E2]
                 |parent node ctl Hb|parent node ctl ctl' Hb Hs
                 |parent node ctl ctl' inner Hb Hs _ [L E]
                 |parent node ctl inner Hb Hs _ [L E]];
    rewrite ?count_calls_app; unfold count_calls in *; simpl;
    rewrite ?List.filter_app, ?length_app; simpl.
  - auto.
  - specialize (E1 eq_refl). split; [lia|]. intros Hf. specialize (E2 Hf). lia.
  - split; [lia|discriminate].
  - split; [lia|reflexivity].
  - specialize (E eq_refl). split; [lia|]. intros _. lia.
  - split; [lia|discriminate].
Qed.

Lemma skip_followed_app (evs1 evs2 : list Event) :
  skip_followed evs1 -> skip_followed evs2 -> skip_followed (evs1 ++ evs2).
Proof.
  induction evs1 as [|e rest IH]; intros H1 H2; [exact H2|].
  destruct H1 as [He Hr]. simpl. split; [|now apply IH].
  intros Hs. specialize (He Hs). destruct rest; [contradiction|exact He].
Qed.

Lemma Nested_skip_followed parent evs b :
  Nested parent evs b -> skip_followed evs.
Proof.
  induction 1 as [parent|parent evs1 evs2 b _ IH1 _ IH2
                 |parent node ctl Hb|parent node ctl ctl' Hb Hs
                 |parent node ctl ctl' inner Hb Hs _ IH
                 |parent node ctl inner Hb Hs _ IH].
  - exact I.
  - now apply skip_followed_app.
  - simpl. unfold skips. simpl. rewrite Hb, andb_false_r.
    split; [discriminate|exact I].
  - simpl. unfold skips, leaves_of. simpl.
    split; [auto|]. split; [discriminate|exact I].
  - simpl. unfold skips at 1. simpl. rewrite Hs.
    split; [discriminate|]. apply skip_followed_app; [exact IH|].
    simpl. unfold skips. simpl. split; [discriminate|exact I].
  - simpl. unfold skips at 1. simpl. rewrite Hs.
    split; [discriminate|exact IH].
Qed.

Lemma skip_followed_at (pre : list Event) (e : Event) (post : list Event) :
  skip_followed (pre ++ e :: post) -> skips e = true ->
  exists l post', post = l :: post' /\ leaves_of e l.
Proof.
  induction pre as [|x pre IH]; simpl; intros [H1 H2] Hs.
  - specialize (H1 Hs). destruct post as [|l post']; [contradiction|eauto].
  - now apply IH.
Qed.

(** A walk leaves the stack of parents as it found it, and the current
    node at the parent of the node walked. *)
Lemma for_unbroken_parents {A : Type}
    (body : A -> State -> option State) (items : list A) :
  (forall item st st', In item items ->
     body item st = Some st' -> parents U st' = parents U st) ->
  forall st st',
    for_unbroken U body items st = Some st' -> parents U st' = parents U st.
Proof.
  induction items as [|item rest IH]; intros Hbody st st' H; simpl in H.
  - congruence.
  - destruct (broken U st); [congruence|].
    destruct (body item st) as [st1|] eqn:E; [|discriminate].
    rewrite (IH (fun i s s' Hin => Hbody i s s' (or_intror Hin)) st1 st' H).
    apply (Hbody item); [now left|exact E].
Qed.

Lemma traverseRec_position (fuel : nat) :
  forall node parent (st st' : State),
    traverseRec fuel node parent st = Some st' ->
    parents U st' = parents U st
    /\ current U st' = (if isNode node then parent else current U st).
Proof.
  induction fuel as [|fuel IH]; intros node parent st st' H; [discriminate|].
  simpl in H. destruct (isNode node) eqn:Hn; simpl in H.
  2:{ injection H as <-. auto. }
  set (st0 := set_skipped U false (set_current U node st)) in H.
  destruct (call_fields true (enter U st) node parent st0)
    as (ctl & _ & _ & _ & P1 & _).
  change (parents U st0) with (parents U st) in P1.
  set (st1 := call U true (enter U st) node parent st0) in *.
  clearbody st1. clear st0.
  assert (Hleave : forall st2 : State,
    parents U st2 = parents U st ->
    let st3 := set_current U parent
                 (if negb (broken U st2)
                  then call U false (leave U st2) node parent st2 else st2) in
    parents U st3 = parents U st /\ current U st3 = parent).
  { intros st2 P2. simpl. split; [|reflexivity].
    destruct (broken U st2); simpl; [exact P2|].
    destruct (call_fields false (leave U st2) node parent st2)
      as (ctl' & _ & _ & _ & P3 & _).
    change (parents U (set_current U parent
                         (call U false (leave U st2) node parent st2)))
      with (parents U (call U false (leave U st2) node parent st2)).
    congruence. }
  destruct (negb (skipped U st1) && negb (broken U st1)).
  2:{ injection H as <-. now apply Hleave. }
  destruct (length (getVisitorKeys _ _ _)).
  { injection H as <-. now apply Hleave. }
  match type of H with
  | match match ?loop with _ => _ end with _ => _ end = _ =>
      destruct loop as [st2|] eqn:L; [|discriminate]
  end.
  injection H as <-.
  apply for_unbroken_parents in L.
  - apply (Hleave (set_parents U (removelast (parents U st2)) st2)).
    change (parents U (set_parents U (removelast (parents U st2)) st2))
      with (removelast (parents U st2)).
    rewrite L.
    change (parents U (set_parents U (parents U st1 ++ [node]) st1))
      with (parents U st1 ++ [node]).
    rewrite removelast_last. exact P1.
  - intros key s s' _ Hs.
    destruct (child_of node key) as [| | | | |child| |] eqn:Ck;
      try (apply (IH _ _ _ _ Hs)).
    apply for_unbroken_parents in Hs; [exact Hs|].
    intros elem t t' _ Ht. apply (IH _ _ _ _ Ht).
Qed.

Lemma depth_positive (v : Value) : (1 <= depth v)%nat.
Proof. destruct v; simpl; lia. Qed.

(** A completed walk from the root, on any fuel from the depth of the
    tree on, with what is known of it. *)
Lemma traverse_walk (node : Value) (options : Options U) (u : U) (fuel : nat) :
  exists st,
    traverse (fuel + depth node) node options u = Some st
    /\ Nested VNull (trace U st) (broken U st)
    /\ parents U st = []
    /\ current U st = VNull
    /\ (isNode node = false -> trace U st = [] /\ user U st = u)
    /\ (isNode node = true ->
        exists ctl rest,
          trace U st = mkEvent true node VNull ctl :: rest
          /\ (broken U st = false ->
              exists inner ctl',
                rest = inner ++ [mkEvent false node VNull ctl'])).
Proof.
  unfold Traverser.traverse.
  match goal with
  | |- context [Traverser.traverseRec U ?g ?f ?n ?p ?s] =>
      destruct (traverseRec_total U g f n p s) as [st H]; [lia|];
      pose proof (traverseRec_Nested f n p s st eq_refl H)
        as (evs & T & N & Hno & Hyes);
      pose proof (traverseRec_position f n p s st H) as [P C]
  end.
  exists st. simpl in T, P, C. subst evs.
  split; [exact H|]. split; [exact N|]. split; [exact P|].
  split; [destruct (isNode node); exact C|].
  split; [|exact Hyes].
  intros Hn. split; [auto|].
  pose proof (depth_positive node).
  destruct (fuel + depth node)%nat as [|k] eqn:K; [lia|].
  simpl in H. rewrite Hn in H. simpl in H. injection H as <-. reflexivity.
Qed.

(** X5. The calls a traversal makes are properly nested.  A traversal
    always completes; a root that is not a node makes no call at all and
    leaves the caller's state alone; otherwise the first call is
    [enter(root, null)], the calls for the children of a node lie between
    its [enter] and its [leave] and carry it as their parent, and unless
    [break()] was called the last call is [leave(root, null)]. *)
Theorem X5_traverse_calls_are_nested
    (node : Value) (options : Options U) (u : U) (fuel : nat) :
  exists st,
    traverse (fuel + depth node) node options u = Some st
    /\ Nested VNull (trace U st) (broken U st)
    /\ (isNode node = false -> trace U st = [] /\ user U st = u)
    /\ (isNode node = true ->
        exists ctl rest,
          trace U st = mkEvent true node VNull ctl :: rest
          /\ (broken U st = false ->
              exists inner ctl',
                rest = inner ++ [mkEvent false node VNull ctl'])).
Proof.
  destruct (traverse_walk node options u fuel)
    as (st & H & N & _ & _ & Hno & Hyes).
  exists st. auto.
Qed.

(** X6. In any traversal [leave] is never called more often than
    [enter], and when no callback called [break()] every node entered
    was left: the two are called equally often. *)
Theorem X6_traverse_enter_leave_balance
    (node : Value) (options : Options U) (u : U) (fuel : nat) :
  exists st,
    traverse (fuel + depth node) node options u = Some st
    /\ (count_calls false (trace U st) <= count_calls true (trace U st))%nat
    /\ (broken U st = false ->
        count_calls false (trace U st) = count_calls true (trace U st)).
Proof.
  destruct (traverse_walk node options u fuel) as (st & H & N & _).
  exists st. split; [exact H|]. exact (Nested_balance _ _ _ N).
Qed.

(** X7. When a call of [enter] invokes [skip()] (and not [break()]), no
    child of that node is visited, yet the node is left: the very next
    call is [leave] for the same node and parent. *)
Theorem X7_traverse_skip_goes_to_leave
    (node : Value) (options : Options U) (u : U) (fuel : nat) :
  exists st,
    traverse (fuel + depth node) node options u = Some st
    /\ forall pre e post,
         trace U st = pre ++ e :: post ->
         ev_enter e = true ->
         calls_skip (ev_control e) = true ->
         calls_break (ev_control e) = false ->
         exists l post',
           post = l :: post'
           /\ ev_enter l = false
           /\ ev_node l = ev_node e
           /\ ev_parent l = ev_parent e.
Proof.
  destruct (traverse_walk node options u fuel) as (st & H & N & _).
  exists st. split; [exact H|].
  intros pre e post T He Hs Hb.
  apply Nested_skip_followed in N. rewrite T in N.
  apply skip_followed_at in N; [exact N|].
  unfold skips. now rewrite He, Hs, Hb.
Qed.

(** X8. After a traversal the walker is back where it started, whatever
    the callbacks did and even after [break()]: [current()] is [null]
    and [parents()] is empty. *)
Theorem X8_traverse_restores_position
    (node : Value) (options : Options U) (u : U) (fuel : nat) :
  exists st,
    traverse (fuel + depth node) node options u = Some st
    /\ current U st = VNull
    /\ parents U st = [].
Proof.
  destruct (traverse_walk node options u fuel) as (st & H & _ & P & C & _).
  exists st. auto.
Qed.

End WalkFacts.

(** ** The node queue of [runRules] *)
Section QueueFacts.
Import JS Lint Dispatch.

Variable U : Type.
Variable evk_KEYS : string -> option (list string).
Variable evk_getKeys : Value -> list string.

Local Arguments Traverser.call : simpl never.
Local Arguments Traverser.set_current : simpl never.
Local Arguments Traverser.set_parents : simpl never.
Local Arguments Traverser.set_skipped : simpl never.

Lemma for_unbroken_invariant {A : Type} (I : Traverser.State U -> Prop)
    (body : A -> Traverser.State U -> option (Traverser.State U))
    (items : list A) :
  (forall item st st', In item items -> I st -> body item st = Some st' ->
     I st') ->
  forall st st', I st ->
    Traverser.for_unbroken U body items st = Some st' -> I st'.
Proof.
  induction items as [|item rest IH]; intros Hbody st st' HI H; simpl in H.
  - congruence.
  - destruct (Traverser.broken U st); [congruence|].
    destruct (body item st) as [st1|] eqn:E; [|discriminate].
    apply (IH (fun i s s' Hin => Hbody i s s' (or_intror Hin)) st1 st');
      [|exact H].
    apply (Hbody item st st1); auto. now left.
Qed.

(** What every step of a walk keeps, the walk keeps. *)
Lemma traverseRec_invariant (I : Traverser.State U -> Prop) :
  (forall v st, I st -> I (Traverser.set_current U v st)) ->
  (forall b st, I st -> I (Traverser.set_skipped U b st)) ->
  (forall ps st, I st -> I (Traverser.set_parents U ps st)) ->
  (forall node parent st, I st ->
     I (Traverser.call U true (Traverser.enter U st) node parent st)) ->
  (forall node parent st, I st ->
     I (Traverser.call U false (Traverser.leave U st) node parent st)) ->
  forall fuel node parent st st',
    I st ->
    Traverser.traverseRec U evk_getKeys fuel node parent st = Some st' ->
    I st'.
Proof.
  intros Hc Hs Hp He Hl.
  induction fuel as [|fuel IH]; intros node parent st st' HI H;
    [discriminate|].
  simpl in H. destruct (Traverser.isNode node); simpl in H; [|congruence].
  pose proof (He node parent _ (Hs false _ (Hc node _ HI))) as H1.
  change (Traverser.enter U (Traverser.set_skipped U false
            (Traverser.set_current U node st)))
    with (Traverser.enter U st) in H1.
  set (st1 := Traverser.call U true (Traverser.enter U st) node parent _) in *.
  clearbody st1.
  assert (Hleave : forall st2, I st2 ->
    I (Traverser.set_current U parent
         (if negb (Traverser.broken U st2)
          then Traverser.call U false (Traverser.leave U st2) node parent st2
          else st2))).
  { intros st2 H2. apply Hc. destruct (Traverser.broken U st2); simpl; auto. }
  destruct (negb _ && negb _).
  2:{ injection H as <-. now apply Hleave. }
  destruct (length (Traverser.getVisitorKeys _ _ _)).
  { injection H as <-. now apply Hleave. }
  match type of H with
  | match match ?loop with _ => _ end with _ => _ end = _ =>
      destruct loop as [st2|] eqn:L; [|discriminate]
  end.
  injection H as <-.
  apply (Hleave (Traverser.set_parents U
                   (removelast (Traverser.parents U st2)) st2)).
  apply (Hp (removelast (Traverser.parents U st2)) st2).
  apply for_unbroken_invariant with (I := I) in L; [exact L| |now apply Hp].
  intros key s s' _ Is Hs'.
  destruct (Traverser.child_of node key) as [| | | | |child| |] eqn:Ck;
    try (eapply IH; eassumption).
  apply for_unbroken_invariant with (I := I) in Hs'; [exact Hs'| |exact Is].
  intros elem t t' _ It Ht. eapply IH; eassumption.
Qed.

End QueueFacts.

(** ** Running the rules: the queue, the errors and the store *)
Section RunFacts.
Import JS Lint Dispatch.

Variable D Arg ScopeManager : Type.
Variable createReportTranslator : TranslatorMetadata ScopeManager -> D -> Problem.
Variable evk_KEYS : string -> option (list string).
Variable evk_getKeys : Value -> list string.
Variable Generator : Type.
Variable newGenerator :
  bool -> list string -> SourceCode ScopeManager -> Generator.
Variable enterNode leaveNode :
  Generator -> Value -> Generator * list (string * Arg).

Local Abbreviation Rule := (Rule D Arg).
Local Abbreviation SourceCode := (SourceCode ScopeManager).
Local Abbreviation Store := (Store Arg).
Local Abbreviation M := (M Arg).
Local Abbreviation Handler := (Handler Arg).
Local Abbreviation report :=
  (report D Arg ScopeManager createReportTranslator).
Local Abbreviation configureRule :=
  (configureRule D Arg ScopeManager createReportTranslator).
Local Abbreviation runRules :=
  (runRules D Arg ScopeManager createReportTranslator evk_KEYS evk_getKeys
     Generator newGenerator enterNode leaveNode).
Local Abbreviation nodeQueue_of :=
  (nodeQueue_of ScopeManager evk_KEYS evk_getKeys).
Local Abbreviation info_of :=
  (fun e : Traverser.Event =>
     mkTraversalInfo (Traverser.ev_enter e) (Traverser.ev_node e)).

(** The queue is the trace of the walk, which no callback broke. *)
Lemma nodeQueue_of_trace (sourceCode : SourceCode) :
  exists st,
    Traverser.traverse _ evk_KEYS evk_getKeys
      (0 + Traverser.depth (ast _ sourceCode)) (ast _ sourceCode)
      {| Traverser.opt_visitorKeys := visitorKeys _ sourceCode;
         Traverser.opt_enter :=
           Some (fun _ node parent nodeQueue =>
                   (nodeQueue ++ [mkTraversalInfo true node], Traverser.quiet));
         Traverser.opt_leave :=
           Some (fun _ node parent nodeQueue =>
                   (nodeQueue ++ [mkTraversalInfo false node], Traverser.quiet)) |}
      [] = Some st
    /\ nodeQueue_of sourceCode = map info_of (Traverser.trace _ st)
    /\ Traverser.broken _ st = false.
Proof.
  destruct (nodeQueue_of_complete ScopeManager evk_KEYS evk_getKeys sourceCode)
    as (st & H & Q).
  exists st. split; [exact H|]. rewrite Q. clear Q.
  unfold Traverser.traverse in H. cbn [default from_option Traverser.opt_enter
    Traverser.opt_leave Traverser.opt_visitorKeys] in H.
  unfold Datatypes.id in H.
  match type of H with
  | Traverser.traverseRec _ _ _ _ _ ?s = _ => set (st0 := s) in H
  end.
  pose (I := fun s : Traverser.State (list TraversalInfo) =>
    Traverser.broken _ s = false
    /\ Traverser.enter _ s = Traverser.enter _ st0
    /\ Traverser.leave _ s = Traverser.leave _ st0
    /\ Traverser.user _ s = map info_of (Traverser.trace _ s)).
  assert (HI : I st).
  { revert H. apply (traverseRec_invariant _ evk_getKeys I); unfold I.
    - intros v s Hs. exact Hs.
    - intros b s Hs. exact Hs.
    - intros ps s Hs. exact Hs.
    - intros node parent s (B & E & L & Q). rewrite E.
      unfold Traverser.call. simpl. rewrite B, Q, map_app. auto.
    - intros node parent s (B & E & L & Q). rewrite L.
      unfold Traverser.call. simpl. rewrite B, Q, map_app. auto.
    - repeat split. }
  destruct HI as (B & _ & _ & Q). auto.
Qed.

Lemma count_info_of entering (evs : list Traverser.Event) :
  length (List.filter (fun i => Bool.eqb (isEntering i) entering)
            (map info_of evs))
  = Traverser.count_calls entering evs.
Proof.
  unfold Traverser.count_calls.
  induction evs as [|e rest IH]; [reflexivity|]. simpl.
  destruct (Bool.eqb (Traverser.ev_enter e) entering); simpl; now rewrite IH.
Qed.

(** The ends of the queue, and its balance. *)
Lemma nodeQueue_of_shape (sourceCode : SourceCode) :
  (Traverser.isNode (ast _ sourceCode) = false ->
   nodeQueue_of sourceCode = [])
  /\ (Traverser.isNode (ast _ sourceCode) = true ->
      exists middle,
        nodeQueue_of sourceCode
        = mkTraversalInfo true (ast _ sourceCode)
          :: middle ++ [mkTraversalInfo false (ast _ sourceCode)])
  /\ length (List.filter (fun i => Bool.eqb (isEntering i) true)
               (nodeQueue_of sourceCode))
     = length (List.filter (fun i => Bool.eqb (isEntering i) false)
                 (nodeQueue_of sourceCode)).
Proof.
  destruct (nodeQueue_of_trace sourceCode) as (st & H & Q & B).
  match type of H with
  | Traverser.traverse _ _ _ _ ?n ?o ?u = _ =>
      destruct (traverse_walk _ evk_KEYS evk_getKeys n o u 0%nat)
        as (st' & H' & N & _ & _ & Hno & Hyes)
  end.
  rewrite H in H'. injection H' as <-. rewrite Q.
  split; [|split].
  - intros Hn. destruct (Hno Hn) as [-> _]. reflexivity.
  - intros Hn. destruct (Hyes Hn) as (ctl & rest & T & Hl).
    destruct (Hl B) as (inner & ctl' & ->). rewrite T.
    exists (map info_of inner). simpl. now rewrite map_app.
  - rewrite !count_info_of.
    destruct (Nested_balance _ _ _ N) as [_ E]. symmetry. now apply E.
Qed.

(** X9. The node queue that [runRules] builds before any rule runs: it
    is empty when the tree is not a node; otherwise it starts with the
    entering of the root and ends with its leaving, and in any case it
    holds as many leavings as enterings. *)
Theorem X9_nodeQueue_enters_and_leaves (sourceCode : SourceCode) :
  (Traverser.isNode (ast _ sourceCode) = false ->
   nodeQueue_of sourceCode = [])
  /\ (Traverser.isNode (ast _ sourceCode) = true ->
      exists middle,
        nodeQueue_of sourceCode
        = mkTraversalInfo true (ast _ sourceCode)
          :: middle ++ [mkTraversalInfo false (ast _ sourceCode)])
  /\ length (List.filter (fun i => Bool.eqb (isEntering i) true)
               (nodeQueue_of sourceCode))
     = length (List.filter (fun i => Bool.eqb (isEntering i) false)
                 (nodeQueue_of sourceCode)).
Proof. exact (nodeQueue_of_shape sourceCode). Qed.

(** X10. [runRules] never returns problems for a tree that is not a
    node: the rules are configured, and then the run throws, either what
    a rule's factory threw or, the queue being empty, the [TypeError] of
    reading its first entry. *)
Theorem X10_runRules_needs_a_node
    (sourceCode : SourceCode) configuredRules ruleMapper parserName
    settings filename disableFixes physicalFilename (st : Store) :
  Traverser.isNode (ast _ sourceCode) = false ->
  is_Throw (fst (runRules sourceCode configuredRules ruleMapper parserName
                   settings filename disableFixes physicalFilename st))
  = true.
Proof.
  intros Hn. unfold Dispatch.runRules, bind.
  rewrite (proj1 (nodeQueue_of_shape sourceCode) Hn).
  destruct (configureRules _ _ _ _ _) as [[emitter|e] st1]; reflexivity.
Qed.

(** *** What a run throws *)

Local Abbreviation loading ruleId original :=
  (String.append "Error while loading rule '"
     (String.append ruleId (String.append "': " original))).

(** A listener the emitter holds stamps its rule on what it throws. *)
Local Abbreviation stamps :=
  (fun h : Handler =>
     forall arg st e st',
       h_listener Arg h arg st = (Throw e, st') ->
       err_ruleId e = Some (h_ruleId Arg h)).

Lemma createRuleListeners_throws rule ctx rep (st st' : Store) e :
  createRuleListeners D Arg rule ctx rep st = (Throw e, st') ->
  exists ex,
    err_name e = err_name ex
    /\ err_message e = loading (id ctx) (err_message ex).
Proof.
  unfold createRuleListeners, bind, trace, catch, throw, ret.
  destruct (create rule ctx) as [actions listeners].
  destruct (run D Arg rep actions _) as [[[]|ex] s1]; [discriminate|].
  intros [= <- <-]. exists ex. split; reflexivity.
Qed.

Lemma configureRule_throws sourceCode ruleMapper parserName settings
    filename disableFixes physicalFilename emitter entry (st st' : Store) e :
  configureRule sourceCode ruleMapper parserName settings filename
    disableFixes physicalFilename emitter entry st = (Throw e, st') ->
  disabled entry = false
  /\ ruleMapper (fst entry) <> None
  /\ exists ex,
       err_name e = err_name ex
       /\ err_message e = loading (fst entry) (err_message ex).
Proof.
  destruct entry as [ruleId ruleConfig].
  unfold Dispatch.configureRule, disabled. simpl.
  destruct (is_number 0 (Severity.getRuleSeverity ruleConfig));
    [discriminate|].
  destruct (ruleMapper ruleId) as [rule|]; [|discriminate].
  unfold bind.
  destruct (createRuleListeners _ _ _ _ _ _) as [[ls|ex] s1] eqn:E;
    [discriminate|].
  intros [= <- <-]. split; [reflexivity|]. split; [discriminate|].
  exact (createRuleListeners_throws _ _ _ _ _ _ E).
Qed.

Lemma configureRules_throws sourceCode ruleMapper parserName settings
    filename disableFixes physicalFilename configuredRules :
  forall emitter (st st' : Store) e,
    configureRules Arg
      (configureRule sourceCode ruleMapper parserName settings filename
         disableFixes physicalFilename)
      emitter configuredRules st = (Throw e, st') ->
    exists entry ex,
      In entry configuredRules
      /\ disabled entry = false
      /\ ruleMapper (fst entry) <> None
      /\ err_name e = err_name ex
      /\ err_message e = loading (fst entry) (err_message ex).
Proof.
  induction configuredRules as [|entry rest IH]; intros emitter st st' e;
    cbn [configureRules]; [discriminate|].
  unfold bind.
  destruct (configureRule _ _ _ _ _ _ _ emitter entry st)
    as [[em1|ex] s1] eqn:E.
  - intros H. destruct (IH _ _ _ _ H) as (en & ex & Hin & R).
    exists en, ex. split; [now right|exact R].
  - intros [= <- <-].
    destruct (configureRule_throws _ _ _ _ _ _ _ _ _ _ _ _ E)
      as (Hd & Hm & ex' & Hn & Hmsg).
    exists entry, ex'. split; [now left|]. auto.
Qed.

Lemma addRuleErrorHandler_stamps ruleId selector rep listener arg
    (st st' : Store) e :
  addRuleErrorHandler D Arg ruleId selector rep listener arg st
  = (Throw e, st') ->
  err_ruleId e = Some ruleId.
Proof.
  unfold addRuleErrorHandler, catch, throw.
  destruct (bind _ _ _ _) as [[[]|ex] s1]; [discriminate|].
  intros [= <- <-]. reflexivity.
Qed.

Lemma configureRules_stamps sourceCode ruleMapper parserName settings
    filename disableFixes physicalFilename configuredRules :
  forall emitter (st : Store) emitter',
    Forall stamps emitter ->
    fst (configureRules Arg
           (configureRule sourceCode ruleMapper parserName settings filename
              disableFixes physicalFilename)
           emitter configuredRules st) = Ok emitter' ->
    Forall stamps emitter'.
Proof.
  induction configuredRules as [|[ruleId ruleConfig] rest IH];
    intros emitter st emitter' Hem; cbn [configureRules].
  - intros [= <-]. exact Hem.
  - unfold bind.
    destruct (configureRule _ _ _ _ _ _ _ emitter (ruleId, ruleConfig) st)
      as [[em1|e] st1] eqn:E; cbn [fst]; [|discriminate].
    apply IH.
    revert E. unfold Dispatch.configureRule.
    destruct (is_number 0 (Severity.getRuleSeverity ruleConfig)).
    { intros [= <- <-]. exact Hem. }
    destruct (ruleMapper ruleId) as [rule|]; unfold bind.
    + destruct (createRuleListeners _ _ _ _ _ _) as [[ls|e] s1];
        [|discriminate].
      intros [= <- <-]. apply Forall_app. split; [exact Hem|].
      apply Forall_forall. intros h Hin.
      apply list_elem_of_In, in_map_iff in Hin as (sl & <- & _). simpl.
      intros arg s e s' Hthrow.
      exact (addRuleErrorHandler_stamps _ _ _ _ _ _ _ _ Hthrow).
    + simpl. intros [= <- <-]. exact Hem.
Qed.

Lemma forEach_throws {A : Type} (body : A -> M unit) (items : list A) :
  forall (st st' : Store) e,
    forEach Arg body items st = (Throw e, st') ->
    exists item s s', In item items /\ body item s = (Throw e, s').
Proof.
  induction items as [|item rest IH]; intros st st' e; simpl;
    [discriminate|].
  unfold bind. destruct (body item st) as [[[]|ex] s1] eqn:E.
  - intros H. destruct (IH _ _ _ H) as (i & s & s' & Hin & Hb).
    exists i, s, s'. split; [now right|exact Hb].
  - intros [= <- <-]. exists item, st, s1. split; [now left|exact E].
Qed.

Lemma dispatch_throws (emitter : list Handler) :
  Forall stamps emitter ->
  forall nodeQueue eventGenerator (st st' : Store) err,
    dispatch Arg Generator enterNode leaveNode emitter eventGenerator
      nodeQueue st = (Throw err, st') ->
    exists info h,
      In info nodeQueue /\ In h emitter
      /\ err_currentNode err = Some (node info)
      /\ err_ruleId err = Some (h_ruleId Arg h).
Proof.
  intros Hem. induction nodeQueue as [|info rest IH];
    intros gen st st' err; simpl; [discriminate|].
  destruct (if isEntering info then _ else _) as [gen' emitted].
  unfold bind, catch.
  destruct (forEach Arg _ emitted st) as [[[]|ex] s1] eqn:E.
  - intros H. destruct (IH _ _ _ _ H) as (i & h & Hin & R).
    exists i, h. split; [now right|exact R].
  - unfold throw. intros [= <- <-].
    apply forEach_throws in E as (ev & s & s' & _ & E).
    unfold emit in E.
    apply forEach_throws in E as (h & t & t' & Hin & E).
    apply filter_In in Hin as [Hin _].
    exists info, h. split; [now left|]. split; [exact Hin|].
    split; [reflexivity|]. simpl.
    rewrite Forall_forall in Hem.
    exact (Hem h (proj2 (list_elem_of_In _ _) Hin) _ _ _ _ E).
Qed.


(** *** What a run does to the store *)

Lemma runRules_returns_the_store
    (sourceCode : SourceCode) configuredRules ruleMapper parserName
    settings filename disableFixes physicalFilename (st : Store) problems :
  fst (runRules sourceCode configuredRules ruleMapper parserName settings
         filename disableFixes physicalFilename st) = Ok problems ->
  problems
  = lintingProblems Arg
      (snd (runRules sourceCode configuredRules ruleMapper parserName
              settings filename disableFixes physicalFilename st)).
Proof.
  unfold Dispatch.runRules, bind.
  destruct (configureRules _ _ _ _ _) as [[emitter|e] st1]; [|discriminate].
  destruct (nodeQueue_of sourceCode) as [|first rest]; [discriminate|].
  destruct (dispatch _ _ _ _ _ _ _ _) as [[[]|ex] st2]; [|discriminate].
  simpl. congruence.
Qed.

(** X12. A run of the rules only ever appends: whether it returns or
    throws, the problems and the log it was started with are still
    there, in their order, followed by what the run added; and the
    problems it returns are exactly those of its store. *)
Theorem X12_runRules_only_appends
    (sourceCode : SourceCode) configuredRules ruleMapper parserName
    settings filename disableFixes physicalFilename (st : Store) :
  let run :=
    runRules sourceCode configuredRules ruleMapper parserName settings
      filename disableFixes physicalFilename st in
  exists added events,
    lintingProblems Arg (snd run) = lintingProblems Arg st ++ added
    /\ log Arg (snd run) = log Arg st ++ events
    /\ forall problems,
         fst run = Ok problems -> problems = lintingProblems Arg st ++ added.
Proof.
  intros run.
  assert (H : exists added events,
            lintingProblems Arg (snd run) = lintingProblems Arg st ++ added
            /\ log Arg (snd run) = log Arg st ++ events).
  { apply (preserves_runRules D Arg ScopeManager createReportTranslator
             evk_KEYS evk_getKeys Generator newGenerator enterNode leaveNode
             (fun s => exists added events,
                lintingProblems Arg s = lintingProblems Arg st ++ added
                /\ log Arg s = log Arg st ++ events)
             (fun _ => True)).
    - intros p s (a & ev & P & L). exists (a ++ [p]), ev. simpl.
      rewrite P, app_assoc. auto.
    - intros e _ s (a & ev & P & L). exists a, (ev ++ [e]). simpl.
      rewrite L, app_assoc. auto.
    - auto.
    - exists [], []. now rewrite !app_nil_r. }
  destruct H as (added & events & P & L).
  exists added, events. split; [exact P|]. split; [exact L|].
  intros problems Hok. rewrite <- P.
  exact (runRules_returns_the_store _ _ _ _ _ _ _ _ _ _ Hok).
Qed.

End RunFacts.

(** ** The linter: parsers, rules and configurations *)
Section VerifyFacts.
Import JS Lint Dispatch Linter.

Variable D Arg ScopeManager : Type.
Variable createReportTranslator : TranslatorMetadata ScopeManager -> D -> Problem.
Variable evk_KEYS : string -> option (list string).
Variable evk_getKeys : Value -> list string.
Variable Generator : Type.
Variable newGenerator :
  bool -> list string -> SourceCode ScopeManager -> Generator.
Variable enterNode leaveNode :
  Generator -> Value -> Generator * list (string * Arg).
Variable espree : Parser ScopeManager.
Variable espree_latestEcmaVersion : Z.
Variable replaceShebang : string -> string.
Variable stripLineNumber : string -> string.
Variable resolveParserOptions : Value -> Value.
Variable analyzeScope : Value -> ScopeManager.
Variable lineOf : Value -> string.
Variable applyDisableDirectives :
  list DisableDirective -> bool -> list Problem -> string -> list Problem.
Variable applyFixes : string -> list Problem -> ShouldFix -> FixResult.

Local Abbreviation Slots := (Slots D Arg ScopeManager).
Local Abbreviation ConfigData := (ConfigData ScopeManager).
Local Abbreviation runRules :=
  (runRules D Arg ScopeManager createReportTranslator evk_KEYS evk_getKeys
     Generator newGenerator enterNode leaveNode).
Local Abbreviation verifyWithoutProcessors :=
  (verifyWithoutProcessors D Arg ScopeManager createReportTranslator
     evk_KEYS evk_getKeys Generator newGenerator enterNode leaveNode
     espree espree_latestEcmaVersion replaceShebang stripLineNumber
     resolveParserOptions analyzeScope lineOf applyDisableDirectives).
Local Abbreviation verifyWithConfigArray :=
  (verifyWithConfigArray D Arg ScopeManager createReportTranslator
     evk_KEYS evk_getKeys Generator newGenerator enterNode leaveNode
     espree espree_latestEcmaVersion replaceShebang stripLineNumber
     resolveParserOptions analyzeScope lineOf applyDisableDirectives).
Local Abbreviation verifyAndFix :=
  (verifyAndFix D Arg ScopeManager createReportTranslator
     evk_KEYS evk_getKeys Generator newGenerator enterNode leaveNode
     espree espree_latestEcmaVersion replaceShebang stripLineNumber
     resolveParserOptions analyzeScope lineOf applyDisableDirectives
     applyFixes).

(** X13. A text that the configured parser rejects is verified to
    exactly one problem, and no rule is run: the problem is fatal, of
    severity 2 and without rule, edit or suggestions, its message is
    "Parsing error: " followed by what the parser threw, stripped of its
    line number, and its position is the one the parser gave. *)
Theorem X13_parse_error_is_the_only_problem
    (slots : Slots) (text : string) (config : ConfigData)
    (options : VerifyOptions) (name : string)
    (definition : Parser ScopeManager) ex_message ex_line ex_column :
  (parser ScopeManager config = ParserObject ScopeManager name definition
   \/ parser ScopeManager config = ParserName ScopeManager name
      /\ parserMap D Arg ScopeManager slots !! name = Some definition
   \/ parser ScopeManager config = ParserOther ScopeManager
      /\ definition = espree) ->
  (forall parserOptions,
     definition (replaceShebang text) parserOptions
     = ParseThrows ScopeManager ex_message ex_line ex_column) ->
  verifyWithoutProcessors slots (inl text) (Some config) (Some options)
  = (Ok [ {| ruleId := None;
             fatal := true;
             severity := VNumber 2;
             message :=
               String.append "Parsing error: " (stripLineNumber ex_message);
             line := ex_line;
             column := ex_column;
             endLine := VUndefined;
             endColumn := VUndefined;
             nodeType := VUndefined;
             fix_ := None;
             suggestions := None |} ],
     []).
Proof.
  intros Hp Hthrow. unfold Linter.verifyWithoutProcessors.
  cbn [normalizeVerifyOptions default from_option]. unfold Datatypes.id.
  destruct Hp as [Hp | [[Hp Hm] | [Hp ->]]]; rewrite Hp; try rewrite Hm;
    unfold Linter.parse; cbn [lo_parser createLanguageOptions];
    rewrite Hthrow; reflexivity.
Qed.

(** X14. A parser registered with [defineParser] and named in the
    config is used exactly as if the config held it as an object with
    that name as its path; and on a new linter the name ["espree"] is
    the same as no parser setting at all. *)
Theorem X14_parser_by_name
    (slots : Slots) textOrSourceCode (config : ConfigData)
    (options : option VerifyOptions) (parserId : string)
    (parserModule : Parser ScopeManager) :
  verifyWithoutProcessors (defineParser D Arg ScopeManager slots parserId parserModule)
    textOrSourceCode
    (Some (with_parser ScopeManager config (ParserName ScopeManager parserId)))
    options
  = verifyWithoutProcessors (defineParser D Arg ScopeManager slots parserId parserModule)
      textOrSourceCode
      (Some (with_parser ScopeManager config
               (ParserObject ScopeManager parserId parserModule)))
      options
  /\ verifyWithoutProcessors (new_Linter D Arg ScopeManager espree)
       textOrSourceCode
       (Some (with_parser ScopeManager config (ParserName ScopeManager "espree")))
       options
     = verifyWithoutProcessors (new_Linter D Arg ScopeManager espree)
         textOrSourceCode
         (Some (with_parser ScopeManager config (ParserOther ScopeManager)))
         options.
Proof.
  split.
  - unfold Linter.verifyWithoutProcessors.
    cbn [default from_option]. unfold Datatypes.id.
    cbn [with_parser parser defineParser parserMap].
    rewrite lookup_insert_eq. reflexivity.
  - unfold Linter.verifyWithoutProcessors.
    cbn [default from_option]. unfold Datatypes.id.
    cbn [with_parser parser new_Linter parserMap].
    rewrite lookup_singleton_eq. reflexivity.
Qed.

(** The loop depends on the verification of a text by its results
    only. *)
Lemma autofixLoop_ext (verify1 verify2 : string -> Result (list Problem))
    (shouldFix : ShouldFix) :
  (forall t, verify1 t = verify2 t) ->
  forall fuel fixed0 passNumber currentText done,
    autofixLoop applyFixes verify1 shouldFix fuel fixed0 passNumber
      currentText done
    = autofixLoop applyFixes verify2 shouldFix fuel fixed0 passNumber
        currentText done.
Proof.
  intros Hv. induction fuel as [|fuel IH]; intros; simpl; [reflexivity|].
  rewrite Hv. destruct (verify2 currentText) as [msgs|e]; [|reflexivity].
  destruct (lone_fatal msgs); [reflexivity|].
  destruct (_ && _); [apply IH|reflexivity].
Qed.

Lemma verifyAndFixWith_ext (verify1 verify2 : string -> Result (list Problem))
    (shouldFix : ShouldFix) (text : string) :
  (forall t, verify1 t = verify2 t) ->
  verifyAndFixWith applyFixes verify1 shouldFix text
  = verifyAndFixWith applyFixes verify2 shouldFix text.
Proof.
  intros Hv. unfold Linter.verifyAndFixWith.
  rewrite (autofixLoop_ext verify1 verify2 shouldFix Hv).
  destruct (autofixLoop _ _ _ _ _ _ _ _) as [[x|e]|]; try reflexivity.
  rewrite Hv. reflexivity.
Qed.

(** X15. Registering a parser has no effect on [verifyAndFix]: the
    config it hands on never names a parser, so the default parser is
    used whatever [defineParser] was given, and every pass returns what
    it would have returned without the registration. *)
Theorem X15_defineParser_is_ignored_by_verifyAndFix
    (slots : Slots) (parserId : string) (parserModule : Parser ScopeManager)
    textOrSourceCode (text : string) (config : Value)
    (options : option VerifyOptions) :
  verifyWithConfigArray (defineParser D Arg ScopeManager slots parserId parserModule)
    textOrSourceCode config options
  = verifyWithConfigArray slots textOrSourceCode config options
  /\ verifyAndFix (defineParser D Arg ScopeManager slots parserId parserModule)
       text config options
     = verifyAndFix slots text config options.
Proof.
  assert (H : forall t,
    verifyWithConfigArray (defineParser D Arg ScopeManager slots parserId parserModule)
      t config options
    = verifyWithConfigArray slots t config options).
  { intros t. unfold Linter.verifyWithConfigArray.
    repeat match goal with
    | |- context [member ?v ?k] =>
        destruct (member v k) as [?|?]; cbn [bindR]
    end; reflexivity. }
  split; [apply H|].
  unfold Linter.verifyAndFix. apply verifyAndFixWith_ext.
  intros t. now rewrite H.
Qed.

(** The configuration of the rules reads the definitions of the rules
    that are configured and switched on, and no other. *)
Lemma configureRules_ext sourceCode (ruleMapper1 ruleMapper2 : string -> option (Rule D Arg))
    parserName settings filename disableFixes physicalFilename
    configuredRules :
  (forall entry, In entry configuredRules -> disabled entry = false ->
     ruleMapper1 (fst entry) = ruleMapper2 (fst entry)) ->
  forall emitter (st : Store Arg),
    configureRules Arg
      (configureRule D Arg ScopeManager createReportTranslator sourceCode
         ruleMapper1 parserName settings filename disableFixes
         physicalFilename)
      emitter configuredRules st
    = configureRules Arg
        (configureRule D Arg ScopeManager createReportTranslator sourceCode
           ruleMapper2 parserName settings filename disableFixes
           physicalFilename)
        emitter configuredRules st.
Proof.
  induction configuredRules as [|[ruleId ruleConfig] rest IH];
    intros Hall emitter st; cbn [configureRules]; [reflexivity|].
  unfold bind.
  assert (E : configureRule D Arg ScopeManager createReportTranslator
                sourceCode ruleMapper1 parserName settings filename
                disableFixes physicalFilename emitter (ruleId, ruleConfig) st
              = configureRule D Arg ScopeManager createReportTranslator
                  sourceCode ruleMapper2 parserName settings filename
                  disableFixes physicalFilename emitter (ruleId, ruleConfig) st).
  { unfold Dispatch.configureRule.
    destruct (is_number 0 (Severity.getRuleSeverity ruleConfig)) eqn:S0;
      [reflexivity|].
    pose proof (Hall (ruleId, ruleConfig) (or_introl eq_refl) S0) as R.
    simpl in R. rewrite R. reflexivity. }
  rewrite E.
  destruct (configureRule _ _ _ _ _ ruleMapper2 _ _ _ _ _ _ _ _)
    as [[em1|e] st1]; [|reflexivity].
  apply IH. intros en Hin. apply Hall. now right.
Qed.

Lemma runRules_ext sourceCode configuredRules
    (ruleMapper1 ruleMapper2 : string -> option (Rule D Arg))
    parserName settings filename disableFixes physicalFilename
    (st : Store Arg) :
  (forall entry, In entry configuredRules -> disabled entry = false ->
     ruleMapper1 (fst entry) = ruleMapper2 (fst entry)) ->
  runRules sourceCode configuredRules ruleMapper1 parserName settings
    filename disableFixes physicalFilename st
  = runRules sourceCode configuredRules ruleMapper2 parserName settings
      filename disableFixes physicalFilename st.
Proof.
  intros Hall. unfold Dispatch.runRules, bind.
  rewrite (configureRules_ext sourceCode ruleMapper1 ruleMapper2 parserName
             settings filename disableFixes physicalFilename configuredRules
             Hall).
  reflexivity.
Qed.

(** X16. Defining a rule changes nothing in a verification unless the
    config switches that rule on: when the rule is not configured, or
    only with severity 0, the verification returns the same problems,
    throws the same error and leaves the same log with the definition as
    without it. *)
Theorem X16_defineRule_needs_the_config
    (slots : Slots) (ruleId : string) (ruleModule : RuleModule D Arg)
    textOrSourceCode (config : ConfigData) (options : option VerifyOptions) :
  (forall ruleConfig,
     In (ruleId, ruleConfig) (own_props (rules ScopeManager config)) ->
     is_number 0 (Severity.getRuleSeverity ruleConfig) = true) ->
  verifyWithoutProcessors (defineRule D Arg ScopeManager slots ruleId ruleModule)
    textOrSourceCode (Some config) options
  = verifyWithoutProcessors slots textOrSourceCode (Some config) options.
Proof.
  intros Hoff. unfold Linter.verifyWithoutProcessors.
  cbn [default from_option]. unfold Datatypes.id.
  destruct (normalizeVerifyOptions _ _ _) as [opts|e]; [|reflexivity].
  cbn [defineRule parserMap ruleMap].
  match goal with
  | |- context [match ?resolved with inl _ => _ | inr _ => _ end] =>
      destruct resolved as [problem|[parserName theParser]]
  end; [reflexivity|].
  match goal with
  | |- context [match ?parsed with inl _ => _ | inr _ => _ end] =>
      destruct parsed as [error|sourceCode]
  end; [reflexivity|].
  match goal with
  | |- context [Dispatch.runRules _ _ _ _ _ _ _ _ _ _ ?sc ?cr ?rm1 ?pn ?se
                  ?fn ?df ?pf ?st] =>
      rewrite (runRules_ext sc cr rm1
                 (fun r => Rules_get D Arg (ruleMap D Arg ScopeManager slots) r)
                 pn se fn df pf st)
  end; [reflexivity|].
  intros [r c] Hin Hd. simpl. unfold Rules_get, Rules_define.
  apply lookup_insert_ne. intros <-.
  unfold disabled in Hd. simpl in Hd. rewrite (Hoff c Hin) in Hd.
  discriminate.
Qed.

(** X20. [verifyAndFix] verifies at least once and at most eleven
    times, ten passes and one last look; and whenever it reports
    [fixed], it has verified at least twice, so that the problems it
    returns were never found before the fix. *)
Theorem X20_verifyAndFix_verifications
    (slots : Slots) (text : string) (config : Value)
    (options : option VerifyOptions) :
  match verifyAndFix slots text config options with
  | None => False
  | Some (Throw e) => True
  | Some (Ok out) =>
      let verifications :=
        (length (passes out) + (if reverified out then 1 else 0))%nat in
      (1 <= verifications <= MAX_AUTOFIX_PASSES + 1)%nat
      /\ (fixed (result out) = true -> (2 <= verifications)%nat)
  end.
Proof.
  pose proof (verifyAndFixWith_spec applyFixes
                (fun t => fst (verifyWithConfigArray slots (inl t) config options))
                (shouldFix_of options) text) as H.
  unfold Linter.verifyAndFix.
  destruct (verifyAndFixWith _ _ _ _) as [[out|e]|]; [|exact I|exact H].
  destruct H as (Hlen & _ & _ & Hf & p & Hl & Hr & _).
  cbv zeta. split; [destruct (reverified out); lia|].
  intros F. rewrite Hf in F. rewrite Hr.
  destruct (passes out) as [|q [|q' rest]]; simpl in *; [lia| |lia].
  injection Hl as <-. unfold any_fixed in F. simpl in F.
  rewrite orb_false_r in F. apply andb_prop in F as [_ ->]. lia.
Qed.

(** Without a base config nothing is verified. *)
Lemma no_baseConfig_throws
    (slots : Slots) textOrSourceCode (text : string) (config : Value)
    (options : option VerifyOptions) :
  member_opt config "baseConfig" = VUndefined
  \/ member_opt config "baseConfig" = VNull ->
  exists e,
    err_name e = "TypeError"
    /\ verifyWithConfigArray slots textOrSourceCode config options
       = (Throw e, [])
    /\ verifyAndFix slots text config options = Some (Throw e).
Proof.
  intros Hb.
  assert (H : exists e, err_name e = "TypeError" /\
    forall t, verifyWithConfigArray slots t config options = (Throw e, [])).
  { unfold Linter.verifyWithConfigArray.
    destruct config as [| |b|z|s'|l|props|f]; cbn [member bindR];
      try (eexists; split; [|intros t; reflexivity]; reflexivity).
    cbn [member_opt] in Hb. destruct Hb as [-> | ->]; cbn [member bindR];
      eexists; (split; [|intros t; reflexivity]; reflexivity). }
  destruct H as (e & Hn & He). exists e. split; [exact Hn|].
  split; [apply He|].
  unfold Linter.verifyAndFix, Linter.verifyAndFixWith, MAX_AUTOFIX_PASSES.
  cbn [Linter.autofixLoop]. rewrite He. reflexivity.
Qed.

(** X21. A config without a base config cannot be verified: when
    [config.baseConfig] is [undefined] or [null] (or there is no config
    to read it from), the verification throws a [TypeError] before
    anything is parsed or any rule is run, and so does [verifyAndFix],
    on its first pass. *)
Theorem X21_verifyWithConfigArray_needs_baseConfig
    (slots : Slots) textOrSourceCode (text : string) (config : Value)
    (options : option VerifyOptions) :
  member_opt config "baseConfig" = VUndefined
  \/ member_opt config "baseConfig" = VNull ->
  exists e,
    err_name e = "TypeError"
    /\ verifyWithConfigArray slots textOrSourceCode config options
       = (Throw e, [])
    /\ verifyAndFix slots text config options = Some (Throw e).
Proof. exact (no_baseConfig_throws slots textOrSourceCode text config options). Qed.

End VerifyFacts.

(** ** File names, versions and the order of problems *)
Section NormalFacts.
Import JS Lint Linter.

Local Arguments String.append : simpl nomatch.

Lemma string_app_nil_r (s : string) : String.append s "" = s.
Proof. induction s as [|c s IH]; simpl; [reflexivity|now rewrite IH]. Qed.

Lemma string_app_assoc (a b c : string) :
  String.append (String.append a b) c = String.append a (String.append b c).
Proof. induction a as [|x a IH]; simpl; [reflexivity|now rewrite IH]. Qed.

Lemma split_slash_nonempty (s part : string) : split_slash s part <> [].
Proof.
  revert part. induction s as [|c s IH]; intros part; simpl; [discriminate|].
  destruct (Ascii.eqb c "/"); [discriminate|apply IH].
Qed.

Lemma concat_cons (sep h : string) (t : list string) :
  t <> [] ->
  String.concat sep (h :: t)
  = String.append h (String.append sep (String.concat sep t)).
Proof. destruct t; [congruence|reflexivity]. Qed.

(** Joining what was split gives the string back. *)
Lemma concat_split_slash (s : string) :
  forall part,
    String.concat "/" (split_slash s part) = String.append part s.
Proof.
  induction s as [|c s IH]; intros part; simpl.
  - now rewrite string_app_nil_r.
  - destruct (Ascii.eqb_spec c "/"%char) as [->|Hc].
    + rewrite concat_cons by apply split_slash_nonempty.
      rewrite IH. reflexivity.
    + rewrite IH, string_app_assoc. reflexivity.
Qed.

Lemma slash_free_app (a b : string) :
  slash_free (String.append a b) = slash_free a && slash_free b.
Proof.
  induction a as [|c a IH]; simpl; [reflexivity|].
  now rewrite IH, andb_assoc.
Qed.

Lemma split_slash_free (s : string) :
  forall part, slash_free part = true ->
    Forall (fun p => slash_free p = true) (split_slash s part).
Proof.
  induction s as [|c s IH]; intros part Hp; simpl.
  - repeat constructor. exact Hp.
  - destruct (Ascii.eqb c "/") eqn:E.
    + constructor; [exact Hp|]. now apply IH.
    + apply IH. rewrite slash_free_app, Hp. simpl. now rewrite E.
Qed.

Lemma split_slash_app (p : string) :
  slash_free p = true ->
  forall s part,
    split_slash (String.append p s) part
    = split_slash s (String.append part p).
Proof.
  induction p as [|c p IH]; intros Hp s part; simpl.
  - now rewrite string_app_nil_r.
  - simpl in Hp. apply andb_prop in Hp as [Hc Hp].
    apply negb_true_iff in Hc. rewrite Hc, (IH Hp), string_app_assoc.
    reflexivity.
Qed.

(** Splitting what was joined gives the parts back. *)
Lemma split_slash_concat (parts : list string) :
  Forall (fun p => slash_free p = true) parts ->
  forall h part,
    slash_free h = true ->
    split_slash (String.concat "/" (h :: parts)) part
    = String.append part h :: parts.
Proof.
  induction 1 as [|h' t Hh' Ht IH]; intros h part Hh.
  - simpl. rewrite <- (string_app_nil_r h) at 1.
    rewrite split_slash_app by exact Hh. reflexivity.
  - rewrite concat_cons by discriminate.
    rewrite split_slash_app by exact Hh.
    change (String.append "/" ?x) with (String "/"%char x).
    cbn [split_slash]. simpl Ascii.eqb. cbv iota.
    now rewrite (IH h' "" Hh').
Qed.

Lemma from_last_text_Some (parts found : list string) :
  from_last_text parts = Some found ->
  exists pre rest,
    parts = pre ++ found
    /\ found = "<text>" :: rest
    /\ from_last_text rest = None.
Proof.
  induction parts as [|part rest IH]; simpl; [discriminate|].
  destruct (from_last_text rest) as [f|] eqn:E.
  - intros [= <-]. destruct (IH eq_refl) as (pre & r & -> & Hf & Hr).
    exists (part :: pre), r. auto.
  - destruct (String.eqb_spec part "<text>") as [->|]; [|discriminate].
    intros [= <-]. exists [], rest. auto.
Qed.

Lemma from_last_text_None (parts : list string) :
  from_last_text parts = None -> ~ In "<text>" parts.
Proof.
  induction parts as [|part rest IH]; simpl; [tauto|].
  destruct (from_last_text rest) as [f|]; [discriminate|].
  destruct (String.eqb_spec part "<text>") as [->|Hne]; [discriminate|].
  intros _ [H|H]; [congruence|now apply IH].
Qed.

Lemma concat_app (pre found : list string) :
  found <> [] ->
  exists dir,
    String.concat "/" (pre ++ found)
    = String.append dir (String.concat "/" found).
Proof.
  intros Hf. induction pre as [|h pre [dir IH]]; simpl app.
  - exists "". reflexivity.
  - rewrite concat_cons by (destruct pre, found; simpl; congruence).
    rewrite IH. exists (String.append h (String.append "/" dir)).
    now rewrite !string_app_assoc.
Qed.

(** X17. [normalizeFilename] cuts a file name down to what starts at its
    last [<text>] path segment: the result is a tail of the name, it
    begins with [<text>] when the name has such a segment and is the
    name itself when it has none, and normalizing twice is the same as
    normalizing once. *)
Theorem X17_normalizeFilename_tail (filename : string) :
  normalizeFilename (normalizeFilename filename) = normalizeFilename filename
  /\ (exists dir,
        filename = String.append dir (normalizeFilename filename))
  /\ (In "<text>" (split_slash filename "") ->
      exists tail,
        normalizeFilename filename = String.append "<text>" tail)
  /\ (~ In "<text>" (split_slash filename "") ->
      normalizeFilename filename = filename).
Proof.
  unfold normalizeFilename.
  pose proof (concat_split_slash filename "") as J. simpl in J.
  pose proof (split_slash_free filename "" eq_refl) as F.
  destruct (from_last_text (split_slash filename "")) as [found|] eqn:E.
  - destruct (from_last_text_Some _ _ E) as (pre & rest & Hp & -> & Hr).
    rewrite Hp in F. apply Forall_app in F as [_ F].
    inversion F as [|? ? _ Frest]; subst.
    assert (S : split_slash (String.concat "/" ("<text>" :: rest)) ""
                = "<text>" :: rest)
      by (now rewrite split_slash_concat).
    split; [|split; [|split]].
    + rewrite S. cbn [from_last_text]. rewrite Hr. reflexivity.
    + rewrite <- J, Hp. apply concat_app. discriminate.
    + intros _. destruct rest as [|r rest].
      * exists "". reflexivity.
      * rewrite concat_cons by discriminate. eauto.
    + intros Hn. exfalso. apply Hn. rewrite Hp.
      apply in_or_app. right. now left.
  - rewrite E. split; [reflexivity|]. split; [exists ""; reflexivity|].
    split; [|reflexivity].
    intros Hin. exfalso. exact (from_last_text_None _ E Hin).
Qed.

(** X18. The two spellings of a language version agree.  An edition
    number from 6 on and the year it stands for, 2009 later, both come
    out of the parser options as the edition and reach the language
    options as the year; 3 and 5 stay what they are, and so does a
    missing version, which counts as 5. *)
Theorem X18_ecmaVersion_edition_and_year
    (espree_latestEcmaVersion : Z) (coerce : Value -> option Z)
    (isEspree : bool) (edition : Z) :
  6 <= edition < 2015 ->
  let resolved := normalizeEcmaVersion espree_latestEcmaVersion coerce isEspree in
  let language :=
    normalizeEcmaVersionForLanguageOptions espree_latestEcmaVersion in
  resolved (VNumber edition) = VNumber edition
  /\ resolved (VNumber (edition + 2009)) = VNumber edition
  /\ language (resolved (VNumber edition)) = VNumber (edition + 2009)
  /\ language (resolved (VNumber (edition + 2009))) = VNumber (edition + 2009)
  /\ language (resolved (VNumber 3)) = VNumber 3
  /\ language (resolved (VNumber 5)) = VNumber 5
  /\ language (resolved VUndefined) = VNumber 5.
Proof.
  intros He resolved language. unfold resolved, language.
  assert (R1 : normalizeEcmaVersion espree_latestEcmaVersion coerce isEspree
                 (VNumber edition) = VNumber edition).
  { unfold normalizeEcmaVersion. rewrite andb_false_r. simpl.
    destruct (Z.leb_spec 2015 edition); [lia|reflexivity]. }
  assert (R2 : normalizeEcmaVersion espree_latestEcmaVersion coerce isEspree
                 (VNumber (edition + 2009)) = VNumber edition).
  { unfold normalizeEcmaVersion. rewrite andb_false_r. simpl.
    destruct (Z.leb_spec 2015 (edition + 2009)); [f_equal; lia|lia]. }
  assert (L : normalizeEcmaVersionForLanguageOptions espree_latestEcmaVersion
                (VNumber edition) = VNumber (edition + 2009)).
  { unfold normalizeEcmaVersionForLanguageOptions.
    destruct edition as [|p|p]; try lia.
    destruct p as [[[p|p|]|[p|p|]|]|[[p|p|]|[p|p|]|]|]; try lia;
      match goal with
      | |- context [2015 <=? ?v] =>
          destruct (Z.leb_spec 2015 v); [lia|reflexivity]
      end. }
  rewrite R1, R2, L.
  repeat split; unfold normalizeEcmaVersion; rewrite andb_false_r;
    reflexivity.
Qed.

(** *** The order of the problems *)

Lemma compare_problems_not_after (x y : Problem) :
  located x -> located y ->
  (compare_problems x y <= 0 <-> not_after x y).
Proof.
  intros [[lx Lx] [cx Cx]] [[ly Ly] [cy Cy]].
  unfold compare_problems, not_after, position, difference.
  rewrite Lx, Ly, Cx, Cy. simpl.
  destruct (Z.eqb_spec (lx - ly) 0); lia.
Qed.

Lemma not_after_trans (x y z : Problem) :
  not_after x y -> not_after y z -> not_after x z.
Proof. unfold not_after. lia. Qed.

Lemma not_after_total (x y : Problem) : not_after x y \/ not_after y x.
Proof. unfold not_after. lia. Qed.

Lemma insert_sorted_Permutation (x : Problem) (sorted : list Problem) :
  Permutation (insert_sorted x sorted) (x :: sorted).
Proof.
  induction sorted as [|y rest IH]; simpl; [reflexivity|].
  destruct (compare_problems x y <=? 0); [reflexivity|].
  rewrite IH. apply perm_swap.
Qed.

Lemma sort_problems_Permutation (problems : list Problem) :
  Permutation (sort_problems problems) problems.
Proof.
  induction problems as [|x rest IH]; simpl; [reflexivity|].
  rewrite insert_sorted_Permutation. now constructor.
Qed.

Lemma insert_sorted_sorted (x : Problem) (sorted : list Problem) :
  located x -> List.Forall located sorted ->
  StronglySorted not_after sorted ->
  StronglySorted not_after (insert_sorted x sorted).
Proof.
  intros Hx. induction sorted as [|y rest IH]; intros Hl Hs; simpl.
  - repeat constructor.
  - inversion Hl as [|? ? Hy Hrest]; subst.
    inversion Hs as [|? ? Hs' Hall]; subst.
    pose proof (compare_problems_not_after x y Hx Hy) as C.
    destruct (Z.leb_spec (compare_problems x y) 0) as [Hle|Hgt].
    + constructor; [exact Hs|].
      constructor; [now apply C|].
      eapply List.Forall_impl; [|exact Hall].
      intros z Hz. apply (not_after_trans x y z); [now apply C|exact Hz].
    + constructor; [now apply IH|].
      assert (Hyx : not_after y x).
      { destruct (not_after_total x y) as [H|H]; [|exact H].
        apply C in H. lia. }
      eapply Permutation_Forall;
        [symmetry; apply insert_sorted_Permutation|].
      now constructor.
Qed.

(** X19. Before the disable directives are applied the problems are
    sorted: none is added or lost, problems with numeric positions come
    out ordered by line and, within a line, by column, and a list that
    is in that order already is left exactly as it is. *)
Theorem X19_sort_problems_orders (problems : list Problem) :
  Permutation (sort_problems problems) problems
  /\ (List.Forall located problems ->
      StronglySorted not_after (sort_problems problems))
  /\ (List.Forall located problems -> StronglySorted not_after problems ->
      sort_problems problems = problems).
Proof.
  split; [apply sort_problems_Permutation|]. split.
  - induction 1 as [|x rest Hx Hrest IH]; simpl; [constructor|].
    apply insert_sorted_sorted; [exact Hx| |exact IH].
    eapply Permutation_Forall;
      [symmetry; apply sort_problems_Permutation|exact Hrest].
  - induction 1 as [|x rest Hx Hrest IH]; intros Hs; [reflexivity|].
    inversion Hs as [|? ? Hs' Hall]; subst. simpl. rewrite (IH Hs').
    destruct rest as [|y rest']; [reflexivity|]. simpl.
    inversion Hall as [|? ? Hxy _]; subst.
    inversion Hrest as [|? ? Hy _]; subst.
    apply (compare_problems_not_after x y Hx Hy) in Hxy.
    destruct (Z.leb_spec (compare_problems x y) 0); [reflexivity|lia].
Qed.

End NormalFacts.

(** ** Severities: every configuration value *)
Section SeverityRange.
Import JS Severity.

Lemma inherited_is_truthy (key : string) (v : Value) :
  own Object_prototype key = Some v -> truthy v = true.
Proof.
  unfold Object_prototype. simpl.
  repeat (destruct (String.eqb key _); [intros [= <-]; reflexivity|]).
  discriminate.
Qed.

Lemma severity_table (key : string) (v : Value) :
  own RULE_SEVERITY key = Some v ->
  v = VNumber 0 \/ v = VNumber 1 \/ v = VNumber 2.
Proof.
  unfold RULE_SEVERITY. simpl.
  repeat (destruct (String.eqb key _); [intros [= <-]; auto|]).
  discriminate.
Qed.

(** X1. Whatever the configuration value, [getRuleSeverity] returns 0,
    1 or 2, with one exception only: a string (alone or at the head of
    an array) whose lower case is the name of a property that every
    object inherits, for which it returns that inherited property. *)
Theorem X1_getRuleSeverity_range (ruleConfig : Value) :
  getRuleSeverity ruleConfig = VNumber 0
  \/ getRuleSeverity ruleConfig = VNumber 1
  \/ getRuleSeverity ruleConfig = VNumber 2
  \/ exists s,
       severityValue_of ruleConfig = VString s
       /\ own RULE_SEVERITY (toLowerCase s) = None
       /\ own Object_prototype (toLowerCase s)
          = Some (getRuleSeverity ruleConfig).
Proof.
  unfold getRuleSeverity.
  destruct (severityValue_of ruleConfig) as [| |b|z|s|l|o|f] eqn:E;
    simpl; auto.
  - destruct (Z.eqb_spec z 0) as [->|]; [auto|].
    destruct (Z.eqb_spec z 1) as [->|]; [auto|].
    destruct (Z.eqb_spec z 2) as [->|]; auto.
  - unfold get.
    destruct (own RULE_SEVERITY (toLowerCase s)) as [v|] eqn:T.
    + destruct (severity_table _ _ T) as [->|[->| ->]]; auto.
    + destruct (own Object_prototype (toLowerCase s)) as [v|] eqn:P;
        [|auto].
      right. right. right. exists s. unfold or.
      rewrite (inherited_is_truthy _ _ P). auto.
Qed.

(** X2. The encodings of a severity agree: a severity name in any
    letter case, the number it stands for, and an array that starts
    with either, all resolve to that number. *)
Theorem X2_getRuleSeverity_spellings
    (s : string) (n : Z) (options : list Value) :
  own RULE_SEVERITY (toLowerCase s) = Some (VNumber n) ->
  getRuleSeverity (VString s) = VNumber n
  /\ getRuleSeverity (VNumber n) = VNumber n
  /\ getRuleSeverity (VArray (VString s :: options)) = VNumber n
  /\ getRuleSeverity (VArray (VNumber n :: options)) = VNumber n.
Proof.
  intros H.
  destruct (getRuleSeverity_encodings s n options H) as (H1 & H2 & H3 & H4).
  auto.
Qed.

End SeverityRange.

(** ** The backward token cursor *)
Section BackwardFacts.
Import Cursors.

Context {V : Type}.
Variable null undefined : V.
Variable IndexMap : Type.
Variable getFirstIndex getLastIndex : list V -> IndexMap -> Z -> Z.
Variable CommentCursor : Type.
Variable CommentCursor_moveNext : CommentCursor -> bool * CommentCursor.
Variable CommentCursor_current : CommentCursor -> V.
Variable ForwardTokenCommentCursor BackwardTokenCommentCursor :
  list V -> list V -> IndexMap -> Z -> Z -> CommentCursor.

Local Abbreviation moveNext :=
  (BaseCursor_moveNext undefined CommentCursor CommentCursor_moveNext).
Local Abbreviation current :=
  (BaseCursor_current CommentCursor CommentCursor_current).
Local Abbreviation Yields := (Yields moveNext current).

(** X3. The backward token cursor yields the tokens at its indices from
    [index] down to [indexEnd], one for each call of [moveNext], and
    then stops; so the cursor that the [backward] factory makes without
    filter, skip or count yields the tokens between the two locations
    from the last to the first. *)
Theorem X3_backward_cursor_yields_downwards
    (c : BackwardTokenCursor)
    (tokens comments : list V) (indexMap : IndexMap) (startLoc endLoc : Z) :
  Yields (Base (OfBackward CommentCursor c))
    (tokens_downto undefined (bw_tokens c) (bw_index c) (bw_indexEnd c))
  /\ Yields
       (createCursor null IndexMap
          (backward null IndexMap getFirstIndex getLastIndex CommentCursor
             BackwardTokenCommentCursor)
          tokens comments indexMap startLoc endLoc false None 0 (-1))
       (tokens_downto undefined tokens
          (getLastIndex tokens indexMap endLoc)
          (getFirstIndex tokens indexMap startLoc)).
Proof.
  split.
  - exact (backward_token_Yields undefined CommentCursor
             CommentCursor_moveNext CommentCursor_current _ c eq_refl).
  - exact (backward_token_Yields undefined CommentCursor
             CommentCursor_moveNext CommentCursor_current _
             (new_BackwardTokenCursor null IndexMap getFirstIndex getLastIndex
                tokens comments indexMap startLoc endLoc) eq_refl).
Qed.

(** X4. The shorthand [getOneToken()] of the backward cursor returns
    what the first [moveNext()] would leave in [current], and [null]
    when [moveNext()] would return [false]: the first of the tokens the
    cursor yields, if there is one. *)
Theorem X4_backward_getOneToken (c : BackwardTokenCursor) :
  BackwardTokenCursor_getOneToken null undefined c
  = (if fst (BackwardTokenCursor_moveNext undefined c)
     then bw_current (snd (BackwardTokenCursor_moveNext undefined c))
     else null)
  /\ BackwardTokenCursor_getOneToken null undefined c
     = hd null
         (tokens_downto undefined (bw_tokens c) (bw_index c) (bw_indexEnd c)).
Proof.
  unfold BackwardTokenCursor_getOneToken, BackwardTokenCursor_moveNext,
    tokens_downto.
  destruct (Z.leb_spec (bw_indexEnd c) (bw_index c)) as [Hle|Hgt]; simpl.
  - split; [reflexivity|].
    destruct (Z.to_nat (bw_index c - bw_indexEnd c + 1)) as [|n] eqn:N;
      [lia|].
    simpl. now rewrite Z.sub_0_r.
  - split; [reflexivity|].
    replace (Z.to_nat (bw_index c - bw_indexEnd c + 1)) with 0%nat by lia.
    reflexivity.
Qed.

End BackwardFacts.

(** ** The command-line engine *)
Section EngineFacts.
Import JS Lint Dispatch Linter CLIEngine.

Lemma calculateStatsPerFile_fold (messages : list Problem) :
  forall acc : Stats,
    let stats :=
      fold_left
        (fun stat message =>
           if fatal message || is_number 2 (severity message) then
             {| errorCount := S (errorCount stat);
                fatalErrorCount :=
                  if fatal message then S (fatalErrorCount stat)
                  else fatalErrorCount stat;
                warningCount := warningCount stat;
                fixableErrorCount :=
                  if has (fix_ message) then S (fixableErrorCount stat)
                  else fixableErrorCount stat;
                fixableWarningCount := fixableWarningCount stat |}
           else
             {| errorCount := errorCount stat;
                fatalErrorCount := fatalErrorCount stat;
                warningCount := S (warningCount stat);
                fixableErrorCount := fixableErrorCount stat;
                fixableWarningCount :=
                  if has (fix_ message) then S (fixableWarningCount stat)
                  else fixableWarningCount stat |})
        messages acc in
    (errorCount stats + warningCount stats
     = errorCount acc + warningCount acc + length messages)%nat
    /\ (errorCount stats
        = errorCount acc
          + length (List.filter
                      (fun m => fatal m || is_number 2 (severity m))
                      messages))%nat
    /\ ((fatalErrorCount acc <= errorCount acc)%nat ->
        (fatalErrorCount stats <= errorCount stats)%nat)
    /\ ((fixableErrorCount acc <= errorCount acc)%nat ->
        (fixableErrorCount stats <= errorCount stats)%nat)
    /\ ((fixableWarningCount acc <= warningCount acc)%nat ->
        (fixableWarningCount stats <= warningCount stats)%nat).
Proof.
  induction messages as [|m rest IH]; intros acc; cbv zeta; simpl.
  - repeat split; auto; lia.
  - match goal with
    | |- context [fold_left ?f rest ?a] =>
        specialize (IH a); cbv zeta in IH;
        destruct IH as (H1 & H2 & H3 & H4 & H5)
    end.
    destruct (fatal m || is_number 2 (severity m)) eqn:E; simpl in *;
      repeat split; try lia; intros H;
      try (apply H3; destruct (fatal m); lia);
      try (apply H4; destruct (has (fix_ m)); lia);
      try (apply H5; destruct (has (fix_ m)); lia).
Qed.

(** The counters of a file. *)
Lemma calculateStatsPerFile_counts (messages : list Problem) :
  let stats := calculateStatsPerFile messages in
  (errorCount stats + warningCount stats = length messages)%nat
  /\ errorCount stats
     = length (List.filter (fun m => fatal m || is_number 2 (severity m))
                 messages)
  /\ (fatalErrorCount stats <= errorCount stats)%nat
  /\ (fixableErrorCount stats <= errorCount stats)%nat
  /\ (fixableWarningCount stats <= warningCount stats)%nat.
Proof.
  destruct (calculateStatsPerFile_fold messages (mkStats 0 0 0 0 0))
    as (H1 & H2 & H3 & H4 & H5).
  unfold calculateStatsPerFile. cbv zeta. simpl in *.
  repeat split; auto.
Qed.

(** X22. The counters of a file add up: every message is counted once,
    as an error when it is fatal or of severity 2 and as a warning
    otherwise, and the fatal and the fixable ones are counted among
    their kind. *)
Theorem X22_calculateStatsPerFile_counts (messages : list Problem) :
  let stats := calculateStatsPerFile messages in
  (errorCount stats + warningCount stats = length messages)%nat
  /\ errorCount stats
     = length (List.filter (fun m => fatal m || is_number 2 (severity m))
                 messages)
  /\ (fatalErrorCount stats <= errorCount stats)%nat
  /\ (fixableErrorCount stats <= errorCount stats)%nat
  /\ (fixableWarningCount stats <= warningCount stats)%nat.
Proof. exact (calculateStatsPerFile_counts messages). Qed.

(** What [getErrorResults] keeps of one result. *)
Local Abbreviation errors_only :=
  (fun result : LintResult =>
     if (0 <? length (List.filter isErrorMessage (res_messages result)))%nat
     then
       [ {| res_filePath := res_filePath result;
            res_messages := List.filter isErrorMessage (res_messages result);
            res_errorCount :=
              length (List.filter isErrorMessage (res_messages result));
            res_fatalErrorCount := res_fatalErrorCount result;
            res_warningCount := 0;
            res_fixableErrorCount := res_fixableErrorCount result;
            res_fixableWarningCount := 0;
            res_output := res_output result;
            res_source := res_source result |} ]
     else []).

Lemma getErrorResults_flat_map (results : list LintResult) :
  getErrorResults results = flat_map errors_only results.
Proof.
  unfold getErrorResults.
  assert (H : forall acc,
    fold_left
      (fun filtered result =>
         let filteredMessages :=
           List.filter isErrorMessage (res_messages result) in
         if (0 <? length filteredMessages)%nat then
           filtered ++
           [ {| res_filePath := res_filePath result;
                res_messages := filteredMessages;
                res_errorCount := length filteredMessages;
                res_fatalErrorCount := res_fatalErrorCount result;
                res_warningCount := 0;
                res_fixableErrorCount := res_fixableErrorCount result;
                res_fixableWarningCount := 0;
                res_output := res_output result;
                res_source := res_source result |} ]
         else filtered)
      results acc
    = acc ++ flat_map errors_only results).
  { cbv zeta.
    induction results as [|r rest IH]; intros acc; simpl.
    - now rewrite app_nil_r.
    - rewrite IH. destruct (0 <? _)%nat; simpl.
      + now rewrite <- app_assoc.
      + reflexivity. }
  apply (H []).
Qed.

Lemma filter_isErrorMessage_idem (messages : list Problem) :
  List.filter isErrorMessage (List.filter isErrorMessage messages)
  = List.filter isErrorMessage messages.
Proof.
  induction messages as [|m rest IH]; simpl; [reflexivity|].
  destruct (isErrorMessage m) eqn:E; simpl; [rewrite E, IH|]; auto.
Qed.

(** X24. [getErrorResults] keeps the results that have a message of
    severity 2, in their order, and of each only those messages: a
    result it returns has at least one message, all of severity 2, its
    [errorCount] is their number and it counts no warning; and what it
    returns it returns unchanged when called on it again. *)
Theorem X24_getErrorResults_errors_only (results : list LintResult) :
  List.Forall
    (fun result =>
       res_messages result <> []
       /\ forallb isErrorMessage (res_messages result) = true
       /\ res_errorCount result = length (res_messages result)
       /\ res_warningCount result = 0%nat
       /\ res_fixableWarningCount result = 0%nat)
    (getErrorResults results)
  /\ map res_filePath (getErrorResults results)
     = map res_filePath
         (List.filter
            (fun result => existsb isErrorMessage (res_messages result))
            results)
  /\ getErrorResults (getErrorResults results) = getErrorResults results.
Proof.
  rewrite !getErrorResults_flat_map.
  split; [|split].
  - induction results as [|r rest IH]; simpl; [constructor|].
    apply Forall_app. split; [|exact IH].
    destruct (List.filter isErrorMessage (res_messages r)) as [|m ms] eqn:F;
      simpl; [constructor|].
    assert (Hall : forallb isErrorMessage (m :: ms) = true).
    { rewrite <- F. apply forallb_forall. intros x Hx.
      now apply filter_In in Hx. }
    repeat constructor; simpl; try discriminate. exact Hall.
  - induction results as [|r rest IH]; simpl; [reflexivity|].
    rewrite map_app, IH.
    assert (E : existsb isErrorMessage (res_messages r)
                = (0 <? length (List.filter isErrorMessage (res_messages r)))%nat).
    { induction (res_messages r) as [|m ms IHm]; simpl; [reflexivity|].
      destruct (isErrorMessage m); simpl; [reflexivity|exact IHm]. }
    rewrite E. destruct (0 <? _)%nat; reflexivity.
  - induction results as [|r rest IH]; simpl; [reflexivity|].
    rewrite flat_map_app, IH. f_equal.
    destruct (List.filter isErrorMessage (res_messages r)) as [|m ms] eqn:F;
      simpl; [reflexivity|].
    assert (Fi : List.filter isErrorMessage (m :: ms) = m :: ms)
      by (rewrite <- F; apply filter_isErrorMessage_idem).
    simpl in Fi. rewrite Fi. reflexivity.
Qed.

(** *** The options of an engine *)

Lemma own_set_prop (props : list (string * Value)) (k k' : string) (v : Value) :
  own (set_prop props k v) k'
  = if String.eqb k' k then Some v else own props k'.
Proof.
  induction props as [|[k0 v0] rest IH]; simpl.
  - reflexivity.
  - destruct (String.eqb_spec k k0) as [->|Hne]; simpl.
    + destruct (String.eqb k' k0); reflexivity.
    + rewrite IH. destruct (String.eqb_spec k' k0) as [->|Hne'];
        [|reflexivity].
      destruct (String.eqb_spec k0 k); [congruence|reflexivity].
Qed.

Lemma own_assign_absent (source : list (string * Value)) (k : string) :
  (forall v, ~ In (k, v) source) ->
  forall target,
    own (fold_left (fun t kv => set_prop t (fst kv) (snd kv)) source target) k
    = own target k.
Proof.
  induction source as [|[k0 v0] rest IH]; intros Hno target; simpl;
    [reflexivity|].
  rewrite IH by (intros v Hin; apply (Hno v); now right).
  rewrite own_set_prop.
  destruct (String.eqb_spec k k0) as [->|]; [|reflexivity].
  exfalso. apply (Hno v0). now left.
Qed.

Lemma own_assign_present (source : list (string * Value)) (k : string)
    (v : Value) :
  List.NoDup (map fst source) -> In (k, v) source ->
  forall target,
    own (fold_left (fun t kv => set_prop t (fst kv) (snd kv)) source target) k
    = Some v.
Proof.
  induction source as [|[k0 v0] rest IH]; intros Hnd Hin target; simpl;
    [contradiction|].
  simpl in Hnd. inversion Hnd as [|? ? Hnotin Hnd']; subst.
  destruct Hin as [[= -> ->]|Hin].
  - rewrite own_assign_absent.
    + rewrite own_set_prop, String.eqb_refl. reflexivity.
    + intros w Hw. apply Hnotin. apply in_map_iff. now exists (k, w).
  - now apply IH.
Qed.

End EngineFacts.

(** ** Linting files *)
Section FilesFacts.
Import JS Lint Dispatch Linter CLIEngine.

Variable D Arg ScopeManager : Type.
Variable createReportTranslator : TranslatorMetadata ScopeManager -> D -> Problem.
Variable evk_KEYS : string -> option (list string).
Variable evk_getKeys : Value -> list string.
Variable Generator : Type.
Variable newGenerator :
  bool -> list string -> SourceCode ScopeManager -> Generator.
Variable enterNode leaveNode :
  Generator -> Value -> Generator * list (string * Arg).
Variable espree : Parser ScopeManager.
Variable espree_latestEcmaVersion : Z.
Variable replaceShebang : string -> string.
Variable stripLineNumber : string -> string.
Variable resolveParserOptions : Value -> Value.
Variable analyzeScope : Value -> ScopeManager.
Variable lineOf : Value -> string.
Variable applyDisableDirectives :
  list DisableDirective -> bool -> list Problem -> string -> list Problem.
Variable applyFixes : string -> list Problem -> ShouldFix -> FixResult.

Local Abbreviation Slots := (Slots D Arg ScopeManager).
Local Abbreviation verifyWithConfigArray :=
  (verifyWithConfigArray D Arg ScopeManager createReportTranslator
     evk_KEYS evk_getKeys Generator newGenerator enterNode leaveNode
     espree espree_latestEcmaVersion replaceShebang stripLineNumber
     resolveParserOptions analyzeScope lineOf applyDisableDirectives).
Local Abbreviation verifyAndFix :=
  (verifyAndFix D Arg ScopeManager createReportTranslator
     evk_KEYS evk_getKeys Generator newGenerator enterNode leaveNode
     espree espree_latestEcmaVersion replaceShebang stripLineNumber
     resolveParserOptions analyzeScope lineOf applyDisableDirectives
     applyFixes).
Local Abbreviation verifyText :=
  (verifyText D Arg ScopeManager createReportTranslator
     evk_KEYS evk_getKeys Generator newGenerator enterNode leaveNode
     espree espree_latestEcmaVersion replaceShebang stripLineNumber
     resolveParserOptions analyzeScope lineOf applyDisableDirectives
     applyFixes).
Local Abbreviation executeOnFiles :=
  (executeOnFiles D Arg ScopeManager createReportTranslator
     evk_KEYS evk_getKeys Generator newGenerator enterNode leaveNode
     espree espree_latestEcmaVersion replaceShebang stripLineNumber
     resolveParserOptions analyzeScope lineOf applyDisableDirectives
     applyFixes).
Local Abbreviation CLIEngine := (CLIEngine D Arg ScopeManager).

(** The options that [verifyText] hands to the linter. *)
Local Abbreviation options_of filePath fix_value allowInlineConfig
    reportUnusedDisableDirectives :=
  (Some {| Linter.allowInlineConfig := allowInlineConfig;
           disableFixes := VUndefined;
           opt_filename := Some (filePath_or_text filePath);
           opt_reportUnusedDisableDirectives := reportUnusedDisableDirectives;
           opt_physicalFilename := None;
           opt_fix := fix_option fix_value |}).

Lemma verifyText_spec (text : string) (filePath : option string)
    (config fix_value allowInlineConfig reportUnusedDisableDirectives : Value)
    (linter : Slots) :
  match
    verifyText text filePath config fix_value allowInlineConfig
      reportUnusedDisableDirectives linter
  with
  | None => False
  | Some (Throw e) =>
      verifyAndFix linter text config
        (options_of filePath fix_value allowInlineConfig
           reportUnusedDisableDirectives)
      = Some (Throw e)
  | Some (Ok r) =>
      exists out,
        verifyAndFix linter text config
          (options_of filePath fix_value allowInlineConfig
             reportUnusedDisableDirectives)
        = Some (Ok out)
        /\ res_filePath r = filePath_or_text filePath
        /\ res_messages r = messages (result out)
        /\ (res_errorCount r + res_warningCount r
            = length (res_messages r))%nat
        /\ res_output r
           = (if fixed (result out) then Some (output (result out)) else None)
        /\ res_source r
           = (if fixed (result out) then None
              else match res_messages r with
                   | [] => None
                   | _ :: _ => Some text
                   end)
  end.
Proof.
  unfold CLIEngine.verifyText.
  pose proof (verifyAndFixWith_spec applyFixes
                (fun t => fst (verifyWithConfigArray linter (inl t) config
                                 (options_of filePath fix_value
                                    allowInlineConfig
                                    reportUnusedDisableDirectives)))
                (shouldFix_of (options_of filePath fix_value allowInlineConfig
                                 reportUnusedDisableDirectives)) text) as T.
  change (verifyAndFixWith applyFixes _ _ text)
    with (verifyAndFix linter text config
            (options_of filePath fix_value allowInlineConfig
               reportUnusedDisableDirectives)) in T.
  destruct (verifyAndFix linter text config _) as [[out|e]|];
    [|reflexivity|exact T].
  exists out. split; [reflexivity|].
  destruct (calculateStatsPerFile_counts (messages (result out))) as (H1 & _).
  cbn [res_filePath res_messages res_errorCount res_warningCount res_output
       res_source].
  repeat split; [exact H1|].
  rewrite H1. destruct (fixed (result out)); simpl.
  - now rewrite andb_false_r.
  - rewrite andb_true_r. destruct (messages (result out)); reflexivity.
Qed.

(** X23. [verifyText] always ends, and throws only what
    [verifyAndFix] threw.  Its result names the file, or [<text>] when
    no path was given, carries the messages of [verifyAndFix] with
    counters that add up to their number, has [output] exactly when a
    fix was applied, and has [source], the text it was given, exactly
    when no fix was applied and there is at least one message: never
    both. *)
Theorem X23_verifyText_result (text : string) (filePath : option string)
    (config fix_value allowInlineConfig reportUnusedDisableDirectives : Value)
    (linter : Slots) :
  match
    verifyText text filePath config fix_value allowInlineConfig
      reportUnusedDisableDirectives linter
  with
  | None => False
  | Some (Throw e) =>
      verifyAndFix linter text config
        (options_of filePath fix_value allowInlineConfig
           reportUnusedDisableDirectives)
      = Some (Throw e)
  | Some (Ok r) =>
      exists out,
        verifyAndFix linter text config
          (options_of filePath fix_value allowInlineConfig
             reportUnusedDisableDirectives)
        = Some (Ok out)
        /\ res_filePath r = filePath_or_text filePath
        /\ res_messages r = messages (result out)
        /\ (res_errorCount r + res_warningCount r
            = length (res_messages r))%nat
        /\ res_output r
           = (if fixed (result out) then Some (output (result out)) else None)
        /\ res_source r
           = (if fixed (result out) then None
              else match res_messages r with
                   | [] => None
                   | _ :: _ => Some text
                   end)
  end.
Proof.
  exact (verifyText_spec text filePath config fix_value allowInlineConfig
           reportUnusedDisableDirectives linter).
Qed.

(** The call of [verifyText] that [executeOnFiles] makes for a
    pattern. *)
Local Abbreviation lint this pattern :=
  (verifyText (file_text pattern) (filePath pattern)
     (VObject (options D Arg ScopeManager this))
     (option_of (options D Arg ScopeManager this) "fix")
     (option_of (options D Arg ScopeManager this) "allowInlineConfig")
     (option_of (options D Arg ScopeManager this)
        "reportUnusedDisableDirectives")
     (linter D Arg ScopeManager this)).

Lemma lint_patterns_spec (this : CLIEngine) (patterns : list Pattern) :
  forall acc,
    match
      lint_patterns D Arg ScopeManager createReportTranslator
        evk_KEYS evk_getKeys Generator newGenerator enterNode leaveNode
        espree espree_latestEcmaVersion replaceShebang stripLineNumber
        resolveParserOptions analyzeScope lineOf applyDisableDirectives
        applyFixes this patterns acc
    with
    | None => False
    | Some (Throw e) =>
        exists before pattern after done,
          patterns = before ++ pattern :: after
          /\ Forall2 (fun p r => lint this p = Some (Ok r)) before done
          /\ lint this pattern = Some (Throw e)
    | Some (Ok results) =>
        exists new,
          results = acc ++ new
          /\ Forall2 (fun p r => lint this p = Some (Ok r)) patterns new
    end.
Proof.
  induction patterns as [|p rest IH]; intros acc; simpl.
  - exists []. rewrite app_nil_r. split; [reflexivity|constructor].
  - pose proof (verifyText_spec (file_text p) (filePath p)
                  (VObject (options D Arg ScopeManager this))
                  (option_of (options D Arg ScopeManager this) "fix")
                  (option_of (options D Arg ScopeManager this)
                     "allowInlineConfig")
                  (option_of (options D Arg ScopeManager this)
                     "reportUnusedDisableDirectives")
                  (linter D Arg ScopeManager this)) as V.
    destruct (lint this p) as [[r|e]|] eqn:E; [| |exact V].
    + specialize (IH (acc ++ [r])).
      destruct (lint_patterns _ _ _ _ _ _ _ _ _ _ _ _ _ _ _ _ _ _ _ _ rest _)
        as [[rs|e]|]; [| |exact IH].
      * destruct IH as (new & -> & F). exists (r :: new).
        rewrite <- app_assoc. split; [reflexivity|].
        constructor; [exact E|exact F].
      * destruct IH as (before & q & after & done & -> & F & T).
        exists (p :: before), q, after, (r :: done).
        split; [reflexivity|].
        split; [constructor; [exact E|exact F]|exact T].
    + exists [], p, rest, []. split; [reflexivity|].
      split; [constructor|exact E].
Qed.

Lemma calculateStatsPerRun_sums (results : list LintResult) :
  forall acc : Stats,
    let stats :=
      fold_left
        (fun stat result =>
           {| errorCount := errorCount stat + res_errorCount result;
              fatalErrorCount :=
                fatalErrorCount stat + res_fatalErrorCount result;
              warningCount := warningCount stat + res_warningCount result;
              fixableErrorCount :=
                fixableErrorCount stat + res_fixableErrorCount result;
              fixableWarningCount :=
                fixableWarningCount stat + res_fixableWarningCount result |})
        results acc in
    errorCount stats
    = (errorCount acc + list_sum (map res_errorCount results))%nat
    /\ warningCount stats
       = (warningCount acc + list_sum (map res_warningCount results))%nat.
Proof.
  induction results as [|r rest IH]; intros acc; cbv zeta; simpl.
  - split; lia.
  - match goal with
    | |- context [fold_left ?f rest ?a] =>
        specialize (IH a); cbv zeta in IH; destruct IH as [H1 H2]
    end.
    simpl in *. split; lia.
Qed.

(** X25. [executeOnFiles] lints the files one after the other and
    always ends.  It throws what the first failing file threw, the files
    before it having been linted; otherwise its report has one result
    for each file, in the order of the files, each the result of
    [verifyText] for that file, and its error and warning counts are the
    sums of those of the results, which together count every message of
    every file once. *)
Theorem X25_executeOnFiles_report
    (this : CLIEngine) (patterns : list Pattern) :
  match executeOnFiles this patterns with
  | None => False
  | Some (Throw e) =>
      exists before pattern after done,
        patterns = before ++ pattern :: after
        /\ Forall2 (fun p r => lint this p = Some (Ok r)) before done
        /\ lint this pattern = Some (Throw e)
  | Some (Ok report) =>
      Forall2 (fun p r => lint this p = Some (Ok r))
        patterns (results report)
      /\ map res_filePath (results report)
         = map (fun p => filePath_or_text (filePath p)) patterns
      /\ rep_errorCount report
         = list_sum (map res_errorCount (results report))
      /\ rep_warningCount report
         = list_sum (map res_warningCount (results report))
      /\ (rep_errorCount report + rep_warningCount report
          = length (concat (map res_messages (results report))))%nat
  end.
Proof.
  unfold CLIEngine.executeOnFiles.
  pose proof (lint_patterns_spec this patterns []) as L.
  destruct (lint_patterns _ _ _ _ _ _ _ _ _ _ _ _ _ _ _ _ _ _ _ _ _ _)
    as [[rs|e]|]; [|exact L|exact L].
  destruct L as (new & -> & F). simpl app.
  destruct (calculateStatsPerRun_sums new (mkStats 0 0 0 0 0)) as [S1 S2].
  cbv zeta in S1, S2. simpl in S1, S2.
  cbn [results rep_errorCount rep_warningCount].
  unfold calculateStatsPerRun. rewrite S1, S2.
  split; [exact F|]. split; [|split; [reflexivity|split; [reflexivity|]]].
  - clear S1 S2. induction F as [|p r ps rs' H _ IH]; [reflexivity|].
    simpl. rewrite IH. f_equal.
    pose proof (verifyText_spec (file_text p) (filePath p)
                  (VObject (options D Arg ScopeManager this))
                  (option_of (options D Arg ScopeManager this) "fix")
                  (option_of (options D Arg ScopeManager this)
                     "allowInlineConfig")
                  (option_of (options D Arg ScopeManager this)
                     "reportUnusedDisableDirectives")
                  (linter D Arg ScopeManager this)) as V.
    rewrite H in V. destruct V as (out & _ & Hp & _). exact Hp.
  - clear S1 S2. induction F as [|p r ps rs' H _ IH]; [reflexivity|].
    simpl. rewrite length_app.
    pose proof (verifyText_spec (file_text p) (filePath p)
                  (VObject (options D Arg ScopeManager this))
                  (option_of (options D Arg ScopeManager this) "fix")
                  (option_of (options D Arg ScopeManager this)
                     "allowInlineConfig")
                  (option_of (options D Arg ScopeManager this)
                     "reportUnusedDisableDirectives")
                  (linter D Arg ScopeManager this)) as V.
    rewrite H in V. destruct V as (out & _ & _ & _ & Hc & _). lia.
Qed.

(** X29. The options of an engine are the defaults overridden by the
    options provided: a provided option is what the engine holds under
    that name, a name that is not provided keeps its default, and [fix]
    is never left [undefined], whether it is not provided or provided as
    [undefined]: it is then [false]. *)
Theorem X29_new_CLIEngine_options (providedOptions : Value) :
  let engine := new_CLIEngine D Arg ScopeManager espree providedOptions in
  let held := option_of (options D Arg ScopeManager engine) in
  List.NoDup (map fst (own_props providedOptions)) ->
  held "fix" <> VUndefined
  /\ (forall name v,
        In (name, v) (own_props providedOptions) ->
        name <> "fix" \/ v <> VUndefined ->
        held name = v)
  /\ (forall name,
        ~ In name (map fst (own_props providedOptions)) ->
        held name = option_of (own_props defaultOptions) name)
  /\ (In ("fix", VUndefined) (own_props providedOptions) ->
      held "fix" = VBool false).
Proof.
  intros engine held Hnd. unfold held, engine, new_CLIEngine. cbv zeta.
  cbn [options]. unfold Object_assign in *.
  set (d := fold_left _ (own_props defaultOptions) []).
  set (src := own_props providedOptions) in *.
  set (o := fold_left _ src d).
  assert (Hd : forall k, own d k = own (own_props defaultOptions) k).
  { intros k. reflexivity. }
  assert (Hin : forall k v, In (k, v) src -> own o k = Some v)
    by (intros k v Hk; now apply own_assign_present).
  assert (Hout : forall k, ~ In k (map fst src) -> own o k = own d k).
  { intros k Hk. apply own_assign_absent. intros v Hv. apply Hk.
    apply in_map_iff. now exists (k, v). }
  assert (Hother : forall k,
    option_of
      match option_of o "fix" with
      | VUndefined => set_prop o "fix" (VBool false)
      | _ => o
      end k
    = if String.eqb k "fix"
      then match option_of o "fix" with
           | VUndefined => VBool false
           | v => v
           end
      else option_of o k).
  { intros k. destruct (String.eqb_spec k "fix") as [->|Hne].
    - destruct (option_of o "fix") eqn:F; try exact F.
      unfold option_of. now rewrite own_set_prop.
    - destruct (option_of o "fix"); try reflexivity.
      unfold option_of. rewrite own_set_prop.
      destruct (String.eqb_spec k "fix"); [congruence|reflexivity]. }
  split; [|split; [|split]].
  - rewrite Hother. simpl. destruct (option_of o "fix"); discriminate.
  - intros name v Hv Hcond. rewrite Hother.
    pose proof (Hin name v Hv) as Ho.
    destruct (String.eqb_spec name "fix") as [->|Hne].
    + unfold option_of. rewrite Ho. simpl.
      destruct Hcond as [Hc|Hc]; [congruence|].
      destruct v; congruence.
    + unfold option_of. now rewrite Ho.
  - intros name Hno. rewrite Hother. unfold option_of.
    destruct (String.eqb_spec name "fix") as [->|Hne].
    + rewrite (Hout "fix" Hno), Hd. reflexivity.
    + now rewrite (Hout name Hno), Hd.
  - intros Hu. rewrite Hother. simpl. unfold option_of.
    now rewrite (Hin "fix" VUndefined Hu).
Qed.

End FilesFacts.

(** ** The options of the main API *)
Section OptionsFacts.
Import JS Lint Dispatch Linter ESLint.

Variable trim : string -> string.

Local Abbreviation processOptions := (processOptions trim).
Local Abbreviation errors_of := (errors_of trim).

Lemma push_if_nil (cond : bool) (message : string) :
  push_if cond message = [] -> cond = false.
Proof. destruct cond; [discriminate|reflexivity]. Qed.

(** X26. An option that [processOptions] does not know is always
    refused: whatever else the options hold, the call throws the
    invalid-options error, whose message starts with the list of the
    unknown names. *)
Theorem X26_processOptions_refuses_unknown_options (options : Value) :
  unknownOptionKeys_of options <> [] ->
  exists more,
    processOptions options
    = ThrowsInvalidOptions
        {| ioe_message :=
             String.append "Invalid Options:"
               (String.append LF
                  (String.append "- "
                     (String.append
                        (String.append "Unknown options: "
                           (String.concat ", " (unknownOptionKeys_of options)))
                        more)));
           ioe_code := "ESLINT_INVALID_OPTIONS" |}.
Proof.
  intros Hu.
  assert (Hlen : (1 <=? length (unknownOptionKeys_of options))%nat = true).
  { destruct (unknownOptionKeys_of options); [congruence|reflexivity]. }
  assert (Hjoin : forall (first : string) rest,
    exists more,
      String.concat (String.append LF "- ") (first :: rest)
      = String.append first more).
  { intros first [|x rest'].
    - exists "". simpl. clear. induction first as [|c f IH]; simpl;
        [reflexivity|]. unfold String.append in *. simpl. now rewrite <- IH.
    - eexists. reflexivity. }
  destruct options as [| |b|z|s|l|props|f];
    try (exfalso; apply Hu; reflexivity);
    unfold ESLint.processOptions, ESLint.errors_of; cbv zeta; rewrite Hlen;
    match goal with
    | |- context [new_ESLintInvalidOptionsError (([?first] ++ ?a) ++ ?b)] =>
        destruct (Hjoin first (a ++ b)) as [more Hm];
        exists more; unfold new_ESLintInvalidOptionsError;
        change (([first] ++ a) ++ b) with (first :: (a ++ b));
        rewrite Hm; reflexivity
    end.
Qed.

Lemma destructure_again (options : Value) (name : string) (byDefault : Value) :
  destructure options name byDefault = VUndefined ->
  byDefault = destructure options name byDefault.
Proof.
  unfold destructure.
  destruct (member_opt options name); try discriminate. reflexivity.
Qed.

Lemma destructure_own (props : list (string * Value)) (name : string)
    (byDefault v : Value) :
  own props name = Some v ->
  (v = VUndefined -> byDefault = v) ->
  destructure (VObject props) name byDefault = v.
Proof.
  intros Ho Hv. unfold destructure, member_opt, get. rewrite Ho.
  destruct v; auto.
Qed.

(** Options without error stay so when the unknown names, the override
    config and the plugins are taken away. *)
Lemma errors_of_known unknownOptionKeys a1 a2 a3 a4 a5 a6 a7 a8 a9 a10 a11 :
  errors_of unknownOptionKeys a1 a2 a3 a4 a5 a6 a7 a8 a9 a10 a11 = [] ->
  errors_of [] a1 a2 a3 a4 a5 a6 VNull (VObject []) a9 a10 a11 = [].
Proof.
  unfold ESLint.errors_of. intros H.
  repeat match type of H with
  | _ ++ _ = [] => apply app_eq_nil in H; destruct H as [? H]
  end.
  repeat match goal with
  | Hp : push_if _ _ = [] |- _ => apply push_if_nil in Hp; try rewrite Hp
  end.
  reflexivity.
Qed.

(** What [processOptions] returns, when it returns. *)
Lemma processOptions_shape (options normalized : Value) :
  processOptions options = Returns normalized ->
  exists a1 a2 a3 a4 a5 a6 a7 a8 a9 a10 a11 unknown,
    a1 = destructure options "allowInlineConfig" (VBool true)
    /\ a2 = destructure options "baseConfig" VNull
    /\ a3 = destructure options "extensions" VNull
    /\ a4 = destructure options "fix" (VBool false)
    /\ a5 = destructure options "fixTypes" VNull
    /\ a6 = destructure options "ignore" (VBool true)
    /\ a9 = destructure options "reportUnusedDisableDirectives" VNull
    /\ a10 = destructure options "resolvePluginsRelativeTo" VNull
    /\ a11 = destructure options "rulePaths" (VArray [])
    /\ errors_of unknown a1 a2 a3 a4 a5 a6 a7 a8 a9 a10 a11 = []
    /\ normalized
       = VObject
           [ ("allowInlineConfig", a1); ("baseConfig", a2);
             ("extensions", a3); ("fix", a4); ("fixTypes", a5);
             ("ignore", a6); ("reportUnusedDisableDirectives", a9);
             ("resolvePluginsRelativeTo", a10); ("rulePaths", a11) ].
Proof.
  intros H. unfold ESLint.processOptions in H.
  destruct options as [| |b|z|s|l|props|f]; try discriminate;
    cbv zeta in H;
    match type of H with
    | (if (0 <? length ?errors)%nat then _ else _) = _ =>
        destruct errors eqn:E; [|discriminate]
    end;
    injection H as <-;
    do 12 eexists; repeat (split; [reflexivity|]);
    (split; [exact E|reflexivity]).
Qed.

(** X27. What [processOptions] returns is normal: processing it again
    returns it unchanged.  The returned options have nine members, each
    given or defaulted, and hold neither the override config nor the
    plugins that were checked. *)
Theorem X27_processOptions_is_idempotent (options normalized : Value) :
  processOptions options = Returns normalized ->
  processOptions normalized = Returns normalized
  /\ Object_keys normalized
     = [ "allowInlineConfig"; "baseConfig"; "extensions"; "fix"; "fixTypes";
         "ignore"; "reportUnusedDisableDirectives";
         "resolvePluginsRelativeTo"; "rulePaths" ]
  /\ forall name,
       In name (Object_keys normalized) ->
       member_opt normalized name <> VUndefined.
Proof.
  intros H. pose proof (processOptions_shape options normalized H) as Hshape.
  destruct Hshape as (a1 & a2 & a3 & a4 & a5 & a6 & a7 & a8 & a9 & a10 & a11
                      & unknown & E1 & E2 & E3 & E4 & E5 & E6 & E9 & E10
                      & E11 & Herr & ->).
  split; [|split; [reflexivity|]].
  - apply errors_of_known in Herr.
    set (L := [ ("allowInlineConfig", a1); ("baseConfig", a2);
                ("extensions", a3); ("fix", a4); ("fixTypes", a5);
                ("ignore", a6); ("reportUnusedDisableDirectives", a9);
                ("resolvePluginsRelativeTo", a10); ("rulePaths", a11) ]).
    assert (R1 : destructure (VObject L) "allowInlineConfig" (VBool true) = a1)
      by (apply destructure_own; [reflexivity|subst a1; apply destructure_again]).
    assert (R2 : destructure (VObject L) "baseConfig" VNull = a2)
      by (apply destructure_own; [reflexivity|subst a2; apply destructure_again]).
    assert (R3 : destructure (VObject L) "extensions" VNull = a3)
      by (apply destructure_own; [reflexivity|subst a3; apply destructure_again]).
    assert (R4 : destructure (VObject L) "fix" (VBool false) = a4)
      by (apply destructure_own; [reflexivity|subst a4; apply destructure_again]).
    assert (R5 : destructure (VObject L) "fixTypes" VNull = a5)
      by (apply destructure_own; [reflexivity|subst a5; apply destructure_again]).
    assert (R6 : destructure (VObject L) "ignore" (VBool true) = a6)
      by (apply destructure_own; [reflexivity|subst a6; apply destructure_again]).
    assert (R7 : destructure (VObject L) "overrideConfig" VNull = VNull)
      by reflexivity.
    assert (R8 : destructure (VObject L) "plugins" (VObject []) = VObject [])
      by reflexivity.
    assert (R9 : destructure (VObject L) "reportUnusedDisableDirectives" VNull
                 = a9)
      by (apply destructure_own; [reflexivity|subst a9; apply destructure_again]).
    assert (R10 : destructure (VObject L) "resolvePluginsRelativeTo" VNull = a10)
      by (apply destructure_own; [reflexivity|subst a10; apply destructure_again]).
    assert (R11 : destructure (VObject L) "rulePaths" (VArray []) = a11)
      by (apply destructure_own; [reflexivity|subst a11; apply destructure_again]).
    assert (RU : unknownOptionKeys_of (VObject L) = []) by reflexivity.
    unfold ESLint.processOptions. cbv zeta.
    rewrite R1, R2, R3, R4, R5, R6, R7, R8, R9, R10, R11, RU, Herr.
    reflexivity.
  - intros name Hin Hu. simpl in Hin.
    assert (Hd : forall o k d, d <> VUndefined -> destructure o k d <> VUndefined).
    { intros o k d Hd. unfold destructure.
      destruct (member_opt o k); congruence. }
    destruct Hin as [<-|[<-|[<-|[<-|[<-|[<-|[<-|[<-|[<-|[]]]]]]]]]];
      cbn [member_opt get own String.eqb Ascii.eqb Bool.eqb] in Hu;
      subst; revert Hu; apply Hd; discriminate.
Qed.

End OptionsFacts.

(** ** The main API at work *)
Section ApiFacts.
Import JS Lint Dispatch Linter ESLint.

Variable trim : string -> string.
Variable D Arg ScopeManager : Type.
Variable createReportTranslator : TranslatorMetadata ScopeManager -> D -> Problem.
Variable evk_KEYS : string -> option (list string).
Variable evk_getKeys : Value -> list string.
Variable Generator : Type.
Variable newGenerator :
  bool -> list string -> SourceCode ScopeManager -> Generator.
Variable enterNode leaveNode :
  Generator -> Value -> Generator * list (string * Arg).
Variable espree : Parser ScopeManager.
Variable espree_latestEcmaVersion : Z.
Variable replaceShebang : string -> string.
Variable stripLineNumber : string -> string.
Variable resolveParserOptions : Value -> Value.
Variable analyzeScope : Value -> ScopeManager.
Variable lineOf : Value -> string.
Variable applyDisableDirectives :
  list DisableDirective -> bool -> list Problem -> string -> list Problem.
Variable applyFixes : string -> list Problem -> ShouldFix -> FixResult.

Local Abbreviation new_ESLint := (new_ESLint trim D Arg ScopeManager espree).
Local Abbreviation lintFiles :=
  (lintFiles D Arg ScopeManager createReportTranslator
     evk_KEYS evk_getKeys Generator newGenerator enterNode leaveNode
     espree espree_latestEcmaVersion replaceShebang stripLineNumber
     resolveParserOptions analyzeScope lineOf applyDisableDirectives
     applyFixes).

(** X28. Without a base config the main API cannot lint a file.  When
    the options of [new ESLint(options)] are valid and hold no
    [baseConfig] (or [null], its default), [lintFiles] on at least one
    file throws a [TypeError]: the engine's options then carry
    [baseConfig: null], which the linter reads [parserOptions] from. *)
Theorem X28_lintFiles_needs_baseConfig
    (options : Value) (eslint : ESLint D Arg ScopeManager)
    (pattern : CLIEngine.Pattern) (rest : list CLIEngine.Pattern) :
  new_ESLint options = Returns eslint ->
  member_opt options "baseConfig" = VUndefined
  \/ member_opt options "baseConfig" = VNull ->
  exists e,
    err_name e = "TypeError"
    /\ lintFiles eslint (pattern :: rest) = Some (Throw e).
Proof.
  unfold ESLint.new_ESLint. intros H Hb.
  set (opts := match options with VUndefined => VObject [] | _ => options end)
    in H.
  assert (Hb' : destructure opts "baseConfig" VNull = VNull).
  { unfold destructure.
    destruct options as [| |b|z|s|l|props|f]; simpl in *;
      try reflexivity.
    destruct Hb as [-> | ->]; reflexivity. }
  destruct (processOptions trim opts) as [normalized|e|e] eqn:P;
    try discriminate.
  injection H as <-.
  destruct (processOptions_shape trim opts normalized P)
    as (a1 & a2 & a3 & a4 & a5 & a6 & a7 & a8 & a9 & a10 & a11 & unknown
        & E1 & E2 & E3 & E4 & E5 & E6 & E9 & E10 & E11 & Herr & ->).
  rewrite Hb' in E2. subst a2.
  unfold ESLint.lintFiles, CLIEngine.executeOnFiles. cbn [cliEngine].
  cbn [CLIEngine.lint_patterns].
  set (engine := CLIEngine.new_CLIEngine D Arg ScopeManager espree _).
  assert (Hc : member_opt (VObject (CLIEngine.options D Arg ScopeManager engine))
                 "baseConfig" = VNull).
  { unfold engine, CLIEngine.new_CLIEngine. cbv zeta.
    cbn [CLIEngine.options].
    clear. destruct a4; reflexivity. }
  unfold CLIEngine.verifyText.
  match goal with
  | |- context [verifyAndFix _ _ _ _ _ _ _ _ _ _ _ _ _ _ _ _ _ _ _ ?sl ?t ?c ?o] =>
      destruct (no_baseConfig_throws D Arg ScopeManager
                  createReportTranslator evk_KEYS evk_getKeys Generator
                  newGenerator enterNode leaveNode espree
                  espree_latestEcmaVersion replaceShebang stripLineNumber
                  resolveParserOptions analyzeScope lineOf
                  applyDisableDirectives applyFixes sl (inl t) t c o
                  (or_intror Hc)) as (e & Hn & _ & Hv);
      rewrite Hv
  end.
  exists e. split; [exact Hn|reflexivity].
Qed.

End ApiFacts.

(** ** The further properties at concrete inputs *)
Section MoreSampleFacts.
Import JS Lint Dispatch Linter Sample.

Lemma X2_spellings_witness :
  own Severity.RULE_SEVERITY (toLowerCase "WARN") = Some (VNumber 1)
  /\ Severity.getRuleSeverity (VString "WARN") = VNumber 1
  /\ Severity.getRuleSeverity (VNumber 1) = VNumber 1
  /\ Severity.getRuleSeverity (VArray [VString "WARN"; VString "always"])
     = VNumber 1
  /\ Severity.getRuleSeverity (VArray [VNumber 1; VString "always"])
     = VNumber 1.
Proof.
  split; [reflexivity|].
  apply (X2_getRuleSeverity_spellings "WARN" 1 [VString "always"]).
  reflexivity.
Defined.

Lemma X7_skip_witness :
  exists st e l post,
    Traverser.traverse unit evk_KEYS evk_getKeys 3 (program "x") skipping tt
    = Some st
    /\ Traverser.trace unit st = e :: l :: post
    /\ Traverser.calls_skip (Traverser.ev_control e) = true
    /\ Traverser.ev_enter l = false
    /\ Traverser.ev_node l = Traverser.ev_node e
    /\ Traverser.ev_parent l = Traverser.ev_parent e.
Proof.
  destruct (X7_traverse_skip_goes_to_leave unit evk_KEYS evk_getKeys
              (program "x") skipping tt 0) as (st & H & Hs).
  vm_compute in H. injection H as <-. cbn [Traverser.trace] in Hs.
  match type of Hs with
  | forall pre e post, ?e0 :: ?post0 = _ -> _ =>
      destruct (Hs [] e0 post0 eq_refl eq_refl eq_refl eq_refl)
        as (l & post' & Hp & Hl)
  end.
  eexists. eexists. exists l, post'.
  split; [vm_compute; reflexivity|].
  split; [cbn [Traverser.trace]; f_equal; exact Hp|].
  split; [reflexivity|exact Hl].
Defined.

Lemma X10_no_node_witness :
  Traverser.isNode (ast unit no_tree) = false
  /\ is_Throw
       (fst (runRules no_tree [("no-program", VNumber 2)]
               (fun ruleId =>
                  ruleMap _ _ _
                    (linter_with (reporter VUndefined (descriptor None None)))
                  !! ruleId)
               "espree" (VObject []) "<input>" false None empty_store))
     = true.
Proof.
  split; [reflexivity|].
  apply (X10_runRules_needs_a_node Problem Value unit createReportTranslator
           evk_KEYS evk_getKeys unit (fun _ _ _ => tt) enterNode leaveNode).
  reflexivity.
Defined.


Lemma X13_parse_error_witness :
  parser unit (config_data (ParserOther unit) VUndefined) = ParserOther unit
  /\ verifyWithoutProcessors (new_Linter Problem Value unit espree)
       (inl "(") (Some (config_data (ParserOther unit) VUndefined))
       (Some no_options)
     = (Ok [ {| ruleId := None;
                fatal := true;
                severity := VNumber 2;
                message := "Parsing error: Unexpected token";
                line := VNumber 1;
                column := VNumber 2;
                endLine := VUndefined;
                endColumn := VUndefined;
                nodeType := VUndefined;
                fix_ := None;
                suggestions := None |} ],
        []).
Proof.
  split; [reflexivity|].
  apply (X13_parse_error_is_the_only_problem Problem Value unit
           createReportTranslator evk_KEYS evk_getKeys unit (fun _ _ _ => tt)
           enterNode leaveNode espree 13 (fun s => s) (fun s => s)
           (fun v => v) (fun _ => tt) (fun _ => "1")
           (fun _ _ problems _ => problems)
           (new_Linter Problem Value unit espree) "("
           (config_data (ParserOther unit) VUndefined) no_options
           "espree" espree "Unexpected token" (VNumber 1) (VNumber 2)).
  - right. right. split; reflexivity.
  - intros parserOptions. reflexivity.
Defined.

Lemma X16_unconfigured_rule_witness :
  (forall ruleConfig,
     In ("no-program", ruleConfig)
        (own_props (VObject [("no-program", VString "off")])) ->
     is_number 0 (Severity.getRuleSeverity ruleConfig) = true)
  /\ verifyWithoutProcessors
       (linter_with (reporter VUndefined (descriptor None None)))
       (inl "x")
       (Some (config_data (ParserOther unit)
                (VObject [("no-program", VString "off")])))
       (Some no_options)
     = verifyWithoutProcessors (new_Linter Problem Value unit espree)
         (inl "x")
         (Some (config_data (ParserOther unit)
                  (VObject [("no-program", VString "off")])))
         (Some no_options).
Proof.
  assert (H : forall ruleConfig,
            In ("no-program", ruleConfig)
               (own_props (VObject [("no-program", VString "off")])) ->
            is_number 0 (Severity.getRuleSeverity ruleConfig) = true).
  { intros ruleConfig [[= <-]|[]]. reflexivity. }
  split; [exact H|].
  exact (X16_defineRule_needs_the_config Problem Value unit
           createReportTranslator evk_KEYS evk_getKeys unit (fun _ _ _ => tt)
           enterNode leaveNode espree 13 (fun s => s) (fun s => s)
           (fun v => v) (fun _ => tt) (fun _ => "1")
           (fun _ _ problems _ => problems)
           (new_Linter Problem Value unit espree) "no-program"
           (NewStyle Problem Value (reporter VUndefined (descriptor None None)))
           (inl "x")
           (config_data (ParserOther unit)
              (VObject [("no-program", VString "off")]))
           (Some no_options) H).
Defined.

Lemma X18_edition_13_witness :
  6 <= 13 < 2015
  /\ normalizeEcmaVersion 13 (fun _ => None) true (VNumber 2022) = VNumber 13
  /\ normalizeEcmaVersionForLanguageOptions 13
       (normalizeEcmaVersion 13 (fun _ => None) true (VNumber 13))
     = VNumber 2022
  /\ normalizeEcmaVersionForLanguageOptions 13
       (normalizeEcmaVersion 13 (fun _ => None) true (VNumber 2022))
     = VNumber 2022.
Proof.
  split; [lia|].
  destruct (X18_ecmaVersion_edition_and_year 13 (fun _ => None) true 13)
    as (_ & H2 & H3 & H4 & _); [lia|].
  split; [exact H2|]. split; [exact H3|exact H4].
Defined.

Lemma X19_sorted_witness :
  List.Forall located [problem_at 2 1; problem_at 1 5; problem_at 1 2]
  /\ sort_problems [problem_at 2 1; problem_at 1 5; problem_at 1 2]
     = [problem_at 1 2; problem_at 1 5; problem_at 2 1]
  /\ StronglySorted not_after
       (sort_problems [problem_at 2 1; problem_at 1 5; problem_at 1 2]).
Proof.
  assert (H : List.Forall located
                [problem_at 2 1; problem_at 1 5; problem_at 1 2]).
  { repeat constructor; eexists; reflexivity. }
  split; [exact H|]. split; [reflexivity|].
  exact (proj1 (proj2 (X19_sort_problems_orders
                         [problem_at 2 1; problem_at 1 5; problem_at 1 2]))
           H).
Defined.

Lemma X21_no_baseConfig_witness :
  member_opt (VObject [("env", VObject [])]) "baseConfig" = VUndefined
  /\ exists e,
       err_name e = "TypeError"
       /\ verifyWithConfigArray (new_Linter Problem Value unit espree)
            (inl "x") (VObject [("env", VObject [])]) (Some no_options)
          = (Throw e, [])
       /\ Sample.verifyAndFix (new_Linter Problem Value unit espree)
            "x" (VObject [("env", VObject [])]) (Some no_options)
          = Some (Throw e).
Proof.
  split; [reflexivity|].
  apply (X21_verifyWithConfigArray_needs_baseConfig Problem Value unit
           createReportTranslator evk_KEYS evk_getKeys unit (fun _ _ _ => tt)
           enterNode leaveNode espree 13 (fun s => s) (fun s => s)
           (fun v => v) (fun _ => tt) (fun _ => "1")
           (fun _ _ problems _ => problems) applyFixes
           (new_Linter Problem Value unit espree) (inl "x") "x"
           (VObject [("env", VObject [])]) (Some no_options)).
  left. reflexivity.
Defined.

Lemma X26_unknown_option_witness :
  ESLint.unknownOptionKeys_of (VObject [("fix", VBool true); ("rules", VObject [])])
  <> []
  /\ exists more,
       ESLint.processOptions trim
         (VObject [("fix", VBool true); ("rules", VObject [])])
       = ESLint.ThrowsInvalidOptions
           {| ESLint.ioe_message :=
                String.append "Invalid Options:"
                  (String.append LF
                     (String.append "- "
                        (String.append
                           (String.append "Unknown options: "
                              (String.concat ", "
                                 (ESLint.unknownOptionKeys_of
                                    (VObject [("fix", VBool true);
                                              ("rules", VObject [])]))))
                           more)));
              ESLint.ioe_code := "ESLINT_INVALID_OPTIONS" |}.
Proof.
  split; [discriminate|].
  apply (X26_processOptions_refuses_unknown_options trim
           (VObject [("fix", VBool true); ("rules", VObject [])])).
  discriminate.
Defined.

Lemma X27_normal_options_witness :
  exists normalized,
    ESLint.processOptions trim
      (VObject [("fix", VBool true); ("rulePaths", VArray [VString "lib"])])
    = ESLint.Returns normalized
    /\ ESLint.processOptions trim normalized = ESLint.Returns normalized.
Proof.
  eexists. split; [vm_compute; reflexivity|].
  apply (X27_processOptions_is_idempotent trim
           (VObject [("fix", VBool true);
                     ("rulePaths", VArray [VString "lib"])])).
  vm_compute. reflexivity.
Defined.

Lemma X28_no_baseConfig_witness :
  exists eslint,
    new_ESLint (VObject [("fix", VBool true)]) = ESLint.Returns eslint
    /\ member_opt (VObject [("fix", VBool true)]) "baseConfig" = VUndefined
    /\ exists e,
         err_name e = "TypeError"
         /\ lintFiles eslint
              [ {| CLIEngine.file_text := "x";
                   CLIEngine.filePath := Some "a.js" |} ]
            = Some (Throw e).
Proof.
  eexists. split; [vm_compute; reflexivity|]. split; [reflexivity|].
  apply (X28_lintFiles_needs_baseConfig trim Problem Value unit
           createReportTranslator evk_KEYS evk_getKeys unit (fun _ _ _ => tt)
           enterNode leaveNode espree 13 (fun s => s) (fun s => s)
           (fun v => v) (fun _ => tt) (fun _ => "1")
           (fun _ _ problems _ => problems) applyFixes
           (VObject [("fix", VBool true)])).
  - vm_compute. reflexivity.
  - left. reflexivity.
Defined.

Lemma X29_engine_options_witness :
  List.NoDup (map fst (own_props (VObject [("fix", VUndefined);
                                           ("baseConfig", VObject [])])))
  /\ CLIEngine.option_of
       (CLIEngine.options _ _ _
          (CLIEngine.new_CLIEngine Problem Value unit espree
             (VObject [("fix", VUndefined); ("baseConfig", VObject [])])))
       "fix"
     = VBool false
  /\ CLIEngine.option_of
       (CLIEngine.options _ _ _
          (CLIEngine.new_CLIEngine Problem Value unit espree
             (VObject [("fix", VUndefined); ("baseConfig", VObject [])])))
       "baseConfig"
     = VObject [].
Proof.
  assert (H : List.NoDup
                (map fst (own_props (VObject [("fix", VUndefined);
                                              ("baseConfig", VObject [])])))).
  { repeat constructor; simpl; intuition discriminate. }
  split; [exact H|].
  destruct (X29_new_CLIEngine_options Problem Value unit espree
              (VObject [("fix", VUndefined); ("baseConfig", VObject [])]) H)
    as (_ & Hp & _ & Hf).
  split.
  - apply Hf. left. reflexivity.
  - apply Hp; [right; left; reflexivity|left; discriminate].
Defined.

End MoreSampleFacts.
